(** * Daum exchange-rate crawler (src/main.py): a shallow embedding

    The crawler drives a remote browser, reads a rendered table, searches
    one published round (고시회차) among the rows and stores the result.
    Every browser, clock and storage call of the source is a call on an
    abstract collaborator; the Python control flow (try / except / finally,
    early return, for loops) is embedded in a state-and-exception monad
    whose state survives a raised exception, as Python's does. *)

From Stdlib Require Import List NArith ZArith Bool Arith Lia String Ascii.
From Stdlib Require Import Sorted Permutation.
Import ListNotations.

Set Implicit Arguments.
Local Open Scope list_scope.

(** ** Python strings

    A [str] is a sequence of Unicode code points.  Literals of the source
    are written as UTF-8 text and decoded once by [utf8]. *)

Definition pystr := list N.

Module Utf8.

Definition cont (b : N) : N := b - 128.

Fixpoint decode (bs : list N) : pystr :=
  match bs with
  | [] => []
  | b0 :: t0 =>
      if (b0 <? 128)%N then b0 :: decode t0
      else
        match t0 with
        | [] => []
        | b1 :: t1 =>
            if (b0 <? 224)%N
            then ((b0 - 192) * 64 + cont b1)%N :: decode t1
            else
              match t1 with
              | [] => []
              | b2 :: t2 =>
                  if (b0 <? 240)%N
                  then ((b0 - 224) * 4096 + cont b1 * 64 + cont b2)%N
                         :: decode t2
                  else
                    match t2 with
                    | [] => []
                    | b3 :: t3 =>
                        ((b0 - 240) * 262144 + cont b1 * 4096
                         + cont b2 * 64 + cont b3)%N :: decode t3
                    end
              end
        end
  end.

Definition bytes (s : string) : list N :=
  List.map N_of_ascii (list_ascii_of_string s).

End Utf8.

Definition utf8 (s : string) : pystr := Utf8.decode (Utf8.bytes s).

Definition str_eqb (a b : pystr) : bool :=
  if list_eq_dec N.eq_dec a b then true else false.

(** [bool(s)] of a string: non-empty. *)
Definition truthy (s : pystr) : bool :=
  match s with [] => false | _ :: _ => true end.

Fixpoint starts_with (p s : pystr) : bool :=
  match p, s with
  | [], _ => true
  | _ :: _, [] => false
  | a :: p', b :: s' => (a =? b)%N && starts_with p' s'
  end.

(** [sub in s]. *)
Fixpoint str_in (sub s : pystr) : bool :=
  starts_with sub s
  || match s with [] => false | _ :: s' => str_in sub s' end.

(** [s.replace(a, b)] for one-character [a] and [b]. *)
Definition replace_char (a b : N) (s : pystr) : pystr :=
  List.map (fun c => if (c =? a)%N then b else c) s.

Fixpoint drop_while (p : N -> bool) (s : pystr) : pystr :=
  match s with
  | [] => []
  | c :: s' => if p c then drop_while p s' else s
  end.

Fixpoint take_while (p : N -> bool) (s : pystr) : pystr :=
  match s with
  | [] => []
  | c :: s' => if p c then c :: take_while p s' else []
  end.

(** [sep.join(parts)]. *)
Fixpoint join (sep : pystr) (parts : list pystr) : pystr :=
  match parts with
  | [] => []
  | [p] => p
  | p :: rest => p ++ sep ++ join sep rest
  end.

(** [str(n)] of a natural number. *)
Fixpoint digits_fuel (fuel : nat) (n : N) (acc : pystr) : pystr :=
  match fuel with
  | O => acc
  | S f =>
      let acc' := (48 + n mod 10)%N :: acc in
      if (n <? 10)%N then acc' else digits_fuel f (n / 10)%N acc'
  end.

Definition str_of_N (n : N) : pystr := digits_fuel (S (N.to_nat (N.log2 n))) n [].

Definition str_of_Z (z : Z) : pystr :=
  match z with
  | Zneg p => 45%N :: str_of_N (Npos p)
  | _ => str_of_N (Z.to_N z)
  end.

(** The character classes and the integer parser are the Python runtime's:
    [str.isspace] (used by [strip]), [str.isdigit], the regular-expression
    class [\d], and the builtin [int] on a string, which answers [None]
    where Python raises [ValueError]. *)
Class PyRuntime := {
  isspace : N -> bool;
  isdigit : N -> bool;
  re_digit : N -> bool;
  py_int : pystr -> option Z
}.

Section Strings.
Context {RT : PyRuntime}.

(** [s.strip()]. *)
Definition strip (s : pystr) : pystr :=
  rev (drop_while isspace (rev (drop_while isspace s))).

(** [any(c.isdigit() for c in s)]. *)
Definition any_isdigit (s : pystr) : bool := existsb isdigit s.

(** [re.findall(r'\d+', s)]: the maximal runs of [\d] characters, left to
    right.  The fuel is the length of the string: every step consumes a
    character. *)
Fixpoint findall_fuel (fuel : nat) (s : pystr) : list pystr :=
  match fuel with
  | O => []
  | S f =>
      match drop_while (fun c => negb (re_digit c)) s with
      | [] => []
      | rest =>
          take_while re_digit rest
            :: findall_fuel f (drop_while re_digit rest)
      end
  end.

Definition findall_digits (s : pystr) : list pystr :=
  findall_fuel (S (List.length s)) s.

End Strings.

(** ** Exceptions and results *)

Inductive exn_class :=
| TimeoutException
| NoSuchElementException
| StaleElementReferenceException
| IndexError
| AttributeError
| ValueError
| OtherException.

(** A raised exception: its class and [str(e)]. *)
Record exn := Exn { exn_kind : exn_class; exn_str : pystr }.

Definition exn_class_eqb (a b : exn_class) : bool :=
  match a, b with
  | TimeoutException, TimeoutException
  | NoSuchElementException, NoSuchElementException
  | StaleElementReferenceException, StaleElementReferenceException
  | IndexError, IndexError
  | AttributeError, AttributeError
  | ValueError, ValueError
  | OtherException, OtherException => true
  | _, _ => false
  end.

(** [except (C1, C2, ...)] catches [e] when its class is listed. *)
Definition caught_by (cs : list exn_class) (e : exn) : bool :=
  existsb (exn_class_eqb (exn_kind e)) cs.

Inductive result (A : Type) :=
| Ok (a : A)
| Raise (e : exn).
Arguments Ok {A} a.
Arguments Raise {A} e.

(** ** Locators, scripts and the data of the program *)

(** The four row selectors of [extract_exchange_data], in source order. *)
Inductive row_selector :=
| SelTbodyTr      (* //table/tbody/tr *)
| SelTableTr      (* //table//tr *)
| SelTableUITr    (* //div[contains(@class, 'tableUI')]//table//tr *)
| SelAbsoluteTr.  (* /html/body/div/div[4]/.../table/tbody/tr *)

Inductive locator :=
| TagBody | TagTable | TagTr | TagTd | TagTh          (* By.TAG_NAME *)
| XLastPageButton (index : nat)   (* /html/body/div/div[4]/div/div[4]/div[3]/div[2]/div/div/a[index] *)
| XPaginationLinks                (* //div[contains(@class,'tableUI-navigate')]/a | //div[contains(@class,'pagination')]/a *)
| XPageNumberLinks                (* .../a[string-length(text()) = 1 or string-length(text()) = 2] *)
| XRows (sel : row_selector).

Inductive script (Elem : Type) :=
| ScriptClick (e : Elem)          (* "arguments[0].click();", e *)
| ScriptSetHref (href : pystr).   (* "window.location.href = '<href>'" *)
Arguments ScriptClick {Elem} e.
Arguments ScriptSetHref {Elem} href.

Inductive timefmt :=
| FmtStamp    (* "%Y-%m-%d %H:%M:%S" *)
| FmtFile.    (* "%Y%m%d_%H%M%S" *)

(** One collected row: the dict with keys 고시회차, 현재가 환율, 수집일시. *)
Record Record_ := mkRecord {
  session : pystr;     (* "고시회차" *)
  rate : pystr;        (* "현재가 환율" *)
  collected : pystr    (* "수집일시" *)
}.

(** The [Body] handed to [put_object]: the CSV text, or the record that
    [json.dumps(data, ensure_ascii=False)] renders. *)
Inductive s3_body :=
| CsvBody (content : pystr)
| JsonBody (r : Record_).

Inductive content_type := TextCsv | ApplicationJson.

Definition base_url : pystr := utf8 "https://finance.daum.net/exchanges/FRX.KRWUSD".

(** ** Collaborators

    The browser (Selenium), the clock, the file system probe of the
    constructor and the object store, over an abstract world [W].  A call
    either returns or raises and leaves a new world.  [drv_quit] cannot
    raise: the Chromium driver's [quit] swallows the errors of the remote
    end. *)
Class Collab (W Drv Elem : Type) := {
  BUCKET_NAME : pystr;
  check_environment : W -> result (option pystr * option pystr) * W;
  copy_driver : pystr -> W -> result unit * W;
  (* webdriver.Chrome(service=Service(path), options) / Chrome(options) *)
  chrome : option pystr -> option pystr -> W -> result Drv * W;
  drv_get : Drv -> pystr -> W -> result unit * W;
  wait_present : Drv -> locator -> nat -> W -> result Elem * W;
  wait_clickable : Drv -> locator -> nat -> W -> result Elem * W;
  find_elements : Drv -> locator -> W -> result (list Elem) * W;
  elem_find_elements : Elem -> locator -> W -> result (list Elem) * W;
  elem_text : Elem -> W -> result pystr * W;
  execute_script : Drv -> script Elem -> W -> result unit * W;
  drv_quit : Drv -> W -> W;
  sleep : nat -> W -> W;
  now : timefmt -> W -> pystr * W;
  put_object : pystr -> pystr -> s3_body -> content_type -> W -> result unit * W
}.

(** ** Log lines, one constructor per [logger] call of the modelled code *)

Inductive logmsg :=
| LDriverCopied (path : pystr)
| LDriverCopyFailed (e : exn)
| LDriverReadyExplicit (path : pystr)
| LDriverReadyAuto
| LDriverSetupFailed (e : exn)
| LSeleniumVersion
| LFallbackTry
| LFallbackDone
| LFallbackFailed (e : exn)
| LLastButtonText (text : pystr)
| LClicked1
| LMethod1Failed (e : exn)
| LClicked2 (text : pystr)
| LNoTextButton
| LMethod2Failed (e : exn)
| LJumpTo (page : Z)
| LMethod3Failed (e : exn)
| LGoLastError (e : exn)
| LRowsBySelector (sel : row_selector) (n : nat)
| LSelectorFailed (sel : row_selector)
| LRowsByTag (n : nat)
| LRowsTotal (n : nat)
| LCollected (session rate : pystr)
| LRowError (idx : nat) (e : exn)
| LExtractError (e : exn)
| LPageLoaded
| LNavFailed
| LNoExtract
| LExact (target : pystr)
| LRetry (target : pystr)
| LButtonFound (index : nat) (text : pystr)
| LButtonClicked (index : nat)
| LButtonFailed (index : nat) (e : exn)
| LNoButton
| LRetryExact (target : pystr)
| LNumberFound (label : pystr) (n : Z)
| LLowest (label : pystr) (n : Z)
| LFirst (label : pystr)
| LNoSubstitute (target : pystr)
| LSearchError (e : exn)
| LQuit
| LNoCollected
| LCollectError (e : exn)
| LSaved (bucket file : pystr)
| LUnsupported
| LSaveError (e : exn)
| LCollectAllStart
| LSearchStart (target : pystr)
| LHandlerError (e : exn).

(** The calls that act on a session or on the store, in call order. *)
Inductive event (Drv Elem : Type) :=
| EvSession (d : Drv)                       (* webdriver.Chrome(...) returned d *)
| EvGet (d : Drv) (url : pystr)
| EvScript (d : Drv) (sc : script Elem)
| EvQuit (d : Drv)
| EvPut (bucket key : pystr) (body : s3_body) (ct : content_type).
Arguments EvSession {Drv Elem} d.
Arguments EvGet {Drv Elem} d url.
Arguments EvScript {Drv Elem} d sc.
Arguments EvQuit {Drv Elem} d.
Arguments EvPut {Drv Elem} bucket key body ct.

(** ** Program state and the monad *)

Section Crawler.
Context {W Drv Elem : Type}.
Context {RT : PyRuntime} {C : Collab W Drv Elem}.

(** The world, the fields of the crawler object, and what was observed. *)
Record St := mkSt {
  world : W;
  chrome_path : option pystr;
  driver_path : option pystr;
  self_driver : option Drv;
  trace : list (event Drv Elem);
  logs : list logmsg
}.

Definition set_world (s : St) (w : W) : St :=
  mkSt w (chrome_path s) (driver_path s) (self_driver s) (trace s) (logs s).
Definition set_driver (s : St) (d : option Drv) : St :=
  mkSt (world s) (chrome_path s) (driver_path s) d (trace s) (logs s).
Definition set_paths (s : St) (cp dp : option pystr) : St :=
  mkSt (world s) cp dp (self_driver s) (trace s) (logs s).
Definition add_event (s : St) (ev : event Drv Elem) : St :=
  mkSt (world s) (chrome_path s) (driver_path s) (self_driver s)
       (trace s ++ [ev]) (logs s).
Definition add_log (s : St) (l : logmsg) : St :=
  mkSt (world s) (chrome_path s) (driver_path s) (self_driver s)
       (trace s) (logs s ++ [l]).

Definition M (A : Type) := St -> result A * St.

Definition ret {A} (a : A) : M A := fun s => (Ok a, s).
Definition raise {A} (e : exn) : M A := fun s => (Raise e, s).
Definition bind {A B} (m : M A) (f : A -> M B) : M B :=
  fun s => match m s with
           | (Ok a, s1) => f a s1
           | (Raise e, s1) => (Raise e, s1)
           end.

(** [try: m  except Exception as e: h e]. *)
Definition try_except {A} (m : M A) (h : exn -> M A) : M A :=
  fun s => match m s with
           | (Ok a, s1) => (Ok a, s1)
           | (Raise e, s1) => h e s1
           end.

(** [try: m  except (cs) as e: h e]; other classes keep propagating. *)
Definition try_except_of {A} (cs : list exn_class) (m : M A)
           (h : exn -> M A) : M A :=
  try_except m (fun e => if caught_by cs e then h e else raise e).

(** [try: m  finally: c]: [c] always runs; what it raises wins. *)
Definition try_finally {A} (m : M A) (c : M unit) : M A :=
  fun s => match m s with
           | (r, s1) =>
               match c s1 with
               | (Ok _, s2) => (r, s2)
               | (Raise e, s2) => (Raise e, s2)
               end
           end.

(** An assignment to a field of the crawler object. *)
Definition assign (f : St -> St) : M unit := fun s => (Ok tt, f s).

Definition log (l : logmsg) : M unit := fun s => (Ok tt, add_log s l).
Definition emit (ev : event Drv Elem) : M unit :=
  fun s => (Ok tt, add_event s ev).

Definition call {A} (f : W -> result A * W) : M A :=
  fun s => match f (world s) with (r, w) => (r, set_world s w) end.
Definition call_total {A} (f : W -> A * W) : M A :=
  fun s => match f (world s) with (a, w) => (Ok a, set_world s w) end.
Definition act (f : W -> W) : M unit :=
  fun s => (Ok tt, set_world s (f (world s))).

Definition attribute_error : exn :=
  Exn AttributeError (utf8 "'NoneType' object has no attribute").

(** Reading [self.driver] for a method call on it. *)
Definition the_driver : M Drv :=
  fun s => match self_driver s with
           | Some d => (Ok d, s)
           | None => (Raise attribute_error, s)
           end.

End Crawler.

Arguments St : clear implicits.
Arguments M : clear implicits.

Declare Scope crawl_scope.
Delimit Scope crawl_scope with crawl.
Notation "x <- c1 ;; c2" := (bind c1 (fun x => c2))
  (at level 61, c1 at next level, right associativity) : crawl_scope.
Notation "c1 ;; c2" := (bind c1 (fun _ => c2))
  (at level 61, right associativity) : crawl_scope.
Local Open Scope crawl_scope.

(** ** The crawler (class DaumExchangeRateCrawler) *)

Section Program.
Context {W Drv Elem : Type}.
Context {RT : PyRuntime} {C : Collab W Drv Elem}.

#[local] Abbreviation M := (M W Drv Elem).
#[local] Abbreviation St := (St W Drv Elem).

(** A method call [self.driver.f(...)]. *)
Definition drv_call {A} (f : Drv -> W -> result A * W) : M A :=
  d <- the_driver ;; call (f d).

Definition path_truthy (p : option pystr) : option pystr :=
  match p with
  | Some (_ :: _) => p
  | _ => None
  end.

Definition TMP_DRIVER_PATH : pystr := utf8 "/tmp/chromedriver".

(** [__init__] (lines 98-115). *)
Definition crawler_init : M unit :=
  assign (fun s => set_driver s None) ;;
  paths <- call check_environment ;;
  assign (fun s => set_paths s (fst paths) (snd paths)) ;;
  match path_truthy (snd paths) with
  | Some p =>
      try_except
        (call (copy_driver p) ;;
         log (LDriverCopied TMP_DRIVER_PATH) ;;
         assign (fun s => set_paths s (chrome_path s) (Some TMP_DRIVER_PATH)))
        (fun e => log (LDriverCopyFailed e))
  | None => ret tt
  end.

(** [self.driver = webdriver.Chrome(...)]: the field is assigned only
    when the constructor returns. *)
Definition new_chrome (service_path : option pystr) : M unit :=
  fun s =>
    match chrome service_path (path_truthy (chrome_path s)) (world s) with
    | (Ok d, w) =>
        (Ok tt, add_event (set_driver (set_world s w) (Some d)) (EvSession d))
    | (Raise e, w) => (Raise e, set_world s w)
    end.

(** [setup_driver] (lines 117-173). *)
Definition setup_driver : M unit :=
  try_except
    (fun s =>
       match path_truthy (driver_path s) with
       | Some p => (new_chrome (Some p) ;; log (LDriverReadyExplicit p)) s
       | None => (new_chrome None ;; log LDriverReadyAuto) s
       end)
    (fun e =>
       log (LDriverSetupFailed e) ;;
       log LSeleniumVersion ;;
       try_except
         (log LFallbackTry ;; new_chrome None ;; log LFallbackDone)
         (fun e2 => log (LFallbackFailed e2) ;; raise e2)).

Definition driver_get (url : pystr) : M unit :=
  d <- the_driver ;; emit (EvGet d url) ;; call (drv_get d url).

Definition run_script (sc : script Elem) : M unit :=
  d <- the_driver ;; emit (EvScript d sc) ;; call (execute_script d sc).

(** *** go_to_last_page (lines 175-256) *)

Definition LAST_LABELS : list pystr :=
  [utf8 "마지막"; utf8 "끝"; utf8 ">>"; utf8 ">|"; utf8 "Last"].

(** Attempt 1 (lines 184-201); [true] stands for its [return True]. *)
Definition nav_attempt1 : M bool :=
  try_except_of [TimeoutException; NoSuchElementException]
    (b <- drv_call (fun d => wait_clickable d (XLastPageButton 11) 5) ;;
     t <- call (elem_text b) ;;
     log (LLastButtonText t) ;;
     run_script (ScriptClick b) ;;
     log LClicked1 ;;
     act (sleep 2) ;;
     ret true)
    (fun e => log (LMethod1Failed e) ;; ret false).

(** The loop of lines 210-213. *)
Fixpoint find_last_button (links : list Elem) : M (option Elem) :=
  match links with
  | [] => ret None
  | link :: rest =>
      t <- call (elem_text link) ;;
      if existsb (str_eqb (strip t)) LAST_LABELS
      then ret (Some link)
      else find_last_button rest
  end.

(** Attempt 2 (lines 204-223). *)
Definition nav_attempt2 : M bool :=
  try_except
    (links <- drv_call (fun d => find_elements d XPaginationLinks) ;;
     last_button <- find_last_button links ;;
     match last_button with
     | Some b =>
         run_script (ScriptClick b) ;;
         t <- call (elem_text b) ;;
         log (LClicked2 t) ;;
         act (sleep 2) ;;
         ret true
     | None => log LNoTextButton ;; ret false
     end)
    (fun e => log (LMethod2Failed e) ;; ret false).

Definition value_error : exn := Exn ValueError (utf8 "invalid literal for int()").

(** The loop of lines 233-239. *)
Fixpoint highest_page_loop (links : list Elem) (highest_page : Z) : M Z :=
  match links with
  | [] => ret highest_page
  | link :: rest =>
      r <- try_except_of [ValueError]
             (t <- call (elem_text link) ;;
              match py_int (strip t) with
              | Some page_num => ret (Some page_num)
              | None => raise value_error
              end)
             (fun _ => ret None) ;;
      match r with
      | Some page_num =>
          highest_page_loop rest
            (if (highest_page <? page_num)%Z then page_num else highest_page)
      | None => highest_page_loop rest highest_page
      end
  end.

Definition page_href (page : Z) : pystr :=
  base_url ++ utf8 "?page=" ++ str_of_Z page.

(** Attempt 3 (lines 226-251). *)
Definition nav_attempt3 : M bool :=
  try_except
    (page_links <- drv_call (fun d => find_elements d XPageNumberLinks) ;;
     highest_page <- highest_page_loop page_links 0%Z ;;
     if (0 <? highest_page)%Z then
       let estimated_last_page := (highest_page + 10)%Z in
       log (LJumpTo estimated_last_page) ;;
       run_script (ScriptSetHref (page_href estimated_last_page)) ;;
       act (sleep 3) ;;
       ret true
     else ret false)
    (fun e => log (LMethod3Failed e) ;; ret false).

Definition go_to_last_page : M bool :=
  try_except
    (drv_call (fun d => wait_present d TagBody 10) ;;
     a1 <- nav_attempt1 ;;
     if a1 then ret true else
     a2 <- nav_attempt2 ;;
     if a2 then ret true else
     a3 <- nav_attempt3 ;;
     if a3 then ret true else ret false)
    (fun e => log (LGoLastError e) ;; ret false).

(** *** extract_exchange_data (lines 258-341) *)

Definition SELECTORS : list row_selector :=
  [SelTbodyTr; SelTableTr; SelTableUITr; SelAbsoluteTr].

(** The selector loop (lines 275-289); [rows] is the variable [rows]. *)
Fixpoint select_rows (sels : list row_selector) (rows : list Elem)
  : M (list Elem) :=
  match sels with
  | [] => ret rows
  | selector :: rest =>
      r <- try_except_of [TimeoutException; NoSuchElementException]
             (drv_call (fun d => wait_present d (XRows selector) 5) ;;
              found <- drv_call (fun d => find_elements d (XRows selector)) ;;
              match found with
              | [] => ret (found, false)
              | _ :: _ =>
                  log (LRowsBySelector selector (List.length found)) ;;
                  ret (found, true)
              end)
             (fun _ => log (LSelectorFailed selector) ;; ret (rows, false)) ;;
      if snd r then ret (fst r) else select_rows rest (fst r)
  end.

Definition index_error : exn := Exn IndexError (utf8 "list index out of range").

(** [cells[i]]. *)
Definition cell_at (cells : list Elem) (i : nat) : M Elem :=
  match nth_error cells i with
  | Some c => ret c
  | None => raise index_error
  end.

(** The rate loop (lines 317-325): the accepted text, or [""]. *)
Fixpoint rate_loop (cells : list Elem) (idxs : list nat) : M pystr :=
  match idxs with
  | [] => ret []
  | cell_idx :: rest =>
      r <- try_except_of [IndexError; AttributeError]
             (c <- cell_at cells cell_idx ;;
              t <- call (elem_text c) ;;
              let cell_text := strip t in
              if any_isdigit cell_text then ret (Some cell_text) else ret None)
             (fun _ => ret None) ;;
      match r with
      | Some cell_text => ret cell_text
      | None => rate_loop cells rest
      end
  end.

(** Lines 327-333: the record is built only from two non-empty fields. *)
Definition build_record (session_ rate_ : pystr) : M (option Record_) :=
  if truthy session_ && truthy rate_ then
    ts <- call_total (now FmtStamp) ;;
    log (LCollected session_ rate_) ;;
    ret (Some (mkRecord session_ rate_ ts))
  else ret None.

(** The body of the row loop's [try] (lines 301-333). *)
Definition extract_row (row : Elem) : M (option Record_) :=
  tds <- call (elem_find_elements row TagTd) ;;
  cells <- (if List.length tds <? 2
            then call (elem_find_elements row TagTh)
            else ret tds) ;;
  if 2 <=? List.length cells then
    c0 <- cell_at cells 0 ;;
    t <- call (elem_text c0) ;;
    let session_ := strip t in
    rate_ <- rate_loop cells (if 3 <=? List.length cells then [2; 1] else [1]) ;;
    build_record session_ rate_
  else ret None.

Definition ROW_ERRORS : list exn_class :=
  [NoSuchElementException; StaleElementReferenceException].

(** The row loop (lines 299-335); [data] is the list being appended to. *)
Fixpoint row_loop (idx : nat) (rows : list Elem) (data : list Record_)
  : M (list Record_) :=
  match rows with
  | [] => ret data
  | row :: rest =>
      r <- try_except_of ROW_ERRORS
             (extract_row row)
             (fun e => log (LRowError idx e) ;; ret None) ;;
      row_loop (S idx) rest
               (match r with Some item => data ++ [item] | None => data end)
  end.

Definition extract_exchange_data : M (list Record_) :=
  try_except
    (drv_call (fun d => wait_present d TagTable 10) ;;
     rows <- select_rows SELECTORS [] ;;
     rows <- (match rows with
              | [] =>
                  rs <- drv_call (fun d => find_elements d TagTr) ;;
                  log (LRowsByTag (List.length rs)) ;;
                  ret rs
              | _ :: _ => ret rows
              end) ;;
     log (LRowsTotal (List.length rows)) ;;
     row_loop 0 rows [])
    (fun e => log (LExtractError e) ;; ret []).

(** *** find_specific_session (lines 343-439) *)

(** [for item in data: if item["고시회차"] == session_number: return item]. *)
Definition find_exact (session_number : pystr) (data : list Record_)
  : option Record_ :=
  List.find (fun item => str_eqb (session item) session_number) data.

(** [range(11, 0, -1)]. *)
Definition PROBE_INDICES : list nat := [11; 10; 9; 8; 7; 6; 5; 4; 3; 2; 1].

(** The probing loop (lines 372-390); the result is [found_button]. *)
Fixpoint probe_buttons (idxs : list nat) : M bool :=
  match idxs with
  | [] => ret false
  | index :: rest =>
      clicked <- try_except
                   (b <- drv_call (fun d => wait_clickable d (XLastPageButton index) 2) ;;
                    t <- call (elem_text b) ;;
                    log (LButtonFound index (strip t)) ;;
                    run_script (ScriptClick b) ;;
                    log (LButtonClicked index) ;;
                    act (sleep 3) ;;
                    ret true)
                   (fun e => log (LButtonFailed index e) ;; ret false) ;;
      if clicked then ret true else probe_buttons rest
  end.

Definition HOE : pystr := utf8 "회".

(** What one item adds to [session_with_numbers] (lines 409-417). *)
Definition numbered (item : Record_) : option (Z * Record_) :=
  if str_in HOE (session item) then
    match findall_digits (session item) with
    | first :: _ =>
        match py_int first with
        | Some extracted_number => Some (extracted_number, item)
        | None => None
        end
    | [] => None
    end
  else None.

(** The loop of lines 408-417. *)
Fixpoint number_loop (data : list Record_) (acc : list (Z * Record_))
  : M (list (Z * Record_)) :=
  match data with
  | [] => ret acc
  | item :: rest =>
      match numbered item with
      | Some (n, it) =>
          log (LNumberFound (session it) n) ;;
          number_loop rest (acc ++ [(n, it)])
      | None => number_loop rest acc
      end
  end.

(** [list.sort(key=lambda x: x[0])]: a stable sort on the first component. *)
Fixpoint insert_by_key (x : Z * Record_) (l : list (Z * Record_))
  : list (Z * Record_) :=
  match l with
  | [] => [x]
  | y :: l' =>
      if (fst x <=? fst y)%Z then x :: l else y :: insert_by_key x l'
  end.

Definition sort_by_key (l : list (Z * Record_)) : list (Z * Record_) :=
  fold_right insert_by_key [] l.

(** Lines 351-356 and 449-454: try to reach the last page, then extract
    from whatever page is loaded. *)
Definition navigate_and_extract : M (list Record_) :=
  success <- go_to_last_page ;;
  (if success then ret tt else log LNavFailed) ;;
  extract_exchange_data.

(** Lines 346-356: set up, load, navigate, extract. *)
Definition search_first : M (list Record_) :=
  setup_driver ;;
  driver_get base_url ;;
  log LPageLoaded ;;
  navigate_and_extract.

(** Lines 368-396: probe the last-page control again and re-extract. *)
Definition search_retry (session_number : pystr) : M (list Record_) :=
  log (LRetry session_number) ;;
  found_button <- probe_buttons PROBE_INDICES ;;
  (if found_button then ret tt else log LNoButton) ;;
  extract_exchange_data.

(** Lines 398-430, on the re-extracted [data]. *)
Definition choose (session_number : pystr) (data : list Record_)
  : M (option Record_) :=
  match data with
  | [] => log (LNoSubstitute session_number) ;; ret None
  | first :: _ =>
      match find_exact session_number data with
      | Some item => log (LRetryExact session_number) ;; ret (Some item)
      | None =>
          session_with_numbers <- number_loop data [] ;;
          match sort_by_key session_with_numbers with
          | (n, lowest_session) :: _ =>
              log (LLowest (session lowest_session) n) ;;
              ret (Some lowest_session)
          | [] => log (LFirst (session first)) ;; ret (Some first)
          end
      end
  end.

(** The [try] body (lines 346-430). *)
Definition search_body (session_number : pystr) : M (option Record_) :=
  data <- search_first ;;
  match data with
  | [] => log LNoExtract ;; ret None
  | _ :: _ =>
      match find_exact session_number data with
      | Some item => log (LExact session_number) ;; ret (Some item)
      | None =>
          data2 <- search_retry session_number ;;
          choose session_number data2
      end
  end.

(** The [finally] block (lines 436-439 and 465-468). *)
Definition release_driver : M unit :=
  fun s =>
    match self_driver s with
    | Some d => (emit (EvQuit d) ;; act (drv_quit d) ;; log LQuit) s
    | None => (Ok tt, s)
    end.

Definition find_specific_session (session_number : pystr)
  : M (option Record_) :=
  try_finally
    (try_except (search_body session_number)
                (fun e => log (LSearchError e) ;; ret None))
    release_driver.

(** *** get_all_exchange_rates (lines 441-468) *)

Definition get_all_exchange_rates : M (list Record_) :=
  try_finally
    (try_except
       (setup_driver ;;
        driver_get base_url ;;
        log LPageLoaded ;;
        data <- navigate_and_extract ;;
        match data with
        | [] => log LNoCollected ;; ret data
        | _ :: _ => ret data
        end)
       (fun e => log (LCollectError e) ;; ret []))
    release_driver.

(** ** save_to_s3 (lines 470-512) *)

(** The two shapes of [data] the handler passes. *)
Inductive payload :=
| PList (l : list Record_)
| PDict (r : Record_).

Definition NL : pystr := [10%N].
Definition COMMA : pystr := utf8 ",".

Definition CSV_HEADER : pystr := utf8 "고시회차,현재가 환율,수집일시" ++ NL.

(** [f"{item['고시회차']},{item['현재가 환율']},{item['수집일시']}"]. *)
Definition csv_row (item : Record_) : pystr :=
  session item ++ COMMA ++ rate item ++ COMMA ++ collected item.

(** [header + "\n".join(rows)]. *)
Definition csv_content (data : list Record_) : pystr :=
  CSV_HEADER ++ join NL (List.map csv_row data).

Definition s3_put (bucket key : pystr) (body : s3_body) (ct : content_type)
  : M unit :=
  emit (EvPut bucket key body ct) ;; call (put_object bucket key body ct).

Definition save_to_s3 (data : payload) (bucket_name file_name : pystr)
  : M bool :=
  try_except
    (match data with
     | PList ((_ :: _) as l) =>
         s3_put bucket_name file_name (CsvBody (csv_content l)) TextCsv ;;
         log (LSaved bucket_name file_name) ;;
         ret true
     | PDict r =>
         s3_put bucket_name file_name (JsonBody r) ApplicationJson ;;
         log (LSaved bucket_name file_name) ;;
         ret true
     | PList [] => log LUnsupported ;; ret false
     end)
    (fun e => log (LSaveError e) ;; ret false).

(** ** handler (lines 514-598) *)

Record event_in := mkEvent {
  ev_bucket_name : option pystr;
  ev_target_session : option pystr;
  ev_get_all : option bool
}.

(** [result_data]; [file_name] is a key that is present only on success. *)
Record result_data := mkResult {
  success : bool;
  message : pystr;
  timestamp : pystr;
  data : option Record_;
  file_name : option pystr
}.

Inductive body_json :=
| ResultBody (r : result_data)
| ErrorBody (error message_ : pystr).

Record response := mkResponse { statusCode : Z; body : body_json }.

Definition MSG_SAVE_FAILED : pystr := utf8 "데이터 수집은 완료되었으나 S3 저장 실패".
Definition MSG_NO_DATA : pystr := utf8 "수집된 데이터가 없습니다.".
Definition MSG_CRASH : pystr := utf8 "크롤링 실행 중 오류가 발생했습니다.".

Definition msg_all_saved (n : nat) : pystr :=
  utf8 "총 " ++ str_of_N (N.of_nat n) ++ utf8 "개의 데이터 수집 완료 및 S3 저장 성공".
Definition msg_one_saved (label : pystr) : pystr :=
  utf8 "'" ++ label ++ utf8 "' 데이터 수집 완료 및 S3 저장 성공".
Definition msg_not_found (target : pystr) : pystr :=
  utf8 "'" ++ target ++ utf8 "'를 찾지 못했습니다.".

Definition bulk_file_name (stamp : pystr) : pystr :=
  utf8 "exchange_rates_" ++ stamp ++ utf8 ".csv".

(** [f'exchange_rate_{result["고시회차"].replace(" ", "_")}_{...}.json']. *)
Definition single_file_name (label stamp : pystr) : pystr :=
  utf8 "exchange_rate_" ++ replace_char 32 95 label ++ utf8 "_" ++ stamp
       ++ utf8 ".json".

Definition DEFAULT_TARGET : pystr := utf8 "1회".

(** The bulk branch (lines 545-562), from the initial [result_data]. *)
Definition handle_all (bucket_name : pystr) (rd : result_data) : M result_data :=
  log LCollectAllStart ;;
  all_results <- get_all_exchange_rates ;;
  match all_results with
  | _ :: _ =>
      stamp <- call_total (now FmtFile) ;;
      let file_name_ := bulk_file_name stamp in
      save_success <- save_to_s3 (PList all_results) bucket_name file_name_ ;;
      if save_success
      then ret (mkResult true (msg_all_saved (List.length all_results))
                         (timestamp rd) (data rd) (Some file_name_))
      else ret (mkResult (success rd) MSG_SAVE_FAILED (timestamp rd) (data rd)
                         (file_name rd))
  | [] => ret (mkResult (success rd) MSG_NO_DATA (timestamp rd) (data rd)
                        (file_name rd))
  end.

(** The single branch (lines 564-583). *)
Definition handle_one (bucket_name target_session : pystr) (rd : result_data)
  : M result_data :=
  log (LSearchStart target_session) ;;
  result_ <- find_specific_session target_session ;;
  match result_ with
  | Some found =>
      stamp <- call_total (now FmtFile) ;;
      let file_name_ := single_file_name (session found) stamp in
      save_success <- save_to_s3 (PDict found) bucket_name file_name_ ;;
      if save_success
      then ret (mkResult true (msg_one_saved (session found)) (timestamp rd)
                         (Some found) (Some file_name_))
      else ret (mkResult (success rd) MSG_SAVE_FAILED (timestamp rd)
                         (Some found) (file_name rd))
  | None => ret (mkResult (success rd) (msg_not_found target_session)
                          (timestamp rd) (data rd) (file_name rd))
  end.

(** Lines 518-530: the three request fields and their defaults. *)
Definition event_bucket (event : event_in) : pystr :=
  match ev_bucket_name event with Some b => b | None => BUCKET_NAME end.
Definition event_target (event : event_in) : pystr :=
  match ev_target_session event with Some t => t | None => DEFAULT_TARGET end.
Definition event_get_all (event : event_in) : bool :=
  match ev_get_all event with Some g => g | None => false end.

Definition handler (event : event_in) : M response :=
  try_except
    (let bucket_name := event_bucket event in
     let target_session := event_target event in
     let get_all := event_get_all event in
     crawler_init ;;
     stamp <- call_total (now FmtStamp) ;;
     let rd := mkResult false [] stamp None None in
     rd' <- (if get_all
             then handle_all bucket_name rd
             else handle_one bucket_name target_session rd) ;;
     ret (mkResponse 200 (ResultBody rd')))
    (fun e =>
       log (LHandlerError e) ;;
       ret (mkResponse 500 (ErrorBody (exn_str e) MSG_CRASH))).

End Program.

(** ** A scripted browser, clock and store

    A concrete collaborator on which the program runs by computation: a
    table of rows, the table a click leads to, the pagination anchors, the
    indices at which a last-page control is clickable, and whether the
    browser and the store are reachable. *)

Module Fake.

Inductive elem :=
| Body
| Table
| Row (tds ths : list pystr)
| StaleRow
| Cell (text : pystr)
| Anchor (text : pystr).

Record world := mkWorld {
  chrome_ok : bool;
  table : list elem;
  next_table : list elem;
  anchors : list pystr;
  buttons : list nat;
  store_ok : bool
}.

Definition timeout : exn := Exn TimeoutException (utf8 "Message: ").
Definition stale : exn :=
  Exn StaleElementReferenceException (utf8 "stale element reference").
Definition unreachable : exn := Exn OtherException (utf8 "chrome not reachable").
Definition denied : exn := Exn OtherException (utf8 "AccessDenied").

Definition click (w : world) : world :=
  mkWorld (chrome_ok w) (next_table w) (next_table w) (anchors w) (buttons w)
          (store_ok w).

Definition present (loc : locator) (w : world) : result elem * world :=
  match loc with
  | TagBody => (Ok Body, w)
  | TagTable => (Ok Table, w)
  | XRows SelTbodyTr =>
      match table w with
      | r :: _ => (Ok r, w)
      | [] => (Raise timeout, w)
      end
  | _ => (Raise timeout, w)
  end.

Definition clickable (loc : locator) (w : world) : result elem * world :=
  match loc with
  | XLastPageButton i =>
      if existsb (Nat.eqb i) (buttons w)
      then (Ok (Anchor (utf8 ">")), w)
      else (Raise timeout, w)
  | _ => (Raise timeout, w)
  end.

Definition elements (loc : locator) (w : world) : result (list elem) * world :=
  match loc with
  | XRows SelTbodyTr | TagTr => (Ok (table w), w)
  | XPaginationLinks | XPageNumberLinks => (Ok (List.map Anchor (anchors w)), w)
  | _ => (Ok [], w)
  end.

Definition children (e : elem) (loc : locator) (w : world)
  : result (list elem) * world :=
  match e, loc with
  | Row tds _, TagTd => (Ok (List.map Cell tds), w)
  | Row _ ths, TagTh => (Ok (List.map Cell ths), w)
  | StaleRow, _ => (Raise stale, w)
  | _, _ => (Ok [], w)
  end.

Definition text_of (e : elem) (w : world) : result pystr * world :=
  match e with
  | Cell t | Anchor t => (Ok t, w)
  | StaleRow => (Raise stale, w)
  | _ => (Ok [], w)
  end.

Definition clock (f : timefmt) (w : world) : pystr * world :=
  (match f with
   | FmtStamp => utf8 "2024-05-01 09:00:00"
   | FmtFile => utf8 "20240501_090000"
   end, w).

#[export] Instance collab : Collab world unit elem := {|
  BUCKET_NAME := utf8 "exchange-rate-crawler-bucket";
  check_environment w := (Ok (None, None), w);
  copy_driver _ w := (Ok tt, w);
  chrome _ _ w := if chrome_ok w then (Ok tt, w) else (Raise unreachable, w);
  drv_get _ _ w := (Ok tt, w);
  wait_present _ loc _ w := present loc w;
  wait_clickable _ loc _ w := clickable loc w;
  find_elements _ loc w := elements loc w;
  elem_find_elements := children;
  elem_text := text_of;
  execute_script _ sc w :=
    match sc with
    | ScriptClick _ => (Ok tt, click w)
    | ScriptSetHref _ => (Ok tt, w)
    end;
  drv_quit _ w := w;
  sleep _ w := w;
  now := clock;
  put_object _ _ _ _ w := if store_ok w then (Ok tt, w) else (Raise denied, w)
|}.

(** ASCII character classes, and [int] on an optionally signed run of
    ASCII digits. *)
Definition ascii_digit (c : N) : bool := ((48 <=? c) && (c <=? 57))%N.

Fixpoint digits_value (s : pystr) (acc : Z) : option Z :=
  match s with
  | [] => Some acc
  | c :: s' =>
      if ascii_digit c
      then digits_value s' (10 * acc + Z.of_N (c - 48))%Z
      else None
  end.

Definition ascii_int (s : pystr) : option Z :=
  match s with
  | [] => None
  | 45%N :: (_ :: _) as ds => option_map Z.opp (digits_value ds 0%Z)
  | 43%N :: (_ :: _) as ds => digits_value ds 0%Z
  | _ => digits_value s 0%Z
  end.

#[export] Instance runtime : PyRuntime := {|
  isspace c := ((c =? 32) || ((9 <=? c) && (c <=? 13)))%N;
  isdigit := ascii_digit;
  re_digit := ascii_digit;
  py_int := ascii_int
|}.

Definition start (w : world) : St world unit elem :=
  mkSt w None None None [] [].

Definition row2 (label price : string) : elem := Row [utf8 label; utf8 price] [].

Definition rec_of (label price : string) : Record_ :=
  mkRecord (utf8 label) (utf8 price) (utf8 "2024-05-01 09:00:00").

(** A crawler that already holds a session. *)
Definition ready (w : world) : St world unit elem :=
  mkSt w None None (Some tt) [] [].

Definition static (rows : list elem) (links : list pystr) : world :=
  mkWorld true rows rows links [] true.

(** Three rounds, none of them the seventh; anchors 1, 7 and an arrow. *)
Definition w_three : world :=
  static [row2 "5회" "1300.5"; row2 "2회" "1301.0"; row2 "9회" "1302"]
         [utf8 "1"; utf8 "7"; utf8 ">"].

(** One row that is gone once the control a[3] has been clicked. *)
Definition w_vanishing : world :=
  mkWorld true [row2 "5회" "1300.5"] [] [] [3] true.

(** A label that is a bare number next to a label of a round. *)
Definition w_bare_number : world :=
  static [row2 "2" "1299.0"; row2 "5회" "1300.5"] [].

Definition w_no_browser : world :=
  mkWorld false [row2 "1회" "1300.5"] [row2 "1회" "1300.5"] [] [] true.

Definition w_store_down : world :=
  mkWorld true [row2 "1회" "1300.5"] [row2 "1회" "1300.5"] [] [] false.

(** A good row, a stale row, a row of one cell, a row without a digit,
    a good row. *)
Definition w_rows : world :=
  static [row2 "1회" "1300.5"; StaleRow; Row [utf8 "only"] [];
          row2 "2회" "n/a"; row2 "3회" "1,302.0"] [].

Definition w_spaced : world := static [row2 "2 회" "1301.0"] [].

Definition ask (target : string) : event_in :=
  mkEvent None (Some (utf8 target)) None.
Definition ask_all : event_in := mkEvent None None (Some true).

End Fake.

(** ** What the statements observe *)

Section Observations.
Context {W Drv Elem : Type}.
Context {RT : PyRuntime} {C : Collab W Drv Elem}.

#[local] Abbreviation M := (M W Drv Elem).
#[local] Abbreviation St := (St W Drv Elem).

(** Creation and release of browser sessions, the rest of a trace left out. *)
Definition is_session_event (ev : event Drv Elem) : bool :=
  match ev with
  | EvSession _ | EvQuit _ => true
  | _ => false
  end.

Definition session_events (tr : list (event Drv Elem)) : list (event Drv Elem) :=
  List.filter is_session_event tr.

(** A step that neither creates nor releases a session and leaves the
    fields of the crawler object alone. *)
Definition quiet (s s' : St) : Prop :=
  self_driver s' = self_driver s
  /\ chrome_path s' = chrome_path s
  /\ driver_path s' = driver_path s
  /\ session_events (trace s') = session_events (trace s).

(** [m] may raise, but is quiet. *)
Definition quietly {A} (m : M A) : Prop :=
  forall s, quiet s (snd (m s)).

(** [m] returns a value from every state, quietly. *)
Definition safe {A} (m : M A) : Prop :=
  forall s, (exists a, fst (m s) = Ok a) /\ quiet s (snd (m s)).

(** From [s], at most one session was created, and it is still held. *)
Definition opened (s s1 : St) : Prop :=
  (self_driver s1 = None
   /\ session_events (trace s1) = session_events (trace s))
  \/ (exists d, self_driver s1 = Some d
                /\ session_events (trace s1)
                   = session_events (trace s) ++ [EvSession d]).

Definition opening {A} (m : M A) : Prop :=
  forall s, self_driver s = None -> opened s (snd (m s)).

(** From [s], either no session was created and none released, or one
    session was created and then released once. *)
Definition released_once (s s' : St) : Prop :=
  session_events (trace s') = session_events (trace s)
  \/ exists d, session_events (trace s')
               = session_events (trace s) ++ [EvSession d; EvQuit d].

(** [m], run on a crawler that holds no session, releases what it creates. *)
Definition bracketing {A} (m : M A) : Prop :=
  forall s, self_driver s = None -> released_once s (snd (m s)).

(** Every value [m] returns satisfies [Q]. *)
Definition yields {A} (m : M A) (Q : A -> Prop) : Prop :=
  forall s a s', m s = (Ok a, s') -> Q a.

(** The invariant of a constructed record (spec section 3). *)
Definition valid_record (r : Record_) : Prop :=
  session r <> [] /\ rate r <> [] /\ any_isdigit (rate r) = true.

(** Reading the visible text of elements one after the other. *)
Fixpoint read_texts (els : list Elem) (w : W) : result (list pystr) * W :=
  match els with
  | [] => (Ok [], w)
  | el :: rest =>
      match elem_text el w with
      | (Ok t, w1) =>
          match read_texts rest w1 with
          | (Ok ts, w2) => (Ok (t :: ts), w2)
          | (Raise e, w2) => (Raise e, w2)
          end
      | (Raise e, w1) => (Raise e, w1)
      end
  end.

(** The labels that [int] accepts, as numbers, in order. *)
Definition numeric_labels (texts : list pystr) : list Z :=
  List.flat_map
    (fun t => match py_int (strip t) with Some n => [n] | None => [] end) texts.

(** The largest of [h] and the numbers of [l]. *)
Definition highest_of (l : list Z) (h : Z) : Z := fold_left Z.max l h.

(** The candidates of the numeric fallback, in extraction order. *)
Definition candidates (data : list Record_) : list (Z * Record_) :=
  List.flat_map
    (fun item => match numbered item with Some x => [x] | None => [] end) data.

End Observations.

(** ** What a run does to the trace *)

Section Frames.
Context {W Drv Elem : Type}.
Context {RT : PyRuntime} {C : Collab W Drv Elem}.

#[local] Abbreviation M := (M W Drv Elem).
#[local] Abbreviation St := (St W Drv Elem).

(** Page loads and scripts: the calls that drive a session. *)
Definition is_browse_event (ev : event Drv Elem) : bool :=
  match ev with
  | EvGet _ _ | EvScript _ _ => true
  | _ => false
  end.

Definition is_put_event (ev : event Drv Elem) : bool :=
  match ev with
  | EvPut _ _ _ _ => true
  | _ => false
  end.

Definition no_event (ev : event Drv Elem) : bool := false.

(** [s'] continues [s]: the fields of the crawler object are the same and
    the trace grew by events that all satisfy [ok]. *)
Definition extends (ok : event Drv Elem -> bool) (s s' : St) : Prop :=
  self_driver s' = self_driver s
  /\ chrome_path s' = chrome_path s
  /\ driver_path s' = driver_path s
  /\ exists mid, trace s' = trace s ++ mid /\ forallb ok mid = true.

(** Whatever [m] returns or raises, it only adds events satisfying [ok]. *)
Definition within (ok : event Drv Elem -> bool) {A} (m : M A) : Prop :=
  forall s, extends ok s (snd (m s)).

(** The events one browser session leaves: nothing, or its creation, page
    loads and scripts, and its release. *)
Definition session_span (tr : list (event Drv Elem)) : Prop :=
  tr = []
  \/ exists d mid,
      tr = EvSession d :: mid ++ [EvQuit d]
      /\ forallb is_browse_event mid = true.

(** From [s], a crawler that held no session holds none and did nothing,
    or holds the one it created and has only browsed with it. *)
Definition holding (s s1 : St) : Prop :=
  (self_driver s1 = None /\ trace s1 = trace s)
  \/ exists d mid,
       self_driver s1 = Some d
       /\ trace s1 = trace s ++ EvSession d :: mid
       /\ forallb is_browse_event mid = true.

Definition holds {A} (m : M A) : Prop :=
  forall s, self_driver s = None -> holding s (snd (m s)).



(** [link.text.strip() in ["마지막", "끝", ">>", ">|", "Last"]]. *)
Definition is_last_label (t : pystr) : bool :=
  existsb (str_eqb (strip t)) LAST_LABELS.

End Frames.

(** A field that holds neither the comma nor the line feed of the CSV. *)
Definition plain_field (s : pystr) : bool :=
  forallb (fun c => negb ((c =? 44)%N || (c =? 10)%N)) s.

Definition plain_record (r : Record_) : bool :=
  plain_field (session r) && plain_field (rate r) && plain_field (collected r).

(** ** A collaborator that fails

    The scripted collaborator behind switches: the probe of the
    constructor, the copy of the driver, the start of Chrome with an
    explicit driver, the page load, and one row of the table whose window
    is gone. *)

Module Flaky.

Inductive elem :=
| Sound (e : Fake.elem)
| Broken.

Record world := mkWorld {
  inner : Fake.world;
  environment : result (option pystr * option pystr);
  copy_ok : bool;
  service_ok : bool;
  page_ok : bool;
  broken_at : option nat
}.

Definition with_inner (w : world) (i : Fake.world) : world :=
  mkWorld i (environment w) (copy_ok w) (service_ok w) (page_ok w)
          (broken_at w).

Definition no_window : exn := Exn OtherException (utf8 "no such window").
Definition no_file : exn := Exn OtherException (utf8 "No such file or directory").
Definition no_page : exn := Exn OtherException (utf8 "net::ERR_NAME_NOT_RESOLVED").
Definition no_service : exn := Exn OtherException (utf8 "Service unexpectedly exited").

Definition lift {A B} (f : A -> B) (w : world) (r : result A * Fake.world)
  : result B * world :=
  match r with
  | (Ok a, i) => (Ok (f a), with_inner w i)
  | (Raise e, i) => (Raise e, with_inner w i)
  end.

Definition with_broken (w : world) (rows : list elem) : list elem :=
  match broken_at w with
  | Some n => firstn n rows ++ Broken :: skipn n rows
  | None => rows
  end.

Definition elements (loc : locator) (w : world) : result (list elem) * world :=
  match loc with
  | XRows _ | TagTr =>
      lift (fun l => with_broken w (List.map Sound l)) w
           (Fake.elements loc (inner w))
  | _ => lift (List.map Sound) w (Fake.elements loc (inner w))
  end.

Definition children (e : elem) (loc : locator) (w : world)
  : result (list elem) * world :=
  match e with
  | Sound e' => lift (List.map Sound) w (Fake.children e' loc (inner w))
  | Broken => (Raise no_window, w)
  end.

Definition text_of (e : elem) (w : world) : result pystr * world :=
  match e with
  | Sound e' => lift (fun t => t) w (Fake.text_of e' (inner w))
  | Broken => (Raise no_window, w)
  end.

#[export] Instance collab : Collab world unit elem := {|
  BUCKET_NAME := utf8 "exchange-rate-crawler-bucket";
  check_environment w := (environment w, w);
  copy_driver _ w := if copy_ok w then (Ok tt, w) else (Raise no_file, w);
  chrome service _ w :=
    match service with
    | Some _ => if service_ok w then (Ok tt, w) else (Raise no_service, w)
    | None =>
        if Fake.chrome_ok (inner w) then (Ok tt, w)
        else (Raise Fake.unreachable, w)
    end;
  drv_get _ _ w := if page_ok w then (Ok tt, w) else (Raise no_page, w);
  wait_present _ loc _ w := lift Sound w (Fake.present loc (inner w));
  wait_clickable _ loc _ w := lift Sound w (Fake.clickable loc (inner w));
  find_elements _ loc w := elements loc w;
  elem_find_elements := children;
  elem_text := text_of;
  execute_script _ sc w :=
    match sc with
    | ScriptClick _ => (Ok tt, with_inner w (Fake.click (inner w)))
    | ScriptSetHref _ => (Ok tt, w)
    end;
  drv_quit _ w := w;
  sleep _ w := w;
  now f w := (fst (Fake.clock f (inner w)), w);
  put_object _ _ _ _ w :=
    if Fake.store_ok (inner w) then (Ok tt, w) else (Raise Fake.denied, w)
|}.

(** Everything works, over the scripted world [i]. *)
Definition sound (i : Fake.world) : world :=
  mkWorld i (Ok (None, None)) true true true None.

Definition start (w : world) : St world unit elem :=
  mkSt w None None None [] [].

(** A crawler that already holds a session. *)
Definition ready (w : world) : St world unit elem :=
  mkSt w None None (Some tt) [] [].

End Flaky.

(** ** check_environment (lines 44-95)

    The probe that the constructor runs, over the file system and the
    subprocess calls it makes.  [os.path.exists] and [os.environ.get] do not
    raise; the other calls return or raise.  The [logger] calls are left
    out, the calls made for their arguments are kept. *)

Module Environment.

Class Probe (W : Type) := {
  listdir : pystr -> W -> result (list pystr) * W;      (* os.listdir *)
  path_exists : pystr -> W -> bool * W;                 (* os.path.exists *)
  stat_mode : pystr -> W -> result N * W;               (* os.stat(path).st_mode *)
  run_version : pystr -> W -> result pystr * W;         (* subprocess.run([path, "--version"]) *)
  environ_path : W -> pystr * W                         (* os.environ.get('PATH', '') *)
}.

Definition CHROME_PATHS : list pystr :=
  [utf8 "/opt/chrome/chrome"; utf8 "/opt/chrome/headless-chromium";
   utf8 "/opt/chrome-linux/chrome"; utf8 "/opt/headless-chromium";
   utf8 "/var/task/headless-chromium"].

Definition CHROMEDRIVER_PATHS : list pystr :=
  [utf8 "/opt/chromedriver"; utf8 "/opt/chrome/chromedriver";
   utf8 "/var/task/chromedriver"].

Section Check.
Context {W : Type} {P : Probe W}.

(** The loops of lines 56-68 and 75-87: the first path that exists is
    taken, its mode is read, its version is asked for inside a [try] whose
    handler only logs, and the loop ends. *)
Fixpoint probe_paths (paths : list pystr) (w : W) : result (option pystr) * W :=
  match paths with
  | [] => (Ok None, w)
  | path :: rest =>
      match path_exists path w with
      | (true, w1) =>
          match stat_mode path w1 with
          | (Ok _, w2) => (Ok (Some path), snd (run_version path w2))
          | (Raise e, w2) => (Raise e, w2)
          end
      | (false, w1) => probe_paths rest w1
      end
  end.

Definition check_environment (w : W)
  : result (option pystr * option pystr) * W :=
  let w0 := snd (listdir (utf8 "/opt") w) in
  match probe_paths CHROME_PATHS w0 with
  | (Ok chrome_path, w1) =>
      match probe_paths CHROMEDRIVER_PATHS w1 with
      | (Ok driver_path, w2) =>
          (Ok (chrome_path, driver_path), snd (environ_path w2))
      | (Raise e, w2) => (Raise e, w2)
      end
  | (Raise e, w1) => (Raise e, w1)
  end.

(** Asking one after the other whether the paths exist: none does. *)
Fixpoint all_missing (paths : list pystr) (w : W) : bool * W :=
  match paths with
  | [] => (true, w)
  | path :: rest =>
      match path_exists path w with
      | (true, w1) => (false, w1)
      | (false, w1) => all_missing rest w1
      end
  end.

End Check.

(** A file system given by the paths that exist, on which listing /opt
    and asking for a version fail. *)
Definition no_opt : exn := Exn OtherException (utf8 "No such file or directory: '/opt'").
Definition no_exec : exn := Exn OtherException (utf8 "Exec format error").

#[export] Instance listed : Probe (list pystr) := {|
  listdir _ w := (Raise no_opt, w);
  path_exists path w := (existsb (str_eqb path) w, w);
  stat_mode _ w := (Ok 33261%N, w);
  run_version _ w := (Raise no_exec, w);
  environ_path w := (utf8 "/usr/local/bin:/usr/bin", w)
|}.

End Environment.

(** ** Further scripted pages and failures *)

Module Scenes.

(** The control a[3] leads from the row of 5회 to the row of 7회. *)
Definition w_next : Fake.world :=
  Fake.mkWorld true [Fake.row2 "5회" "1300.5"] [Fake.row2 "7회" "1299.9"]
               [] [3] true.

(** The control a[3] leads to rows whose labels carry no number. *)
Definition w_unnumbered : Fake.world :=
  Fake.mkWorld true [Fake.row2 "5회" "1300.5"]
               [Fake.row2 "latest" "1299.9"; Fake.row2 "older" "1298.0"]
               [] [3] true.


Definition w_blank : Fake.world := Fake.static [] [].

(** A row of three cells whose third cell holds no digit. *)
Definition row3 : Fake.elem :=
  Fake.Row [utf8 "1회"; utf8 "1300.5"; utf8 "-"] [].

Definition probed : result (option pystr * option pystr) := Ok (None, None).

(** Chrome does not start with an explicit driver path. *)
Definition w_bad_service : Flaky.world :=
  Flaky.mkWorld w_blank probed true false true None.

(** A crawler whose driver path was copied to /tmp. *)
Definition s_explicit : St Flaky.world unit Flaky.elem :=
  mkSt w_bad_service None (Some TMP_DRIVER_PATH) None [] [].

(** Browser and driver are found, the copy of the driver fails. *)
Definition w_copy_fails : Flaky.world :=
  Flaky.mkWorld w_blank
                (Ok (Some (utf8 "/opt/chrome/chrome"),
                     Some (utf8 "/opt/chromedriver")))
                false true true None.

(** The page cannot be loaded. *)
Definition w_no_page : Flaky.world :=
  Flaky.mkWorld (Fake.static [Fake.row2 "1회" "1300.5"] []) probed
                true true false None.

(** Between two good rows, a row whose window is gone. *)
Definition w_broken : Flaky.world :=
  Flaky.mkWorld
    (Fake.static [Fake.row2 "1회" "1300.5"; Fake.row2 "2회" "1301.0"] [])
    probed true true true (Some 1).

(** The files of a layer with headless-chromium and its driver. *)
Definition files : list pystr :=
  [utf8 "/opt/headless-chromium"; utf8 "/opt/chrome/chromedriver"].

End Scenes.

(** * Proofs *)

Section Proofs.
Context {W Drv Elem : Type}.
Context {RT : PyRuntime} {C : Collab W Drv Elem}.

#[local] Abbreviation M := (M W Drv Elem).
#[local] Abbreviation St := (St W Drv Elem).

#[local] Arguments utf8 : simpl never.
#[local] Arguments str_of_N : simpl never.
#[local] Arguments str_of_Z : simpl never.
#[local] Arguments page_href : simpl never.

(** ** Strings *)

Lemma str_eqb_eq a b : str_eqb a b = true <-> a = b.
Proof.
  unfold str_eqb. destruct (list_eq_dec N.eq_dec a b); split; congruence.
Qed.

Lemma find_exact_found target data item :
  find_exact target data = Some item -> In item data /\ session item = target.
Proof.
  intros H. apply find_some in H. destruct H as [Hin He].
  split; [exact Hin | now apply str_eqb_eq].
Qed.

(** ** The monad *)

Lemma run_bind {A B} (m : M A) (f : A -> M B) s :
  bind m f s = match m s with
               | (Ok a, s1) => f a s1
               | (Raise e, s1) => (Raise e, s1)
               end.
Proof. reflexivity. Qed.

Lemma bind_ok {A B} (m : M A) (f : A -> M B) s a s1 :
  m s = (Ok a, s1) -> bind m f s = f a s1.
Proof. intros H. unfold bind. now rewrite H. Qed.

Lemma bind_raise {A B} (m : M A) (f : A -> M B) s e s1 :
  m s = (Raise e, s1) -> bind m f s = (Raise e, s1).
Proof. intros H. unfold bind. now rewrite H. Qed.

Lemma try_except_ok {A} (m : M A) h s a s1 :
  m s = (Ok a, s1) -> try_except m h s = (Ok a, s1).
Proof. intros H. unfold try_except. now rewrite H. Qed.

Lemma try_except_raise {A} (m : M A) h s e s1 :
  m s = (Raise e, s1) -> try_except m h s = h e s1.
Proof. intros H. unfold try_except. now rewrite H. Qed.

Lemma try_except_of_caught {A} cs (m : M A) h s e s1 :
  m s = (Raise e, s1) -> caught_by cs e = true ->
  try_except_of cs m h s = h e s1.
Proof.
  intros H Hc. unfold try_except_of, try_except. now rewrite H, Hc.
Qed.

(** ** Quiet steps *)

Lemma quiet_refl (s : St) : quiet s s.
Proof. repeat split. Qed.

Lemma quiet_trans (s1 s2 s3 : St) : quiet s1 s2 -> quiet s2 s3 -> quiet s1 s3.
Proof.
  unfold quiet. intros (a1 & b1 & c1 & d1) (a2 & b2 & c2 & d2).
  repeat split; congruence.
Qed.

Lemma quiet_world (s : St) w : quiet s (set_world s w).
Proof. repeat split. Qed.

Lemma quiet_log (s : St) l : quiet s (add_log s l).
Proof. repeat split. Qed.

Lemma session_events_snoc (tr : list (event Drv Elem)) ev :
  session_events (tr ++ [ev])
  = session_events tr ++ (if is_session_event ev then [ev] else []).
Proof. unfold session_events. rewrite filter_app. reflexivity. Qed.

Lemma quiet_event (s : St) ev :
  is_session_event ev = false -> quiet s (add_event s ev).
Proof.
  intros H. repeat split. simpl. rewrite session_events_snoc, H.
  apply app_nil_r.
Qed.

Lemma quietly_ret {A} (a : A) : quietly (ret a : M A).
Proof. intros s. apply quiet_refl. Qed.

Lemma quietly_raise {A} e : quietly (raise e : M A).
Proof. intros s. apply quiet_refl. Qed.

Lemma quietly_log l : quietly (log l : M unit).
Proof. intros s. apply quiet_log. Qed.

Lemma quietly_emit ev :
  is_session_event ev = false -> quietly (emit ev : M unit).
Proof. intros H s. now apply quiet_event. Qed.

Lemma quietly_call {A} (f : W -> result A * W) : quietly (call f : M A).
Proof.
  intros s. unfold call. destruct (f (world s)). apply quiet_world.
Qed.

Lemma quietly_call_total {A} (f : W -> A * W) : quietly (call_total f : M A).
Proof.
  intros s. unfold call_total. destruct (f (world s)). apply quiet_world.
Qed.

Lemma quietly_act f : quietly (act f : M unit).
Proof. intros s. apply quiet_world. Qed.

Lemma quietly_the_driver : quietly (the_driver : M Drv).
Proof.
  intros s. unfold the_driver. destruct (self_driver s); apply quiet_refl.
Qed.

Lemma quietly_bind {A B} (m : M A) (f : A -> M B) :
  quietly m -> (forall a, quietly (f a)) -> quietly (bind m f).
Proof.
  intros Hm Hf s. specialize (Hm s). unfold bind.
  destruct (m s) as [[a | e] s1]; simpl in *; auto.
  eapply quiet_trans; [exact Hm | apply Hf].
Qed.

Lemma quietly_try_except {A} (m : M A) h :
  quietly m -> (forall e, quietly (h e)) -> quietly (try_except m h).
Proof.
  intros Hm Hh s. specialize (Hm s). unfold try_except.
  destruct (m s) as [[a | e] s1]; simpl in *; auto.
  eapply quiet_trans; [exact Hm | apply Hh].
Qed.

Lemma quietly_try_except_of {A} cs (m : M A) h :
  quietly m -> (forall e, quietly (h e)) -> quietly (try_except_of cs m h).
Proof.
  intros Hm Hh. apply quietly_try_except; auto.
  intros e. destruct (caught_by cs e); auto using quietly_raise.
Qed.

Lemma safe_quietly {A} (m : M A) : safe m -> quietly m.
Proof. intros H s. apply H. Qed.

Lemma safe_ret {A} (a : A) : safe (ret a : M A).
Proof. intros s. split; [now exists a | apply quiet_refl]. Qed.

Lemma safe_log l : safe (log l : M unit).
Proof. intros s. split; [now exists tt | apply quiet_log]. Qed.

Lemma safe_act f : safe (act f : M unit).
Proof. intros s. split; [now exists tt | apply quiet_world]. Qed.

Lemma safe_call_total {A} (f : W -> A * W) : safe (call_total f : M A).
Proof.
  intros s. unfold call_total. destruct (f (world s)) as [a w].
  split; [now exists a | apply quiet_world].
Qed.

Lemma safe_bind {A B} (m : M A) (f : A -> M B) :
  safe m -> (forall a, safe (f a)) -> safe (bind m f).
Proof.
  intros Hm Hf s. destruct (Hm s) as [[a Ha] Hq]. unfold bind.
  destruct (m s) as [[a' | e] s1]; simpl in *; [| discriminate].
  destruct (Hf a' s1) as [Hv Hq']. split; [exact Hv |].
  eapply quiet_trans; eauto.
Qed.

Lemma safe_try_except {A} (m : M A) h :
  quietly m -> (forall e, safe (h e)) -> safe (try_except m h).
Proof.
  intros Hm Hh s. specialize (Hm s). unfold try_except.
  destruct (m s) as [[a | e] s1]; simpl in *.
  - split; [now exists a | exact Hm].
  - destruct (Hh e s1) as [Hv Hq]. split; [exact Hv |].
    eapply quiet_trans; eauto.
Qed.

Lemma safe_run {A} (m : M A) s :
  safe m -> exists a s', m s = (Ok a, s') /\ quiet s s'.
Proof.
  intros H. destruct (H s) as [[a Ha] Hq].
  destruct (m s) as [r s'] eqn:E. simpl in *. subst. now exists a, s'.
Qed.


Ltac crawl_step :=
  match goal with
  | |- quietly (bind _ _) => apply quietly_bind; [| intros ?]
  | |- quietly (try_except_of _ _ _) => apply quietly_try_except_of; [| intros ?]
  | |- quietly (try_except _ _) => apply quietly_try_except; [| intros ?]
  | |- quietly (ret _) => apply quietly_ret
  | |- quietly (raise _) => apply quietly_raise
  | |- quietly (log _) => apply quietly_log
  | |- quietly (emit _) => apply quietly_emit; reflexivity
  | |- quietly (call _) => apply quietly_call
  | |- quietly (call_total _) => apply quietly_call_total
  | |- quietly (act _) => apply quietly_act
  | |- quietly the_driver => apply quietly_the_driver
  | |- safe (bind _ _) => apply safe_bind; [| intros ?]
  | |- safe (try_except _ _) => apply safe_try_except; [| intros ?]
  | |- safe (ret _) => apply safe_ret
  | |- safe (log _) => apply safe_log
  | |- safe (act _) => apply safe_act
  | |- safe (call_total _) => apply safe_call_total
  | |- quietly (match ?x with _ => _ end) => destruct x
  | |- safe (match ?x with _ => _ end) => destruct x
  | |- quietly ?m => assumption || (apply safe_quietly; assumption)
  | |- safe ?m => assumption
  end.

Create HintDb crawl.
#[local] Hint Resolve safe_quietly : crawl.

Ltac crawl := repeat (crawl_step || solve [auto with crawl]).

Lemma quietly_drv_call {A} (f : Drv -> W -> result A * W) : quietly (drv_call f : M A).
Proof. unfold drv_call. crawl. Qed.
#[local] Hint Resolve quietly_drv_call : crawl.

Lemma quietly_driver_get url : quietly (driver_get url).
Proof. unfold driver_get. crawl. Qed.

Lemma quietly_run_script sc : quietly (run_script sc).
Proof. unfold run_script. crawl. Qed.
#[local] Hint Resolve quietly_driver_get quietly_run_script : crawl.

(** ** go_to_last_page never raises *)

Lemma quietly_nav_attempt1 : quietly nav_attempt1.
Proof. unfold nav_attempt1. crawl. Qed.

Lemma quietly_find_last_button links : quietly (find_last_button links).
Proof. induction links as [| link rest IH]; simpl; crawl. Qed.
#[local] Hint Resolve quietly_nav_attempt1 quietly_find_last_button : crawl.

Lemma safe_nav_attempt2 : safe nav_attempt2.
Proof. unfold nav_attempt2. crawl. Qed.

Lemma quietly_highest_page_loop links h : quietly (highest_page_loop links h).
Proof.
  revert h. induction links as [| link rest IH]; intros h; simpl; crawl.
Qed.
#[local] Hint Resolve safe_nav_attempt2 quietly_highest_page_loop : crawl.

Lemma safe_nav_attempt3 : safe nav_attempt3.
Proof. unfold nav_attempt3. crawl. Qed.
#[local] Hint Resolve safe_nav_attempt3 : crawl.

Lemma safe_go_to_last_page : safe go_to_last_page.
Proof. unfold go_to_last_page. crawl. Qed.
#[local] Hint Resolve safe_go_to_last_page : crawl.

(** ** extract_exchange_data never raises *)

Lemma quietly_select_rows sels rows : quietly (select_rows sels rows).
Proof.
  revert rows. induction sels as [| sel rest IH]; intros rows; simpl; crawl.
Qed.

Lemma quietly_cell_at (cells : list Elem) i : quietly (cell_at cells i : M Elem).
Proof. unfold cell_at. crawl. Qed.
#[local] Hint Resolve quietly_select_rows quietly_cell_at : crawl.

Lemma quietly_rate_loop cells idxs : quietly (rate_loop cells idxs).
Proof. induction idxs as [| i rest IH]; simpl; crawl. Qed.

Lemma safe_build_record a b : safe (build_record a b).
Proof. unfold build_record. crawl. Qed.
#[local] Hint Resolve quietly_rate_loop safe_build_record : crawl.

Lemma quietly_extract_row row : quietly (extract_row row).
Proof. unfold extract_row. crawl. Qed.
#[local] Hint Resolve quietly_extract_row : crawl.

Lemma quietly_row_loop idx rows data : quietly (row_loop idx rows data).
Proof.
  revert idx data.
  induction rows as [| row rest IH]; intros idx data; simpl; crawl.
Qed.
#[local] Hint Resolve quietly_row_loop : crawl.

Lemma safe_extract_exchange_data : safe extract_exchange_data.
Proof. unfold extract_exchange_data. crawl. Qed.
#[local] Hint Resolve safe_extract_exchange_data : crawl.

(** ** The retry pass and the choice never raise *)

Lemma safe_probe_buttons idxs : safe (probe_buttons idxs).
Proof. induction idxs as [| i rest IH]; simpl; crawl. Qed.
#[local] Hint Resolve safe_probe_buttons : crawl.

Lemma safe_search_retry target : safe (search_retry target).
Proof. unfold search_retry. crawl. Qed.

Lemma safe_number_loop data acc :
  safe (number_loop data acc : M (list (Z * Record_))).
Proof.
  revert acc. induction data as [| item rest IH]; intros acc; simpl; crawl.
Qed.
#[local] Hint Resolve safe_search_retry safe_number_loop : crawl.

Lemma safe_choose target data : safe (choose target data : M (option Record_)).
Proof. unfold choose. crawl. Qed.
#[local] Hint Resolve safe_choose : crawl.

Lemma quietly_s3_put b k body ct : quietly (s3_put b k body ct).
Proof. unfold s3_put. crawl. Qed.
#[local] Hint Resolve quietly_s3_put : crawl.

Lemma safe_save_to_s3 data bucket file : safe (save_to_s3 data bucket file).
Proof. unfold save_to_s3. crawl. Qed.
#[local] Hint Resolve safe_save_to_s3 : crawl.


(** ** Values returned *)

Lemma yields_ret {A} (a : A) (Q : A -> Prop) : Q a -> yields (ret a : M A) Q.
Proof. intros H s a' s' E. inversion E. now subst. Qed.

Lemma yields_raise {A} e (Q : A -> Prop) : yields (raise e : M A) Q.
Proof. intros s a' s' E. discriminate. Qed.

Lemma yields_bind {A B} (m : M A) (f : A -> M B) (P : A -> Prop) Q :
  yields m P -> (forall a, P a -> yields (f a) Q) -> yields (bind m f) Q.
Proof.
  intros Hm Hf s b s' E. unfold bind in E.
  destruct (m s) as [[a | e] s1] eqn:Em; [| discriminate].
  eapply Hf; eauto.
Qed.

Lemma yields_any {A} (m : M A) : yields m (fun _ => True).
Proof. intros s a s' _. exact I. Qed.

Lemma yields_try_except {A} (m : M A) h Q :
  yields m Q -> (forall e, yields (h e) Q) -> yields (try_except m h) Q.
Proof.
  intros Hm Hh s a s' E. unfold try_except in E.
  destruct (m s) as [[a' | e] s1] eqn:Em.
  - inversion E; subst. eauto.
  - eapply Hh; eauto.
Qed.

Lemma yields_try_except_of {A} cs (m : M A) h Q :
  yields m Q -> (forall e, yields (h e) Q) -> yields (try_except_of cs m h) Q.
Proof.
  intros Hm Hh. apply yields_try_except; auto.
  intros e. destruct (caught_by cs e); auto using yields_raise.
Qed.

(** ** Records built by the extraction *)

Lemma truthy_nonempty (s : pystr) : truthy s = true -> s <> [].
Proof. destruct s; [discriminate | discriminate]. Qed.

Lemma rate_loop_digit (cells : list Elem) idxs :
  yields (rate_loop cells idxs) (fun r => r = [] \/ any_isdigit r = true).
Proof.
  induction idxs as [| i rest IH]; simpl.
  - apply yields_ret. now left.
  - eapply yields_bind with
      (P := fun o => forall t, o = Some t -> any_isdigit t = true).
    + apply yields_try_except_of.
      * eapply yields_bind; [apply yields_any | intros c _].
        eapply yields_bind; [apply yields_any | intros t _].
        destruct (any_isdigit (strip t)) eqn:D; apply yields_ret.
        -- intros t' Ht. now inversion Ht; subst.
        -- discriminate.
      * intros e. apply yields_ret. discriminate.
    + intros [t |] Ht.
      * apply yields_ret. right. now apply Ht.
      * exact IH.
Qed.

Lemma build_record_valid session_ rate_ :
  (rate_ = [] \/ any_isdigit rate_ = true) ->
  yields (build_record session_ rate_)
         (fun o => forall r, o = Some r -> valid_record r).
Proof.
  intros Hr. unfold build_record.
  destruct (truthy session_) eqn:Ts; simpl;
    [destruct (truthy rate_) eqn:Tr; simpl |].
  - eapply yields_bind; [apply yields_any | intros ts _].
    eapply yields_bind; [apply yields_any | intros _ _].
    apply yields_ret. intros r Hr'. inversion Hr'; subst. unfold valid_record.
    simpl. repeat split; try now apply truthy_nonempty.
    destruct Hr as [-> | H]; [discriminate | exact H].
  - apply yields_ret. discriminate.
  - apply yields_ret. discriminate.
Qed.

Lemma build_record_rejects session_ rate_ (s : St) :
  truthy session_ && truthy rate_ = false ->
  build_record session_ rate_ s = (Ok None, s).
Proof. intros H. unfold build_record. now rewrite H. Qed.

Lemma extract_row_valid row :
  yields (extract_row row) (fun o => forall r, o = Some r -> valid_record r).
Proof.
  unfold extract_row.
  eapply yields_bind; [apply yields_any | intros tds _].
  eapply yields_bind; [apply yields_any | intros cells _].
  destruct (2 <=? List.length cells).
  - eapply yields_bind; [apply yields_any | intros c0 _].
    eapply yields_bind; [apply yields_any | intros t _].
    eapply yields_bind; [apply rate_loop_digit | intros rate_ Hrate].
    now apply build_record_valid.
  - apply yields_ret. discriminate.
Qed.

Lemma row_loop_valid idx rows data :
  Forall valid_record data ->
  yields (row_loop idx rows data) (Forall valid_record).
Proof.
  revert idx data.
  induction rows as [| row rest IH]; intros idx data Hd; simpl.
  - now apply yields_ret.
  - eapply yields_bind with
      (P := fun o => forall r, o = Some r -> valid_record r).
    + apply yields_try_except_of; [apply extract_row_valid |].
      intros e. eapply yields_bind; [apply yields_any | intros _ _].
      apply yields_ret. discriminate.
    + intros [item |] Hitem; apply IH; [| exact Hd].
      apply Forall_app. split; [exact Hd |].
      constructor; [now apply Hitem | constructor].
Qed.

Lemma extract_valid : yields extract_exchange_data (Forall valid_record).
Proof.
  unfold extract_exchange_data. apply yields_try_except.
  - eapply yields_bind; [apply yields_any | intros _ _].
    eapply yields_bind; [apply yields_any | intros rows _].
    eapply yields_bind; [apply yields_any | intros rows' _].
    eapply yields_bind; [apply yields_any | intros _ _].
    apply row_loop_valid. constructor.
  - intros e. eapply yields_bind; [apply yields_any | intros _ _].
    apply yields_ret. constructor.
Qed.

(** C5. Every record the extraction returns has a non-empty round label and
    a non-empty rate containing a digit; a pair of fields that fails the
    check is dropped without an error and without touching the state. *)
Theorem extracted_records_valid (s : St) data s' :
  extract_exchange_data s = (Ok data, s') ->
  Forall valid_record data
  /\ (forall session_ rate_ (s0 : St),
        truthy session_ && truthy rate_ = false ->
        build_record session_ rate_ s0 = (Ok None, s0))
  /\ (forall (cells : list Elem) idxs (s0 : St) rate_ s1,
        rate_loop cells idxs s0 = (Ok rate_, s1) ->
        rate_ = [] \/ any_isdigit rate_ = true).
Proof.
  intros E. split; [| split].
  - eapply extract_valid; eauto.
  - intros. now apply build_record_rejects.
  - intros cells idxs s0 rate_ s1 H. eapply rate_loop_digit; eauto.
Qed.

(** ** Extraction is total and row failures are local *)

Lemma extract_row_few_cells row (s : St) tds w1 ths w2 :
  elem_find_elements row TagTd (world s) = (Ok tds, w1) ->
  List.length tds < 2 ->
  elem_find_elements row TagTh w1 = (Ok ths, w2) ->
  List.length ths < 2 ->
  extract_row row s = (Ok None, set_world s w2).
Proof.
  intros Htd Hl1 Hth Hl2. unfold extract_row, bind, call. rewrite Htd.
  apply Nat.ltb_lt in Hl1. rewrite Hl1. simpl. rewrite Hth.
  destruct ths as [| c0 [| c1 ths]]; simpl in Hl2; [reflexivity .. | lia].
Qed.

Lemma row_loop_skips idx row rest data (s : St) e s1 :
  extract_row row s = (Raise e, s1) ->
  caught_by ROW_ERRORS e = true ->
  row_loop idx (row :: rest) data s
  = row_loop (S idx) rest data (add_log s1 (LRowError idx e)).
Proof.
  intros Hrow Hc. simpl. unfold bind at 1, try_except_of, try_except.
  now rewrite Hrow, Hc.
Qed.

Lemma row_loop_keeps idx row rest data (s : St) o s1 :
  extract_row row s = (Ok o, s1) ->
  row_loop idx (row :: rest) data s
  = row_loop (S idx) rest
             (match o with Some item => data ++ [item] | None => data end) s1.
Proof.
  intros Hrow. simpl. unfold bind at 1, try_except_of, try_except.
  now rewrite Hrow.
Qed.

(** C6. The extraction returns a list from every state; a row with fewer
    than two td cells and fewer than two th cells gives no record; a row
    whose reading raises NoSuchElement or StaleElementReference is logged
    and the loop goes on with the next row and the records gathered so far;
    a row that is read adds its record, if any, and the loop goes on. *)
Theorem extract_total_row_local (s : St) :
  (exists data s', extract_exchange_data s = (Ok data, s'))
  /\ (forall row tds w1 ths w2,
        elem_find_elements row TagTd (world s) = (Ok tds, w1) ->
        List.length tds < 2 ->
        elem_find_elements row TagTh w1 = (Ok ths, w2) ->
        List.length ths < 2 ->
        extract_row row s = (Ok None, set_world s w2))
  /\ (forall idx row rest data e s1,
        extract_row row s = (Raise e, s1) ->
        caught_by ROW_ERRORS e = true ->
        row_loop idx (row :: rest) data s
        = row_loop (S idx) rest data (add_log s1 (LRowError idx e)))
  /\ (forall idx row rest data o s1,
        extract_row row s = (Ok o, s1) ->
        row_loop idx (row :: rest) data s
        = row_loop (S idx) rest
            (match o with Some item => data ++ [item] | None => data end) s1).
Proof.
  split; [| split; [| split]].
  - destruct (safe_run s safe_extract_exchange_data) as (data & s' & E & _).
    now exists data, s'.
  - intros. eapply extract_row_few_cells; eauto.
  - intros. now apply row_loop_skips.
  - intros. now apply row_loop_keeps.
Qed.

(** ** The numeric-estimate jump *)

Lemma highest_of_ge l h : (h <= highest_of l h)%Z.
Proof.
  revert h. induction l as [| x l IH]; intros h; simpl; [lia |].
  specialize (IH (Z.max h x)). lia.
Qed.

Lemma highest_of_upper l h n : In n l -> (n <= highest_of l h)%Z.
Proof.
  revert h. induction l as [| x l IH]; intros h Hin; simpl in *;
    [contradiction |].
  destruct Hin as [E | Hin].
  - subst. pose proof (highest_of_ge l (Z.max h n)). lia.
  - now apply IH.
Qed.

Lemma highest_of_attained l h : highest_of l h = h \/ In (highest_of l h) l.
Proof.
  revert h. induction l as [| x l IH]; intros h; simpl; [now left |].
  destruct (IH (Z.max h x)) as [E | Hin]; [| now right; right].
  rewrite E. destruct (Z.max_spec h x) as [[_ ->] | [_ ->]]; auto.
Qed.

Lemma set_world_same (s : St) : set_world s (world s) = s.
Proof. now destruct s. Qed.

Lemma highest_page_loop_reads links : forall h (s : St) texts w2,
  read_texts links (world s) = (Ok texts, w2) ->
  highest_page_loop links h s
  = (Ok (highest_of (numeric_labels texts) h), set_world s w2).
Proof.
  induction links as [| link rest IH]; intros h s texts w2 H; simpl in *.
  - inversion H; subst. simpl. now rewrite set_world_same.
  - destruct (elem_text link (world s)) as [[t | e] w1] eqn:Et; [| discriminate].
    destruct (read_texts rest w1) as [[ts | e] w3] eqn:Er; [| discriminate].
    inversion H; subst. unfold bind at 1, try_except_of, try_except.
    unfold bind at 1, call. rewrite Et. unfold numeric_labels. simpl.
    fold (numeric_labels ts).
    destruct (py_int (strip t)) as [n |]; simpl.
    + rewrite (IH _ (set_world s w1) ts w2 Er). simpl.
      replace (if (h <? n)%Z then n else h) with (Z.max h n); [reflexivity |].
      destruct (Z.ltb_spec h n); lia.
    + rewrite (IH _ (set_world s w1) ts w2 Er). reflexivity.
Qed.

Lemma nav_attempt3_jumps (s : St) d links w1 texts w2 :
  self_driver s = Some d ->
  find_elements d XPageNumberLinks (world s) = (Ok links, w1) ->
  read_texts links w1 = (Ok texts, w2) ->
  (0 < highest_of (numeric_labels texts) 0)%Z ->
  let jump :=
    ScriptSetHref (page_href (highest_of (numeric_labels texts) 0 + 10)) in
  exists b s',
    nav_attempt3 s = (Ok b, s')
    /\ trace s' = trace s ++ [EvScript d jump]
    /\ (b = true <-> exists w3, execute_script d jump w2 = (Ok tt, w3)).
Proof.
  intros Hd Hf Hr Hpos jump.
  unfold nav_attempt3, try_except, bind at 1, drv_call, bind at 1, the_driver.
  rewrite Hd. unfold call. rewrite Hf. unfold bind at 1.
  rewrite (highest_page_loop_reads links 0%Z (set_world s w1) Hr).
  apply Z.ltb_lt in Hpos. rewrite Hpos.
  unfold bind, log, run_script, bind, the_driver, emit, call, act. simpl.
  rewrite Hd. simpl. fold jump.
  destruct (execute_script d jump w2) as [[[] | e] w3] eqn:Ex; simpl.
  - eexists _, _. split; [reflexivity |]. split; [reflexivity |].
    split; [intros _; now exists w3 | reflexivity].
  - eexists _, _. split; [reflexivity |]. split; [reflexivity |].
    split; [discriminate | intros [w4 H4]; discriminate].
Qed.

Lemma go_to_last_page_all_fail (s : St) el s0 s1 s2 s3 :
  drv_call (fun d => wait_present d TagBody 10) s = (Ok el, s0) ->
  nav_attempt1 s0 = (Ok false, s1) ->
  nav_attempt2 s1 = (Ok false, s2) ->
  nav_attempt3 s2 = (Ok false, s3) ->
  go_to_last_page s = (Ok false, s3).
Proof.
  intros H0 H1 H2 H3. unfold go_to_last_page, try_except, bind.
  now rewrite H0, H1, H2, H3.
Qed.

Lemma stays_on_current_page (s s1 : St) :
  go_to_last_page s = (Ok false, s1) ->
  navigate_and_extract s = extract_exchange_data (add_log s1 LNavFailed).
Proof. intros H. unfold navigate_and_extract, bind. now rewrite H. Qed.

(** C8. [go_to_last_page] returns a boolean from every state.  In its
    third attempt, when the texts of the one- or two-character pagination
    anchors are read and the largest number among them is positive, that
    number is the maximum numeric label, and the attempt runs the script
    that sets the location to the base URL with page = maximum + 10,
    answering true when the script ran.  When the three attempts answer
    false the navigator answers false, and the caller then extracts from
    the page that is loaded. *)
Theorem numeric_estimate_jump (s : St) :
  (exists b s', go_to_last_page s = (Ok b, s'))
  /\ (forall d links w1 texts w2,
        self_driver s = Some d ->
        find_elements d XPageNumberLinks (world s) = (Ok links, w1) ->
        read_texts links w1 = (Ok texts, w2) ->
        (0 < highest_of (numeric_labels texts) 0)%Z ->
        let highest := highest_of (numeric_labels texts) 0 in
        let jump := ScriptSetHref (page_href (highest + 10)) in
        In highest (numeric_labels texts)
        /\ (forall n, In n (numeric_labels texts) -> (n <= highest)%Z)
        /\ exists b s',
            nav_attempt3 s = (Ok b, s')
            /\ trace s' = trace s ++ [EvScript d jump]
            /\ (b = true <-> exists w3, execute_script d jump w2 = (Ok tt, w3)))
  /\ (forall el s0 s1 s2 s3,
        drv_call (fun d => wait_present d TagBody 10) s = (Ok el, s0) ->
        nav_attempt1 s0 = (Ok false, s1) ->
        nav_attempt2 s1 = (Ok false, s2) ->
        nav_attempt3 s2 = (Ok false, s3) ->
        go_to_last_page s = (Ok false, s3))
  /\ (forall s1,
        go_to_last_page s = (Ok false, s1) ->
        navigate_and_extract s = extract_exchange_data (add_log s1 LNavFailed)).
Proof.
  split; [| split; [| split]].
  - destruct (safe_run s safe_go_to_last_page) as (b & s' & E & _).
    now exists b, s'.
  - intros d links w1 texts w2 Hd Hf Hr Hpos highest jump.
    split; [| split].
    + clear jump. subst highest.
      destruct (highest_of_attained (numeric_labels texts) 0) as [E | Hin];
        [| exact Hin].
      rewrite E in Hpos. discriminate.
    + intros n Hn. now apply highest_of_upper.
    + exact (@nav_attempt3_jumps s d links w1 texts w2 Hd Hf Hr Hpos).
  - intros. eapply go_to_last_page_all_fail; eauto.
  - intros. now apply stays_on_current_page.
Qed.

(** ** The bulk serialization *)

Lemma join_snoc sep parts p :
  parts <> [] -> join sep (parts ++ [p]) = join sep parts ++ sep ++ p.
Proof.
  induction parts as [| q parts IH]; intros Hne; [congruence |].
  destruct parts as [| q' parts]; [reflexivity |].
  change (join sep ((q :: q' :: parts) ++ [p]))
    with (q ++ sep ++ join sep ((q' :: parts) ++ [p])).
  rewrite IH by discriminate.
  change (join sep (q :: q' :: parts)) with (q ++ sep ++ join sep (q' :: parts)).
  now rewrite <- !app_assoc.
Qed.

Lemma count_occ_app_N (a b : pystr) c :
  count_occ N.eq_dec (a ++ b) c = count_occ N.eq_dec a c + count_occ N.eq_dec b c.
Proof. apply count_occ_app. Qed.

Lemma save_to_s3_puts_csv r rs bucket file (s : St) :
  trace (snd (save_to_s3 (PList (r :: rs)) bucket file s))
  = trace s ++ [EvPut bucket file (CsvBody (csv_content (r :: rs))) TextCsv].
Proof.
  unfold save_to_s3, try_except, bind, s3_put, bind, emit, call. simpl.
  destruct (put_object bucket file _ TextCsv (world s)) as [[[] | e] w];
    reflexivity.
Qed.

(** C9. For a non-empty list of records the CSV text is the header line
    followed by the rows joined by single newlines; a row is the three
    fields joined by commas, character for character (an embedded comma
    stays as it is); appending a record appends a newline and its row, so
    the text ends with the last row; this text is the body handed to the
    store. *)
Theorem bulk_export_serialization (data : list Record_) :
  data <> [] ->
  csv_content data
  = utf8 "고시회차,현재가 환율,수집일시" ++ [10%N] ++ join [10%N] (List.map csv_row data)
  /\ (forall r, csv_content (data ++ [r]) = csv_content data ++ [10%N] ++ csv_row r)
  /\ (forall r, In r data ->
        csv_row r = session r ++ [44%N] ++ rate r ++ [44%N] ++ collected r
        /\ count_occ N.eq_dec (csv_row r) 44%N
           = 2 + count_occ N.eq_dec (session r) 44%N
             + count_occ N.eq_dec (rate r) 44%N
             + count_occ N.eq_dec (collected r) 44%N)
  /\ (forall bucket file (s : St),
        trace (snd (save_to_s3 (PList data) bucket file s))
        = trace s ++ [EvPut bucket file (CsvBody (csv_content data)) TextCsv]).
Proof.
  intros Hne. split; [| split; [| split]].
  - unfold csv_content, CSV_HEADER, NL. symmetry. apply app_assoc.
  - intros r. unfold csv_content. rewrite map_app.
    change (List.map csv_row [r]) with [csv_row r].
    rewrite join_snoc.
    + unfold NL. now rewrite app_assoc.
    + destruct data; [congruence | discriminate].
  - intros r _. split; [reflexivity |].
    unfold csv_row, COMMA. rewrite !count_occ_app_N.
    change (count_occ N.eq_dec (utf8 ",") 44%N) with 1. lia.
  - intros bucket file s. destruct data as [| r rs]; [congruence |].
    apply save_to_s3_puts_csv.
Qed.

(** ** The session is created at most once and released once *)

Lemma opened_quiet (s s1 s2 : St) : opened s s1 -> quiet s1 s2 -> opened s s2.
Proof.
  intros [[Hd He] | (d & Hd & He)] (Qd & _ & _ & Qe).
  - left. split; congruence.
  - right. exists d. split; congruence.
Qed.

Lemma opened_created (s s1 : St) d :
  self_driver s1 = Some d -> trace s1 = trace s ++ [EvSession d] ->
  opened s s1.
Proof.
  intros Hd Ht. right. exists d. split; [exact Hd |].
  rewrite Ht. apply session_events_snoc.
Qed.

Lemma opened_untouched (s s1 : St) :
  self_driver s1 = None -> trace s1 = trace s -> opened s s1.
Proof. intros Hd Ht. left. split; [exact Hd | now rewrite Ht]. Qed.

Lemma opening_setup_driver : opening setup_driver.
Proof.
  intros s Hnone.
  unfold setup_driver, try_except, new_chrome, bind, log, raise.
  destruct (path_truthy (driver_path s)) as [p |]; unfold bind, new_chrome, log;
    destruct (chrome _ (path_truthy (chrome_path s)) (world s))
      as [[d | e] w] eqn:E1; cbn;
    try (eapply opened_created; reflexivity).
  all: destruct (chrome None (path_truthy (chrome_path s)) w)
      as [[d2 | e2] w'] eqn:E2; cbn.
  all: try (eapply opened_created; reflexivity).
  all: apply opened_untouched; [exact Hnone | reflexivity].
Qed.

Lemma setup_driver_raises (s : St) e s1 :
  setup_driver s = (Raise e, s1) ->
  self_driver s1 = self_driver s /\ trace s1 = trace s.
Proof.
  unfold setup_driver, try_except, new_chrome, bind, log, raise.
  destruct (path_truthy (driver_path s)) as [p |]; unfold bind, new_chrome, log;
    destruct (chrome _ (path_truthy (chrome_path s)) (world s))
      as [[d | e1] w] eqn:E1; cbn; try discriminate.
  all: destruct (chrome None (path_truthy (chrome_path s)) w)
      as [[d2 | e2] w'] eqn:E2; cbn; try discriminate.
  all: intros H; inversion H; subst; split; reflexivity.
Qed.

Lemma opening_bind {A B} (m : M A) (f : A -> M B) :
  opening m -> (forall a, quietly (f a)) -> opening (bind m f).
Proof.
  intros Hm Hf s Hnone. specialize (Hm s Hnone). unfold bind.
  destruct (m s) as [[a | e] s1]; simpl in *; [| exact Hm].
  eapply opened_quiet; [exact Hm | apply Hf].
Qed.

Lemma opening_try_except {A} (m : M A) h :
  opening m -> (forall e, quietly (h e)) -> opening (try_except m h).
Proof.
  intros Hm Hh s Hnone. specialize (Hm s Hnone). unfold try_except.
  destruct (m s) as [[a | e] s1]; simpl in *; [exact Hm |].
  eapply opened_quiet; [exact Hm | apply Hh].
Qed.

Lemma release_none (s : St) :
  self_driver s = None -> release_driver s = (Ok tt, s).
Proof. intros H. unfold release_driver. now rewrite H. Qed.

Lemma release_some (s : St) d :
  self_driver s = Some d ->
  release_driver s
  = (Ok tt, add_log (set_world (add_event s (EvQuit d))
                               (drv_quit d (world s))) LQuit).
Proof. intros H. unfold release_driver. now rewrite H. Qed.

Lemma released_after_opening {A} (m : M A) :
  opening m ->
  forall s, self_driver s = None ->
            released_once s (snd (try_finally m release_driver s)).
Proof.
  intros Hm s Hnone. specialize (Hm s Hnone). unfold try_finally.
  destruct (m s) as [r s1]; simpl in Hm.
  destruct Hm as [[Hd He] | (d & Hd & He)].
  - rewrite (release_none _ Hd). left. exact He.
  - rewrite (release_some _ Hd). right. exists d.
    cbn [snd trace add_log set_world add_event].
    rewrite session_events_snoc, He.
    cbn [is_session_event]. now rewrite <- app_assoc.
Qed.

Lemma quietly_navigate_and_extract : quietly navigate_and_extract.
Proof. unfold navigate_and_extract. crawl. Qed.
#[local] Hint Resolve quietly_navigate_and_extract : crawl.

Lemma opening_search_first : opening search_first.
Proof.
  unfold search_first. apply opening_bind; [apply opening_setup_driver |].
  intros _. crawl.
Qed.

Lemma opening_search_body target : opening (search_body target).
Proof.
  unfold search_body. apply opening_bind; [apply opening_search_first |].
  intros data. crawl.
Qed.

Lemma bracketing_finally {A} (m : M A) :
  opening m -> bracketing (try_finally m release_driver).
Proof. intros Hm s Hnone. now apply released_after_opening. Qed.

Lemma find_releases_once target : bracketing (find_specific_session target).
Proof.
  apply bracketing_finally. apply opening_try_except.
  - apply opening_search_body.
  - intros e. crawl.
Qed.

Lemma get_all_releases_once : bracketing get_all_exchange_rates.
Proof.
  apply bracketing_finally. apply opening_try_except.
  - apply opening_bind; [apply opening_setup_driver |]. intros _. crawl.
  - intros e. crawl.
Qed.

Lemma released_quiet_before (s s1 s2 : St) :
  quiet s s1 -> released_once s1 s2 -> released_once s s2.
Proof.
  intros (_ & _ & _ & Qe) [H | (d & H)]; [left | right; exists d]; congruence.
Qed.

Lemma released_quiet_after (s s1 s2 : St) :
  released_once s s1 -> quiet s1 s2 -> released_once s s2.
Proof.
  intros [H | (d & H)] (_ & _ & _ & Qe); [left | right; exists d]; congruence.
Qed.

Lemma released_refl (s : St) : released_once s s.
Proof. now left. Qed.

Lemma bracketing_quiet {A} (m : M A) : quietly m -> bracketing m.
Proof.
  intros Hm s _. eapply released_quiet_after; [apply released_refl | apply Hm].
Qed.

Lemma bracketing_pre {A B} (m : M A) (f : A -> M B) :
  quietly m -> (forall a, bracketing (f a)) -> bracketing (bind m f).
Proof.
  intros Hm Hf s Hnone. specialize (Hm s). unfold bind.
  destruct (m s) as [[a | e] s1]; cbn [snd] in *.
  - eapply released_quiet_before; [exact Hm |]. apply Hf.
    destruct Hm as (Hd & _). congruence.
  - eapply released_quiet_after; [apply released_refl | exact Hm].
Qed.

Lemma bracketing_post {A B} (m : M A) (f : A -> M B) :
  bracketing m -> (forall a, quietly (f a)) -> bracketing (bind m f).
Proof.
  intros Hm Hf s Hnone. specialize (Hm s Hnone). unfold bind.
  destruct (m s) as [[a | e] s1]; cbn [snd] in *; [| exact Hm].
  eapply released_quiet_after; [exact Hm | apply Hf].
Qed.

Lemma bracketing_try_except {A} (m : M A) h :
  bracketing m -> (forall e, quietly (h e)) -> bracketing (try_except m h).
Proof.
  intros Hm Hh s Hnone. specialize (Hm s Hnone). unfold try_except.
  destruct (m s) as [[a | e] s1]; cbn [snd] in *; [exact Hm |].
  eapply released_quiet_after; [exact Hm | apply Hh].
Qed.

Lemma handle_one_releases_once bucket target rd :
  bracketing (handle_one bucket target rd).
Proof.
  unfold handle_one. apply bracketing_pre; [crawl | intros _].
  apply bracketing_post; [apply find_releases_once | intros found]. crawl.
Qed.

Lemma handle_all_releases_once bucket rd : bracketing (handle_all bucket rd).
Proof.
  unfold handle_all. apply bracketing_pre; [crawl | intros _].
  apply bracketing_post; [apply get_all_releases_once | intros found]. crawl.
Qed.

Lemma crawler_init_fresh (s : St) :
  self_driver (snd (crawler_init s)) = None
  /\ trace (snd (crawler_init s)) = trace s.
Proof.
  unfold crawler_init, bind, assign, call, try_except, log. cbn.
  destruct (check_environment (world s)) as [[[cp dp] | e] w]; cbn;
    [| now split].
  destruct (path_truthy dp) as [p |]; cbn; [| now split].
  unfold bind, call. cbn.
  destruct (copy_driver p w) as [[[] | e] w']; cbn; now split.
Qed.

Lemma released_from (s s2 s3 : St) :
  trace s2 = trace s -> released_once s2 s3 -> released_once s s3.
Proof.
  intros Hs [H | (d & H)]; [left | right; exists d]; congruence.
Qed.

Lemma after_init_releases_once {A} (rest : M A) (s : St) :
  bracketing rest ->
  released_once s (snd (bind crawler_init (fun _ => rest) s)).
Proof.
  intros Hr. destruct (crawler_init_fresh s) as [Hd Ht]. unfold bind.
  destruct (crawler_init s) as [[[] | e] s1]; cbn [snd] in *.
  - eapply released_from; [exact Ht |]. now apply Hr.
  - left. now rewrite Ht.
Qed.

Lemma handler_releases_once event (s : St) :
  released_once s (snd (handler event s)).
Proof.
  unfold handler, try_except.
  match goal with
  | |- context [bind crawler_init (fun _ => ?rest)] =>
      pose proof (@after_init_releases_once _ rest s) as H
  end.
  match type of H with
  | ?P -> _ => assert (HP : P)
  end.
  { apply bracketing_pre; [crawl | intros stamp].
    apply bracketing_post; [| intros rd'; crawl].
    destruct (event_get_all event).
    - apply handle_all_releases_once.
    - apply handle_one_releases_once. }
  specialize (H HP).
  destruct (bind crawler_init _ s) as [[resp | e] s1]; cbn [snd] in *;
    [exact H |].
  eapply released_quiet_after; [exact H |].
  unfold bind, log, ret. cbn [snd]. apply quiet_log.
Qed.

(** C4. From any state, one invocation of the handler, and one call of
    either crawler method on a fresh crawler, leaves the session events
    unchanged (no session was created, nothing is released) or adds
    exactly the creation of one session followed by one release of it,
    whatever was returned or raised in between; the release block does
    nothing when no session is held and quits the held one otherwise. *)
Theorem session_released_once (s : St) :
  (forall event, released_once s (snd (handler event s)))
  /\ (forall target,
        released_once (set_driver s None)
          (snd (find_specific_session target (set_driver s None))))
  /\ released_once (set_driver s None)
       (snd (get_all_exchange_rates (set_driver s None)))
  /\ release_driver (set_driver s None) = (Ok tt, set_driver s None)
  /\ (forall d,
        trace (snd (release_driver (set_driver s (Some d))))
        = trace s ++ [EvQuit d]).
Proof.
  split; [| split; [| split; [| split]]].
  - intros event. apply handler_releases_once.
  - intros target. now apply find_releases_once.
  - now apply get_all_releases_once.
  - now apply release_none.
  - intros d. now rewrite (@release_some (set_driver s (Some d)) d).
Qed.

(** ** The stable sort and its first element *)

Lemma insert_by_key_in x l y :
  In y (insert_by_key x l) <-> y = x \/ In y l.
Proof.
  induction l as [| z l IH]; simpl.
  - intuition.
  - destruct (fst x <=? fst z)%Z; simpl; [intuition |].
    rewrite IH. intuition.
Qed.

Lemma sort_by_key_in l y : In y (sort_by_key l) <-> In y l.
Proof.
  induction l as [| x l IH]; simpl; [reflexivity |].
  rewrite insert_by_key_in, IH. intuition.
Qed.

Lemma insert_by_key_first x l :
  (forall y, In y l -> (fst x <= fst y)%Z) -> insert_by_key x l = x :: l.
Proof.
  intros H. destruct l as [| z l]; [reflexivity |]. simpl.
  assert (fst x <= fst z)%Z as Hle by (apply H; now left).
  apply Z.leb_le in Hle. now rewrite Hle.
Qed.

Lemma sort_by_key_head before n (r : Record_) after :
  (forall x, In x before -> (n < fst x)%Z) ->
  (forall x, In x after -> (n <= fst x)%Z) ->
  exists rest, sort_by_key (before ++ (n, r) :: after) = (n, r) :: rest.
Proof.
  intros Hb Ha. induction before as [| b before IH].
  - exists (sort_by_key after).
    change (sort_by_key ([] ++ (n, r) :: after))
      with (insert_by_key (n, r) (sort_by_key after)).
    apply insert_by_key_first.
    intros y Hy. apply (proj1 (sort_by_key_in after y)) in Hy.
    simpl. now apply Ha.
  - destruct IH as [rest IH].
    { intros x Hx. apply Hb. now right. }
    change (sort_by_key ((b :: before) ++ (n, r) :: after))
      with (insert_by_key b (sort_by_key (before ++ (n, r) :: after))).
    rewrite IH. simpl.
    assert (n < fst b)%Z as Hlt by (apply Hb; now left).
    assert ((fst b <=? n)%Z = false) as -> by (apply Z.leb_gt; exact Hlt).
    now eexists.
Qed.

(** [sort_by_key] is the stable sort: a permutation, ordered by key, that
    keeps the records of equal key in their original order. *)
Lemma insert_by_key_perm x l : Permutation (insert_by_key x l) (x :: l).
Proof.
  induction l as [| y l IH]; simpl; [apply Permutation_refl |].
  destruct (fst x <=? fst y)%Z; [apply Permutation_refl |].
  eapply Permutation_trans; [apply perm_skip, IH | apply perm_swap].
Qed.

Lemma sort_by_key_perm l : Permutation (sort_by_key l) l.
Proof.
  induction l as [| x l IH]; simpl; [apply Permutation_refl |].
  eapply Permutation_trans; [apply insert_by_key_perm | now apply perm_skip].
Qed.

Lemma insert_by_key_sorted x l :
  StronglySorted (fun a b : Z * Record_ => (fst a <= fst b)%Z) l ->
  StronglySorted (fun a b : Z * Record_ => (fst a <= fst b)%Z)
                 (insert_by_key x l).
Proof.
  induction 1 as [| y l Hs IH Hy]; simpl.
  - repeat constructor.
  - destruct (Z.leb_spec (fst x) (fst y)) as [Hle | Hgt].
    + constructor; [now constructor |]. constructor; [exact Hle |].
      eapply Forall_impl; [| exact Hy]. intros z Hz. simpl in *. lia.
    + constructor; [exact IH |]. apply Forall_forall. intros z Hz.
      apply insert_by_key_in in Hz. destruct Hz as [-> | Hz]; [lia |].
      rewrite Forall_forall in Hy. now apply Hy.
Qed.

Lemma sort_by_key_sorted l :
  StronglySorted (fun a b : Z * Record_ => (fst a <= fst b)%Z) (sort_by_key l).
Proof.
  induction l as [| x l IH]; simpl; [constructor |].
  now apply insert_by_key_sorted.
Qed.

Lemma insert_by_key_stable k x l :
  List.filter (fun y : Z * Record_ => (fst y =? k)%Z) (insert_by_key x l)
  = List.filter (fun y : Z * Record_ => (fst y =? k)%Z) (x :: l).
Proof.
  induction l as [| y l IH]; [reflexivity |].
  cbn [insert_by_key]. destruct (Z.leb_spec (fst x) (fst y)) as [Hle | Hgt];
    [reflexivity |].
  cbn [List.filter] in *. rewrite IH.
  destruct (Z.eqb_spec (fst x) k), (Z.eqb_spec (fst y) k);
    try reflexivity. lia.
Qed.

Lemma sort_by_key_stable k l :
  List.filter (fun y : Z * Record_ => (fst y =? k)%Z) (sort_by_key l)
  = List.filter (fun y : Z * Record_ => (fst y =? k)%Z) l.
Proof.
  induction l as [| x l IH]; [reflexivity |].
  change (sort_by_key (x :: l)) with (insert_by_key x (sort_by_key l)).
  rewrite insert_by_key_stable. cbn [List.filter]. now rewrite IH.
Qed.

(** Every non-empty list of candidates has a first minimum. *)
Lemma first_minimum_exists (l : list (Z * Record_)) :
  l <> [] ->
  exists before n r after,
    l = before ++ (n, r) :: after
    /\ (forall x, In x before -> (n < fst x)%Z)
    /\ (forall x, In x after -> (n <= fst x)%Z).
Proof.
  induction l as [| [m q] l IH]; intros Hne; [congruence |].
  destruct l as [| y l'].
  - exists [], m, q, []. repeat split; intros x [].
  - destruct IH as (before & n & r & after & E & Hb & Ha); [discriminate |].
    destruct (Z.leb_spec m n) as [Hle | Hgt].
    + exists [], m, q, (y :: l'). split; [reflexivity |].
      split; [intros x [] |]. intros x Hx. rewrite E in Hx.
      apply in_app_or in Hx. destruct Hx as [Hx | [Hx | Hx]]; simpl.
      * specialize (Hb x Hx). lia.
      * subst x. simpl. lia.
      * specialize (Ha x Hx). lia.
    + exists ((m, q) :: before), n, r, after. rewrite E. split; [reflexivity |].
      split; [| exact Ha]. intros x [Hx | Hx]; [subst; simpl; lia | now apply Hb].
Qed.

(** ** The search *)

Lemma number_loop_collects data : forall acc (s : St),
  exists s', number_loop data acc s = (Ok (acc ++ candidates data), s').
Proof.
  induction data as [| item rest IH]; intros acc s; simpl.
  - exists s. unfold ret, candidates. simpl. now rewrite app_nil_r.
  - unfold candidates. simpl. fold (candidates rest).
    destruct (numbered item) as [[n it] |].
    + unfold bind at 1, log.
      destruct (IH (acc ++ [(n, it)]) (add_log s (LNumberFound (session it) n)))
        as [s' E].
      exists s'. rewrite E. simpl. now rewrite <- app_assoc.
    + apply IH.
Qed.

Lemma choose_empty target (s : St) :
  choose target [] s = (Ok None, add_log s (LNoSubstitute target)).
Proof. reflexivity. Qed.

Lemma choose_returns target data (s : St) :
  data <> [] -> exists r s', choose target data s = (Ok (Some r), s').
Proof.
  intros Hne. destruct data as [| first rest]; [congruence |].
  unfold choose.
  destruct (find_exact target (first :: rest)) as [item |].
  - now eexists _, _.
  - unfold bind at 1.
    destruct (number_loop_collects (first :: rest) [] s) as [s1 E].
    rewrite E. destruct (sort_by_key _) as [| [n lowest] l]; now eexists _, _.
Qed.

Lemma choose_lowest target data (s : St) before n r after :
  find_exact target data = None ->
  candidates data = before ++ (n, r) :: after ->
  (forall x, In x before -> (n < fst x)%Z) ->
  (forall x, In x after -> (n <= fst x)%Z) ->
  exists s',
    choose target data s = (Ok (Some r), add_log s' (LLowest (session r) n)).
Proof.
  intros Hex Hc Hb Ha. destruct data as [| first rest].
  - destruct before; discriminate.
  - unfold choose. rewrite Hex. unfold bind at 1.
    destruct (number_loop_collects (first :: rest) [] s) as [s1 E].
    rewrite E. cbn [app]. rewrite Hc.
    destruct (@sort_by_key_head before n r after Hb Ha) as [l ->].
    now exists s1.
Qed.

Lemma release_returns (s : St) : fst (release_driver s) = Ok tt.
Proof. unfold release_driver. now destruct (self_driver s). Qed.

Lemma finally_release {A} (m : M A) (s : St) r s1 :
  m s = (r, s1) ->
  try_finally m release_driver s = (r, snd (release_driver s1)).
Proof.
  intros H. unfold try_finally. rewrite H.
  pose proof (release_returns s1) as Hr.
  destruct (release_driver s1) as [[[] | e] s2]; simpl in *;
    [reflexivity | discriminate].
Qed.

Lemma find_run target (s : St) r s1 :
  try_except (search_body target)
             (fun e => log (LSearchError e) ;; ret None) s = (r, s1) ->
  find_specific_session target s = (r, snd (release_driver s1)).
Proof. intros H. unfold find_specific_session. now apply finally_release. Qed.

Lemma search_retry_returns target (s : St) :
  exists data2 s2, search_retry target s = (Ok data2, s2).
Proof.
  destruct (safe_run s (safe_search_retry target)) as (d & s2 & E & _).
  now exists d, s2.
Qed.

(** C1, as the code has it.  [find_specific_session] never raises, and it
    answers None exactly when the first pass raised (session setup, page
    load), or the first extraction was empty, or the first extraction held
    no exact match and the extraction after the retry pass was empty. *)
Theorem not_found_exactly (target : pystr) (s : St) :
  exists r s',
    find_specific_session target s = (Ok r, s')
    /\ (r = None <->
        (exists e s1, search_first s = (Raise e, s1))
        \/ (exists s1, search_first s = (Ok [], s1))
        \/ (exists data s1 s2,
              search_first s = (Ok data, s1)
              /\ find_exact target data = None
              /\ search_retry target s1 = (Ok [], s2))).
Proof.
  destruct (search_first s) as [[data | e] s1] eqn:E1.
  - destruct data as [| d0 ds].
    + eexists _, _. split.
      * apply find_run. unfold try_except, search_body, bind. rewrite E1.
        reflexivity.
      * split; [intros _ | reflexivity]. right. left. now exists s1.
    + destruct (find_exact target (d0 :: ds)) as [item |] eqn:Ex.
      * eexists _, _. split.
        -- apply find_run. unfold try_except, search_body, bind. rewrite E1, Ex.
           reflexivity.
        -- split; [discriminate |].
           intros [(e & s2 & H) | [(s2 & H) | (dd & s2 & s3 & H & Hn & _)]];
             try discriminate.
           inversion H; subst. congruence.
      * destruct (search_retry_returns target s1) as (data2 & s2 & E2).
        destruct data2 as [| x xs].
        -- eexists _, _. split.
           ++ apply find_run. unfold try_except, search_body, bind.
              rewrite E1, Ex, E2. reflexivity.
           ++ split; [intros _ | reflexivity]. right. right.
              now exists (d0 :: ds), s1, s2.
        -- destruct (@choose_returns target (x :: xs) s2) as (r & s3 & E3);
             [discriminate |].
           eexists _, _. split.
           ++ apply find_run. unfold try_except, search_body, bind.
              rewrite E1, Ex, E2, E3. reflexivity.
           ++ split; [discriminate |].
              intros [(e & s4 & H) | [(s4 & H) | (dd & s4 & s5 & H & _ & H2)]];
                try discriminate.
              inversion H; subst. rewrite E2 in H2. discriminate.
  - eexists _, _. split.
    + apply find_run. unfold try_except, search_body, bind. rewrite E1.
      reflexivity.
    + split; [intros _ | reflexivity]. left. now exists e, s1.
Qed.

(** C2, as the code has it.  When the first extraction is non-empty
    without an exact match and the re-extracted data has no exact match
    either, the candidates are the records whose label contains the
    character 회 and a digit run that [int] parses; if (n, r) is the first
    candidate with the least number, the search returns r and its last log
    line before the release is the lowest-number line. *)
Theorem numeric_fallback_minimum (target : pystr) (s : St)
        data1 s1 data2 s2 before n r after :
  search_first s = (Ok data1, s1) ->
  data1 <> [] ->
  find_exact target data1 = None ->
  search_retry target s1 = (Ok data2, s2) ->
  find_exact target data2 = None ->
  candidates data2 = before ++ (n, r) :: after ->
  (forall x, In x before -> (n < fst x)%Z) ->
  (forall x, In x after -> (n <= fst x)%Z) ->
  exists s3,
    search_body target s = (Ok (Some r), add_log s3 (LLowest (session r) n))
    /\ find_specific_session target s
       = (Ok (Some r),
          snd (release_driver (add_log s3 (LLowest (session r) n))))
    /\ In r data2
    /\ numbered r = Some (n, r).
Proof.
  intros E1 Hne Ex1 E2 Ex2 Hc Hb Ha.
  destruct (@choose_lowest target data2 s2 before n r after Ex2 Hc Hb Ha)
    as [s3 E3].
  assert (Hbody : search_body target s
                  = (Ok (Some r), add_log s3 (LLowest (session r) n))).
  { unfold search_body, bind. rewrite E1.
    destruct data1 as [| d0 ds]; [congruence |]. now rewrite Ex1, E2, E3. }
  exists s3. split; [exact Hbody |]. split.
  - apply find_run. unfold try_except. now rewrite Hbody.
  - assert (Hin : In (n, r) (candidates data2))
      by (rewrite Hc; apply in_or_app; right; now left).
    unfold candidates in Hin. apply in_flat_map in Hin.
    destruct Hin as (item & Hitem & Hx).
    destruct (numbered item) as [[m it] |] eqn:En; [| contradiction].
    destruct Hx as [Hx | []]. inversion Hx; subst.
    assert (item = r).
    { unfold numbered in En. destruct (str_in HOE (session item)); [| discriminate].
      destruct (findall_digits (session item)); [discriminate |].
      destruct (py_int p); [| discriminate]. now inversion En. }
    subst item. now split.
Qed.

(** ** The handler *)

Lemma save_dict_run found bucket key (s : St) :
  save_to_s3 (PDict found) bucket key s
  = match put_object bucket key (JsonBody found) ApplicationJson (world s) with
    | (Ok _, w) =>
        (Ok true,
         add_log (set_world (add_event s (EvPut bucket key (JsonBody found)
                                                ApplicationJson)) w)
                 (LSaved bucket key))
    | (Raise e, w) =>
        (Ok false,
         add_log (set_world (add_event s (EvPut bucket key (JsonBody found)
                                                ApplicationJson)) w)
                 (LSaveError e))
    end.
Proof.
  unfold save_to_s3, try_except, bind, s3_put, bind, emit, call.
  cbn [world add_event].
  destruct (put_object bucket key (JsonBody found) ApplicationJson (world s))
    as [[[] | e] w]; reflexivity.
Qed.

Lemma save_list_run r rs bucket key (s : St) :
  save_to_s3 (PList (r :: rs)) bucket key s
  = match put_object bucket key (CsvBody (csv_content (r :: rs))) TextCsv
                     (world s) with
    | (Ok _, w) =>
        (Ok true,
         add_log (set_world
                    (add_event s (EvPut bucket key
                                        (CsvBody (csv_content (r :: rs)))
                                        TextCsv)) w)
                 (LSaved bucket key))
    | (Raise e, w) =>
        (Ok false,
         add_log (set_world
                    (add_event s (EvPut bucket key
                                        (CsvBody (csv_content (r :: rs)))
                                        TextCsv)) w)
                 (LSaveError e))
    end.
Proof.
  unfold save_to_s3, try_except, bind, s3_put, bind, emit, call.
  cbn [world add_event].
  destruct (put_object bucket key (CsvBody (csv_content (r :: rs))) TextCsv
                       (world s)) as [[[] | e] w]; reflexivity.
Qed.

Lemma handler_run event (s s1 : St) stamp w2 :
  crawler_init s = (Ok tt, s1) ->
  now FmtStamp (world s1) = (stamp, w2) ->
  handler event s
  = match (if event_get_all event
           then handle_all (event_bucket event)
                           (mkResult false [] stamp None None)
           else handle_one (event_bucket event) (event_target event)
                           (mkResult false [] stamp None None))
            (set_world s1 w2) with
    | (Ok rd', s3) => (Ok (mkResponse 200 (ResultBody rd')), s3)
    | (Raise e, s3) =>
        (Ok (mkResponse 500 (ErrorBody (exn_str e) MSG_CRASH)),
         add_log s3 (LHandlerError e))
    end.
Proof.
  intros Hi Hn. unfold handler, try_except, bind at 1. rewrite Hi.
  unfold bind at 1, call_total. rewrite Hn. unfold bind at 1.
  destruct (event_get_all event).
  - destruct (handle_all _ _ _) as [[rd' | e] s3]; reflexivity.
  - destruct (handle_one _ _ _ _) as [[rd' | e] s3]; reflexivity.
Qed.

Lemma handle_one_run bucket target rd (s : St) found s3 fstamp w4 :
  find_specific_session target (add_log s (LSearchStart target))
  = (Ok (Some found), s3) ->
  now FmtFile (world s3) = (fstamp, w4) ->
  handle_one bucket target rd s
  = match save_to_s3 (PDict found) bucket
                     (single_file_name (session found) fstamp)
                     (set_world s3 w4) with
    | (Ok true, s5) =>
        (Ok (mkResult true (msg_one_saved (session found)) (timestamp rd)
                      (Some found)
                      (Some (single_file_name (session found) fstamp))), s5)
    | (Ok false, s5) =>
        (Ok (mkResult (success rd) MSG_SAVE_FAILED (timestamp rd) (Some found)
                      (file_name rd)), s5)
    | (Raise e, s5) => (Raise e, s5)
    end.
Proof.
  intros Hf Hn. unfold handle_one, bind at 1, log. unfold bind at 1.
  rewrite Hf. unfold bind at 1, call_total. rewrite Hn. unfold bind at 1.
  destruct (save_to_s3 _ _ _ _) as [[[|] | e] s5]; reflexivity.
Qed.

Lemma handle_all_run bucket rd (s : St) r rs s3 fstamp w4 :
  get_all_exchange_rates (add_log s LCollectAllStart) = (Ok (r :: rs), s3) ->
  now FmtFile (world s3) = (fstamp, w4) ->
  handle_all bucket rd s
  = match save_to_s3 (PList (r :: rs)) bucket (bulk_file_name fstamp)
                     (set_world s3 w4) with
    | (Ok true, s5) =>
        (Ok (mkResult true (msg_all_saved (List.length (r :: rs)))
                      (timestamp rd) (data rd)
                      (Some (bulk_file_name fstamp))), s5)
    | (Ok false, s5) =>
        (Ok (mkResult (success rd) MSG_SAVE_FAILED (timestamp rd) (data rd)
                      (file_name rd)), s5)
    | (Raise e, s5) => (Raise e, s5)
    end.
Proof.
  intros Hf Hn. unfold handle_all, bind at 1, log. unfold bind at 1.
  rewrite Hf. unfold bind at 1, call_total. rewrite Hn. unfold bind at 1.
  destruct (save_to_s3 _ _ _ _) as [[[|] | e] s5]; reflexivity.
Qed.

Lemma find_setup_fails target (s : St) e s1 :
  self_driver s = None ->
  setup_driver s = (Raise e, s1) ->
  find_specific_session target s = (Ok None, add_log s1 (LSearchError e)).
Proof.
  intros Hnone Hs. destruct (@setup_driver_raises _ _ _ Hs) as [Hd _].
  rewrite (@find_run target s (Ok None) (add_log s1 (LSearchError e))).
  - rewrite release_none; [reflexivity |]. cbn [self_driver add_log]. congruence.
  - unfold try_except, search_body, bind at 1, search_first, bind at 1.
    now rewrite Hs.
Qed.

Lemma get_all_setup_fails (s : St) e s1 :
  self_driver s = None ->
  setup_driver s = (Raise e, s1) ->
  get_all_exchange_rates s = (Ok [], add_log s1 (LCollectError e)).
Proof.
  intros Hnone Hs. destruct (@setup_driver_raises _ _ _ Hs) as [Hd _].
  unfold get_all_exchange_rates.
  rewrite (@finally_release _ _ s (Ok []) (add_log s1 (LCollectError e))).
  - rewrite release_none; [reflexivity |]. cbn [self_driver add_log]. congruence.
  - unfold try_except, bind at 1. now rewrite Hs.
Qed.

Lemma crawler_init_ok (s s1 : St) :
  crawler_init s = (Ok tt, s1) -> self_driver s1 = None /\ trace s1 = trace s.
Proof.
  intros H. pose proof (crawler_init_fresh s) as F. now rewrite H in F.
Qed.

(** C3, as the code has it.  When the constructor of the crawler succeeded
    and [setup_driver] raises (both attempts to create the browser
    failed), the method's own handler absorbs the exception: the handler
    answers statusCode 200 with success false, no data, the not-found
    message in single mode and the no-data message in bulk mode; no
    session was created and nothing was stored. *)
Theorem setup_failure_is_absorbed event (s s1 : St) stamp w2 e s3 :
  crawler_init s = (Ok tt, s1) ->
  now FmtStamp (world s1) = (stamp, w2) ->
  setup_driver
    (add_log (set_world s1 w2)
             (if event_get_all event
              then LCollectAllStart
              else LSearchStart (event_target event)))
  = (Raise e, s3) ->
  exists s',
    handler event s
    = (Ok (mkResponse 200
             (ResultBody
                (mkResult false
                   (if event_get_all event
                    then MSG_NO_DATA
                    else msg_not_found (event_target event))
                   stamp None None))), s')
    /\ trace s' = trace s.
Proof.
  intros Hi Hn Hs. destruct (@crawler_init_ok s s1 Hi) as [Hd Ht].
  destruct (@setup_driver_raises _ _ _ Hs) as [_ Ht3].
  rewrite (@handler_run event s s1 stamp w2 Hi Hn).
  destruct (event_get_all event).
  - unfold handle_all, bind at 1, log. unfold bind at 1.
    rewrite (@get_all_setup_fails (add_log (set_world s1 w2) LCollectAllStart)
               e s3 Hd Hs).
    eexists. split; [reflexivity |].
    cbn [trace add_log]. rewrite Ht3. cbn [trace add_log set_world]. exact Ht.
  - unfold handle_one, bind at 1, log. unfold bind at 1.
    rewrite (@find_setup_fails (event_target event)
               (add_log (set_world s1 w2) (LSearchStart (event_target event)))
               e s3 Hd Hs).
    eexists. split; [reflexivity |].
    cbn [trace add_log]. rewrite Ht3. cbn [trace add_log set_world]. exact Ht.
Qed.

(** C7, as the code has it.  When [put_object] raises after data was
    collected, the handler answers statusCode 200 with success false and
    the fixed message MSG_SAVE_FAILED; the text of the exception goes to
    the log only.  In single mode the found record is in the data field;
    in bulk mode the data field stays null. *)
Theorem storage_failure_response event (s s1 : St) stamp w2 :
  crawler_init s = (Ok tt, s1) ->
  now FmtStamp (world s1) = (stamp, w2) ->
  (forall found s3 fstamp w4 e w5,
      event_get_all event = false ->
      find_specific_session (event_target event)
        (add_log (set_world s1 w2) (LSearchStart (event_target event)))
      = (Ok (Some found), s3) ->
      now FmtFile (world s3) = (fstamp, w4) ->
      put_object (event_bucket event)
                 (single_file_name (session found) fstamp)
                 (JsonBody found) ApplicationJson w4 = (Raise e, w5) ->
      fst (handler event s)
      = Ok (mkResponse 200
              (ResultBody (mkResult false MSG_SAVE_FAILED stamp (Some found)
                                    None)))
      /\ In (LSaveError e) (logs (snd (handler event s))))
  /\ (forall r rs s3 fstamp w4 e w5,
         event_get_all event = true ->
         get_all_exchange_rates (add_log (set_world s1 w2) LCollectAllStart)
         = (Ok (r :: rs), s3) ->
         now FmtFile (world s3) = (fstamp, w4) ->
         put_object (event_bucket event) (bulk_file_name fstamp)
                    (CsvBody (csv_content (r :: rs))) TextCsv w4
         = (Raise e, w5) ->
         fst (handler event s)
         = Ok (mkResponse 200
                 (ResultBody (mkResult false MSG_SAVE_FAILED stamp None None)))
         /\ In (LSaveError e) (logs (snd (handler event s)))).
Proof.
  intros Hi Hn. split.
  - intros found s3 fstamp w4 e w5 Hg Hf Hn4 Hp.
    rewrite (@handler_run event s s1 stamp w2 Hi Hn), Hg.
    rewrite (@handle_one_run _ _ _ _ _ _ _ _ Hf Hn4), save_dict_run.
    cbn [world set_world add_event]. rewrite Hp. cbn [fst snd logs add_log].
    split; [reflexivity |]. apply in_or_app. right. now left.
  - intros r rs s3 fstamp w4 e w5 Hg Hf Hn4 Hp.
    rewrite (@handler_run event s s1 stamp w2 Hi Hn), Hg.
    rewrite (@handle_all_run _ _ _ _ _ _ _ _ Hf Hn4), save_list_run.
    cbn [world set_world add_event]. rewrite Hp. cbn [fst snd logs add_log].
    split; [reflexivity |]. apply in_or_app. right. now left.
Qed.

Lemma replace_char_removes a b (s : pystr) : a <> b -> ~ In a (replace_char a b s).
Proof.
  intros Hab. induction s as [| c s IH]; simpl; [tauto |].
  intros [H | H]; [| now apply IH].
  destruct (N.eqb_spec c a); congruence.
Qed.

(** C10. In single mode, when the search returns a record, the one write
    to the store uses the key exchange_rate_<label>_<stamp>.json where the
    label is the round label of the returned record with every space
    replaced by an underscore, whatever the requested target was; on a
    successful write the same key is the file_name of the response. *)
Theorem single_key_from_found_label event (s s1 : St) stamp w2
        found s3 fstamp w4 :
  crawler_init s = (Ok tt, s1) ->
  now FmtStamp (world s1) = (stamp, w2) ->
  event_get_all event = false ->
  find_specific_session (event_target event)
    (add_log (set_world s1 w2) (LSearchStart (event_target event)))
  = (Ok (Some found), s3) ->
  now FmtFile (world s3) = (fstamp, w4) ->
  trace (snd (handler event s))
  = trace s3 ++ [EvPut (event_bucket event)
                       (single_file_name (session found) fstamp)
                       (JsonBody found) ApplicationJson]
  /\ single_file_name (session found) fstamp
     = utf8 "exchange_rate_" ++ replace_char 32 95 (session found)
            ++ utf8 "_" ++ fstamp ++ utf8 ".json"
  /\ ~ In 32%N (replace_char 32 95 (session found))
  /\ (forall w5,
         put_object (event_bucket event)
                    (single_file_name (session found) fstamp)
                    (JsonBody found) ApplicationJson w4 = (Ok tt, w5) ->
         fst (handler event s)
         = Ok (mkResponse 200
                 (ResultBody
                    (mkResult true (msg_one_saved (session found)) stamp
                       (Some found)
                       (Some (single_file_name (session found) fstamp)))))).
Proof.
  intros Hi Hn Hg Hf Hn4.
  rewrite (@handler_run event s s1 stamp w2 Hi Hn), Hg.
  rewrite (@handle_one_run _ _ _ _ _ _ _ _ Hf Hn4), save_dict_run.
  cbn [world set_world add_event]. split; [| split; [| split]].
  - destruct (put_object _ _ _ _ w4) as [[[] | e] w5]; reflexivity.
  - reflexivity.
  - apply replace_char_removes. discriminate.
  - intros w5 Hp. now rewrite Hp.
Qed.


(** ** Frames: which events a function can add *)

Lemma extends_refl ok (s : St) : extends ok s s.
Proof.
  repeat split. exists []. split; [now rewrite app_nil_r | reflexivity].
Qed.

Lemma extends_trans ok (s1 s2 s3 : St) :
  extends ok s1 s2 -> extends ok s2 s3 -> extends ok s1 s3.
Proof.
  intros (a1 & b1 & c1 & m1 & E1 & F1) (a2 & b2 & c2 & m2 & E2 & F2).
  repeat split; try congruence.
  exists (m1 ++ m2). split.
  - rewrite E2, E1. now rewrite app_assoc.
  - rewrite forallb_app, F1, F2. reflexivity.
Qed.

Lemma extends_mono (ok ok' : event Drv Elem -> bool) (s s' : St) :
  (forall ev, ok ev = true -> ok' ev = true) ->
  extends ok s s' -> extends ok' s s'.
Proof.
  intros H (a & b & c & mid & E & F). repeat split; try assumption.
  exists mid. split; [exact E |].
  rewrite forallb_forall in *. intros ev Hev. apply H. now apply F.
Qed.

Lemma extends_world ok (s : St) w : extends ok s (set_world s w).
Proof.
  repeat split. exists []. split; [cbn; now rewrite app_nil_r | reflexivity].
Qed.

Lemma extends_log ok (s : St) l : extends ok s (add_log s l).
Proof.
  repeat split. exists []. split; [cbn; now rewrite app_nil_r | reflexivity].
Qed.

Lemma extends_event (ok : event Drv Elem -> bool) (s : St) ev :
  ok ev = true -> extends ok s (add_event s ev).
Proof.
  intros H. repeat split. exists [ev]. split; [reflexivity |].
  cbn. now rewrite H.
Qed.

Lemma extends_silent (s s' : St) : extends no_event s s' -> trace s' = trace s.
Proof.
  intros (_ & _ & _ & mid & E & F). destruct mid as [| ev mid].
  - now rewrite app_nil_r in E.
  - discriminate.
Qed.

Lemma within_mono (ok ok' : event Drv Elem -> bool) {A} (m : M A) :
  (forall ev, ok ev = true -> ok' ev = true) -> within ok m -> within ok' m.
Proof. intros H Hm s. eapply extends_mono; [exact H | apply Hm]. Qed.

Lemma within_silent ok {A} (m : M A) : within no_event m -> within ok m.
Proof. apply within_mono. discriminate. Qed.

Lemma within_ret ok {A} (a : A) : within ok (ret a : M A).
Proof. intros s. apply extends_refl. Qed.

Lemma within_raise ok {A} e : within ok (raise e : M A).
Proof. intros s. apply extends_refl. Qed.

Lemma within_log ok l : within ok (log l : M unit).
Proof. intros s. apply extends_log. Qed.

Lemma within_emit (ok : event Drv Elem -> bool) ev :
  ok ev = true -> within ok (emit ev : M unit).
Proof. intros H s. now apply extends_event. Qed.

Lemma within_call ok {A} (f : W -> result A * W) : within ok (call f : M A).
Proof.
  intros s. unfold call. destruct (f (world s)). apply extends_world.
Qed.

Lemma within_call_total ok {A} (f : W -> A * W) :
  within ok (call_total f : M A).
Proof.
  intros s. unfold call_total. destruct (f (world s)). apply extends_world.
Qed.

Lemma within_act ok f : within ok (act f : M unit).
Proof. intros s. apply extends_world. Qed.

Lemma within_the_driver ok : within ok (the_driver : M Drv).
Proof.
  intros s. unfold the_driver. destruct (self_driver s); apply extends_refl.
Qed.

Lemma within_bind ok {A B} (m : M A) (f : A -> M B) :
  within ok m -> (forall a, within ok (f a)) -> within ok (bind m f).
Proof.
  intros Hm Hf s. specialize (Hm s). unfold bind.
  destruct (m s) as [[a | e] s1]; cbn [snd] in *; auto.
  eapply extends_trans; [exact Hm | apply Hf].
Qed.

Lemma within_try_except ok {A} (m : M A) h :
  within ok m -> (forall e, within ok (h e)) -> within ok (try_except m h).
Proof.
  intros Hm Hh s. specialize (Hm s). unfold try_except.
  destruct (m s) as [[a | e] s1]; cbn [snd] in *; auto.
  eapply extends_trans; [exact Hm | apply Hh].
Qed.

Lemma within_try_except_of ok {A} cs (m : M A) h :
  within ok m -> (forall e, within ok (h e)) ->
  within ok (try_except_of cs m h).
Proof.
  intros Hm Hh. apply within_try_except; auto.
  intros e. destruct (caught_by cs e); auto using within_raise.
Qed.

Create HintDb frame.

Ltac frame_step :=
  match goal with
  | |- within _ (bind _ _) => apply within_bind; [| intros ?]
  | |- within _ (try_except_of _ _ _) =>
      apply within_try_except_of; [| intros ?]
  | |- within _ (try_except _ _) => apply within_try_except; [| intros ?]
  | |- within _ (ret _) => apply within_ret
  | |- within _ (raise _) => apply within_raise
  | |- within _ (log _) => apply within_log
  | |- within _ (emit _) => apply within_emit; reflexivity
  | |- within _ (call _) => apply within_call
  | |- within _ (call_total _) => apply within_call_total
  | |- within _ (act _) => apply within_act
  | |- within _ the_driver => apply within_the_driver
  | |- within _ (match ?x with _ => _ end) => destruct x
  | |- within _ ?m => assumption
  end.

Ltac frame :=
  repeat (frame_step
          || solve [auto with frame]
          || solve [apply within_silent; auto with frame]).

Lemma within_drv_call ok {A} (f : Drv -> W -> result A * W) :
  within ok (drv_call f : M A).
Proof. unfold drv_call. frame. Qed.
#[local] Hint Resolve within_drv_call : frame.

Lemma within_find_last_button ok links : within ok (find_last_button links).
Proof. induction links as [| link rest IH]; simpl; frame. Qed.

Lemma within_highest_page_loop ok links h :
  within ok (highest_page_loop links h).
Proof.
  revert h. induction links as [| link rest IH]; intros h; simpl; frame.
Qed.
#[local] Hint Resolve within_find_last_button within_highest_page_loop : frame.

Lemma within_select_rows ok sels rows : within ok (select_rows sels rows).
Proof.
  revert rows. induction sels as [| sel rest IH]; intros rows; simpl; frame.
Qed.

Lemma within_cell_at ok (cells : list Elem) i :
  within ok (cell_at cells i : M Elem).
Proof. unfold cell_at. frame. Qed.
#[local] Hint Resolve within_select_rows within_cell_at : frame.

Lemma within_rate_loop ok cells idxs : within ok (rate_loop cells idxs).
Proof. induction idxs as [| i rest IH]; simpl; frame. Qed.

Lemma within_build_record ok a b : within ok (build_record a b).
Proof. unfold build_record. frame. Qed.
#[local] Hint Resolve within_rate_loop within_build_record : frame.

Lemma within_extract_row ok row : within ok (extract_row row).
Proof. unfold extract_row. frame. Qed.
#[local] Hint Resolve within_extract_row : frame.

Lemma within_row_loop ok idx rows data : within ok (row_loop idx rows data).
Proof.
  revert idx data.
  induction rows as [| row rest IH]; intros idx data; simpl; frame.
Qed.
#[local] Hint Resolve within_row_loop : frame.

Lemma within_extract ok : within ok extract_exchange_data.
Proof. unfold extract_exchange_data. frame. Qed.
#[local] Hint Resolve within_extract : frame.

Lemma within_number_loop ok data acc :
  within ok (number_loop data acc : M (list (Z * Record_))).
Proof.
  revert acc. induction data as [| item rest IH]; intros acc; simpl; frame.
Qed.
#[local] Hint Resolve within_number_loop : frame.

Lemma within_choose ok target data :
  within ok (choose target data : M (option Record_)).
Proof. unfold choose. frame. Qed.
#[local] Hint Resolve within_choose : frame.

Lemma browse_driver_get url : within is_browse_event (driver_get url).
Proof. unfold driver_get. frame. Qed.

Lemma browse_run_script sc : within is_browse_event (run_script sc).
Proof. unfold run_script. frame. Qed.
#[local] Hint Resolve browse_driver_get browse_run_script : frame.

Lemma browse_nav_attempt1 : within is_browse_event nav_attempt1.
Proof. unfold nav_attempt1. frame. Qed.

Lemma browse_nav_attempt2 : within is_browse_event nav_attempt2.
Proof. unfold nav_attempt2. frame. Qed.

Lemma browse_nav_attempt3 : within is_browse_event nav_attempt3.
Proof. unfold nav_attempt3. frame. Qed.
#[local] Hint Resolve browse_nav_attempt1 browse_nav_attempt2
  browse_nav_attempt3 : frame.

Lemma browse_go_to_last_page : within is_browse_event go_to_last_page.
Proof. unfold go_to_last_page. frame. Qed.
#[local] Hint Resolve browse_go_to_last_page : frame.

Lemma browse_navigate_and_extract :
  within is_browse_event navigate_and_extract.
Proof. unfold navigate_and_extract. frame. Qed.

Lemma browse_probe_buttons idxs : within is_browse_event (probe_buttons idxs).
Proof. induction idxs as [| i rest IH]; simpl; frame. Qed.
#[local] Hint Resolve browse_navigate_and_extract browse_probe_buttons : frame.

Lemma browse_search_retry target :
  within is_browse_event (search_retry target).
Proof. unfold search_retry. frame. Qed.
#[local] Hint Resolve browse_search_retry : frame.

Lemma put_s3_put b k body_ ct : within is_put_event (s3_put b k body_ ct).
Proof. unfold s3_put. frame. Qed.
#[local] Hint Resolve put_s3_put : frame.

Lemma put_save_to_s3 data_ bucket file :
  within is_put_event (save_to_s3 data_ bucket file).
Proof. unfold save_to_s3. frame. Qed.
#[local] Hint Resolve put_save_to_s3 : frame.

(** X1. The extraction only reads.  Whatever the page does, a call of
    [extract_exchange_data] adds no event to the trace (no page load, no
    script, no session, no store write) and leaves the session held by the
    crawler as it is. *)
Theorem extraction_only_reads (s : St) :
  trace (snd (extract_exchange_data s)) = trace s
  /\ self_driver (snd (extract_exchange_data s)) = self_driver s.
Proof.
  pose proof (@within_extract no_event s) as H. split.
  - now apply extends_silent.
  - apply H.
Qed.

(** ** The events of one session *)

Lemma bind_assoc_at {A B D} (m : M A) (f : A -> M B) (g : B -> M D) s :
  bind (bind m f) g s = bind m (fun a => bind (f a) g) s.
Proof. unfold bind. destruct (m s) as [[a | e] s1]; reflexivity. Qed.

Lemma holding_silent (s s1 s2 : St) :
  holding s s1 -> extends no_event s1 s2 -> holding s s2.
Proof.
  intros H E. pose proof (extends_silent E) as Ht.
  destruct E as (Ed & _). destruct H as [[Hd Hs] | (d & mid & Hd & Hs & Hm)].
  - left. split; congruence.
  - right. exists d, mid. repeat split; congruence.
Qed.

Lemma setup_driver_opens (s : St) :
  self_driver s = None ->
  match setup_driver s with
  | (Ok _, s1) =>
      exists d, self_driver s1 = Some d /\ trace s1 = trace s ++ [EvSession d]
  | (Raise _, s1) => self_driver s1 = None /\ trace s1 = trace s
  end.
Proof.
  intros Hnone.
  unfold setup_driver, try_except, new_chrome, bind, log, raise.
  destruct (path_truthy (driver_path s)) as [p |]; unfold bind, new_chrome, log;
    destruct (chrome _ (path_truthy (chrome_path s)) (world s))
      as [[d | e] w] eqn:E1; cbn;
    try (now exists d).
  all: destruct (chrome None (path_truthy (chrome_path s)) w)
      as [[d2 | e2] w'] eqn:E2; cbn.
  all: try (now exists d2).
  all: now split.
Qed.

Lemma holds_after_setup {A} (rest : M A) :
  within is_browse_event rest -> holds (bind setup_driver (fun _ => rest)).
Proof.
  intros Hr s Hnone. pose proof (setup_driver_opens s Hnone) as Hs.
  unfold bind. destruct (setup_driver s) as [[[] | e] s1]; cbn [snd].
  - destruct Hs as (d & Hd & Ht).
    destruct (Hr s1) as (Ed & _ & _ & mid & Et & Em).
    right. exists d, mid. split; [congruence |]. split; [| exact Em].
    rewrite Et, Ht. now rewrite <- app_assoc.
  - left. exact Hs.
Qed.

Lemma holds_try_except {A} (m : M A) h :
  holds m -> (forall e, within no_event (h e)) -> holds (try_except m h).
Proof.
  intros Hm Hh s Hnone. specialize (Hm s Hnone). unfold try_except.
  destruct (m s) as [[a | e] s1]; cbn [snd] in *; [exact Hm |].
  eapply holding_silent; [exact Hm | apply Hh].
Qed.

Lemma released_span {A} (m : M A) :
  holds m ->
  forall s, self_driver s = None ->
  exists tr,
    trace (snd (try_finally m release_driver s)) = trace s ++ tr
    /\ session_span tr.
Proof.
  intros Hm s Hnone. specialize (Hm s Hnone). unfold try_finally.
  destruct (m s) as [r s1]; cbn [snd] in Hm.
  destruct Hm as [[Hd Ht] | (d & mid & Hd & Ht & Hmid)].
  - rewrite (release_none _ Hd). exists []. split; [| now left].
    cbn [snd]. now rewrite app_nil_r.
  - rewrite (release_some _ Hd). exists (EvSession d :: mid ++ [EvQuit d]).
    split; [| right; now exists d, mid].
    cbn [snd trace add_log set_world add_event]. rewrite Ht.
    rewrite <- app_assoc. reflexivity.
Qed.

Lemma holds_search_body target : holds (search_body target).
Proof.
  intros s Hnone. unfold search_body, search_first.
  rewrite bind_assoc_at. apply holds_after_setup; [| exact Hnone]. frame.
Qed.

Lemma find_span target (s : St) :
  self_driver s = None ->
  exists tr,
    trace (snd (find_specific_session target s)) = trace s ++ tr
    /\ session_span tr.
Proof.
  apply released_span. apply holds_try_except.
  - apply holds_search_body.
  - intros e. frame.
Qed.

Lemma get_all_span (s : St) :
  self_driver s = None ->
  exists tr,
    trace (snd (get_all_exchange_rates s)) = trace s ++ tr
    /\ session_span tr.
Proof.
  apply released_span. apply holds_try_except.
  - apply holds_after_setup. frame.
  - intros e. frame.
Qed.

(** X2. A crawler method drives one session at most and never outlives
    it: the events a call of [find_specific_session] or
    [get_all_exchange_rates] adds on a fresh crawler are either none, or
    the creation of a session, then page loads and scripts only, then the
    release of that session as the last event.  No browser call follows the
    release and the methods never write to the store. *)
Theorem methods_stay_inside_the_session (s : St) :
  (forall target,
      exists tr,
        trace (snd (find_specific_session target (set_driver s None)))
        = trace s ++ tr
        /\ session_span tr)
  /\ (exists tr,
         trace (snd (get_all_exchange_rates (set_driver s None)))
         = trace s ++ tr
         /\ session_span tr).
Proof.
  split.
  - intros target. now apply (@find_span target (set_driver s None)).
  - now apply (@get_all_span (set_driver s None)).
Qed.

Lemma absorbed_returns {A} (m : M A) (h : exn -> M A) (s : St) :
  (forall e s1, exists a, fst (h e s1) = Ok a) ->
  exists a, fst (try_finally (try_except m h) release_driver s) = Ok a.
Proof.
  intros Hh. unfold try_finally.
  assert (H : exists a, fst (try_except m h s) = Ok a).
  { unfold try_except. destruct (m s) as [[a | e] s1]; cbn; eauto. }
  destruct H as [a Ha].
  destruct (try_except m h s) as [r s1].
  cbn [fst] in Ha. subst r. pose proof (release_returns s1) as Hr.
  destruct (release_driver s1) as [[[] | e] s2]; cbn in *;
    [now exists a | discriminate].
Qed.

Lemma find_returns target (s : St) :
  exists r, fst (find_specific_session target s) = Ok r.
Proof. apply absorbed_returns. intros e s1. now exists None. Qed.

Lemma get_all_returns (s : St) :
  exists data_, fst (get_all_exchange_rates s) = Ok data_.
Proof. apply absorbed_returns. intros e s1. now exists []. Qed.

(** ** What one invocation of the handler does *)

Lemma handle_one_outcome bucket target rd (s : St) :
  self_driver s = None ->
  exists rd' s' tr puts,
    handle_one bucket target rd s = (Ok rd', s')
    /\ trace s' = trace s ++ tr ++ puts
    /\ session_span tr
    /\ timestamp rd' = timestamp rd
    /\ ((puts = [] /\ rd' = mkResult (success rd) (msg_not_found target)
                                  (timestamp rd) (data rd) (file_name rd)
         /\ fst (find_specific_session target
                   (add_log s (LSearchStart target))) = Ok None)
        \/ exists found k,
            puts = [EvPut bucket k (JsonBody found) ApplicationJson]
            /\ k = single_file_name (session found)
                     (fst (now FmtFile
                             (world (snd (find_specific_session target
                                            (add_log s (LSearchStart target)))))))
            /\ fst (find_specific_session target
                      (add_log s (LSearchStart target))) = Ok (Some found)
            /\ (rd' = mkResult true (msg_one_saved (session found))
                               (timestamp rd) (Some found) (Some k)
                \/ rd' = mkResult (success rd) MSG_SAVE_FAILED (timestamp rd)
                                  (Some found) (file_name rd))).
Proof.
  intros Hnone. set (s0 := add_log s (LSearchStart target)).
  destruct (@find_span target s0 Hnone) as (tr & Htr & Hspan).
  destruct (find_returns target s0) as [r Hr].
  destruct (find_specific_session target s0) as [fr s3] eqn:Ef.
  cbn [fst snd] in *. subst fr. destruct r as [found |].
  - destruct (now FmtFile (world s3)) as [fstamp w4] eqn:En.
    rewrite (@handle_one_run bucket target rd s found s3 fstamp w4 Ef En).
    rewrite save_dict_run. cbn [world set_world add_event].
    destruct (put_object bucket (single_file_name (session found) fstamp)
                         (JsonBody found) ApplicationJson w4)
      as [[[] | e] w5]; cbn [fst snd].
    + eexists _, _, tr, _. split; [reflexivity |].
      split; [cbn [trace add_log set_world add_event]; rewrite Htr;
              now rewrite <- app_assoc |].
      split; [exact Hspan |]. split; [reflexivity |].
      right. exists found, (single_file_name (session found) fstamp).
      repeat split. now left.
    + eexists _, _, tr, _. split; [reflexivity |].
      split; [cbn [trace add_log set_world add_event]; rewrite Htr;
              now rewrite <- app_assoc |].
      split; [exact Hspan |]. split; [reflexivity |].
      right. exists found, (single_file_name (session found) fstamp).
      repeat split. now right.
  - exists (mkResult (success rd) (msg_not_found target) (timestamp rd)
                     (data rd) (file_name rd)), s3, tr, [].
    split.
    + unfold handle_one, bind at 1, log. unfold bind at 1. fold s0.
      now rewrite Ef.
    + split; [now rewrite app_nil_r |]. split; [exact Hspan |].
      split; [reflexivity |]. left. now repeat split.
Qed.

Lemma handle_all_outcome bucket rd (s : St) :
  self_driver s = None ->
  exists rd' s' tr puts,
    handle_all bucket rd s = (Ok rd', s')
    /\ trace s' = trace s ++ tr ++ puts
    /\ session_span tr
    /\ timestamp rd' = timestamp rd
    /\ data rd' = data rd
    /\ ((puts = [] /\ rd' = mkResult (success rd) MSG_NO_DATA (timestamp rd)
                                  (data rd) (file_name rd)
         /\ fst (get_all_exchange_rates (add_log s LCollectAllStart)) = Ok [])
        \/ exists r rs k,
            puts = [EvPut bucket k (CsvBody (csv_content (r :: rs))) TextCsv]
            /\ k = bulk_file_name
                     (fst (now FmtFile
                             (world (snd (get_all_exchange_rates
                                            (add_log s LCollectAllStart))))))
            /\ fst (get_all_exchange_rates (add_log s LCollectAllStart))
               = Ok (r :: rs)
            /\ (rd' = mkResult true (msg_all_saved (List.length (r :: rs)))
                               (timestamp rd) (data rd) (Some k)
                \/ rd' = mkResult (success rd) MSG_SAVE_FAILED (timestamp rd)
                                  (data rd) (file_name rd))).
Proof.
  intros Hnone. set (s0 := add_log s LCollectAllStart).
  destruct (@get_all_span s0 Hnone) as (tr & Htr & Hspan).
  destruct (get_all_returns s0) as [r Hr].
  destruct (get_all_exchange_rates s0) as [fr s3] eqn:Ef.
  cbn [fst snd] in *. subst fr. destruct r as [| r rs].
  - exists (mkResult (success rd) MSG_NO_DATA (timestamp rd) (data rd)
                     (file_name rd)), s3, tr, [].
    split.
    + unfold handle_all, bind at 1, log. unfold bind at 1. fold s0.
      now rewrite Ef.
    + split; [now rewrite app_nil_r |]. split; [exact Hspan |].
      split; [reflexivity |]. split; [reflexivity |]. left. now repeat split.
  - destruct (now FmtFile (world s3)) as [fstamp w4] eqn:En.
    rewrite (@handle_all_run bucket rd s r rs s3 fstamp w4 Ef En).
    rewrite save_list_run. cbn [world set_world add_event].
    destruct (put_object bucket (bulk_file_name fstamp)
                         (CsvBody (csv_content (r :: rs))) TextCsv w4)
      as [[[] | e] w5]; cbn [fst snd].
    + eexists _, _, tr, _. split; [reflexivity |].
      split; [cbn [trace add_log set_world add_event]; rewrite Htr;
              now rewrite <- app_assoc |].
      split; [exact Hspan |]. split; [reflexivity |]. split; [reflexivity |].
      right. exists r, rs, (bulk_file_name fstamp). repeat split. now left.
    + eexists _, _, tr, _. split; [reflexivity |].
      split; [cbn [trace add_log set_world add_event]; rewrite Htr;
              now rewrite <- app_assoc |].
      split; [exact Hspan |]. split; [reflexivity |]. split; [reflexivity |].
      right. exists r, rs, (bulk_file_name fstamp). repeat split. now right.
Qed.

Lemma handler_constructor_fails event (s : St) e s1 :
  crawler_init s = (Raise e, s1) ->
  handler event s
  = (Ok (mkResponse 500 (ErrorBody (exn_str e) MSG_CRASH)),
     add_log s1 (LHandlerError e)).
Proof.
  intros H. unfold handler, try_except, bind at 1. now rewrite H.
Qed.

(** X3. The external actions of one invocation.  The handler never raises,
    and what it adds to the trace is: the events of at most one browser
    session (creation, page loads and scripts, release), followed by at
    most one write to the store, into the requested bucket.  A response
    with success = true means that this one write was made, under the key
    reported as file_name. *)
Theorem handler_actions event (s : St) :
  exists resp s' tr puts,
    handler event s = (Ok resp, s')
    /\ trace s' = trace s ++ tr ++ puts
    /\ session_span tr
    /\ (puts = []
        \/ exists k body_ ct, puts = [EvPut (event_bucket event) k body_ ct])
    /\ (forall rd,
           body resp = ResultBody rd -> success rd = true ->
           exists k body_ ct,
             puts = [EvPut (event_bucket event) k body_ ct]
             /\ file_name rd = Some k).
Proof.
  destruct (crawler_init s) as [[[] | e] s1] eqn:Ei.
  - destruct (@crawler_init_ok s s1 Ei) as [Hd Ht].
    destruct (now FmtStamp (world s1)) as [stamp w2] eqn:En.
    rewrite (@handler_run event s s1 stamp w2 Ei En).
    assert (Hd2 : self_driver (set_world s1 w2) = None) by exact Hd.
    destruct (event_get_all event).
    + destruct (@handle_all_outcome (event_bucket event)
                  (mkResult false [] stamp None None) (set_world s1 w2) Hd2)
        as (rd' & s' & tr & puts & E & Htr & Hspan & _ & _ & Hc).
      rewrite E. exists (mkResponse 200 (ResultBody rd')), s', tr, puts.
      split; [reflexivity |].
      split; [rewrite Htr; cbn [trace set_world]; now rewrite Ht |].
      split; [exact Hspan |].
      destruct Hc as [(Hp & Hrd & _) | (r & rs & k & Hp & _ & _ & Hrd)].
      * split; [now left |]. intros rd Hb Hs. cbn [body] in Hb.
        inversion Hb; subst. discriminate.
      * subst puts. split; [right; eexists _, _, _; reflexivity |].
        intros rd Hb Hs. cbn [body] in Hb. inversion Hb; subst rd.
        destruct Hrd as [-> | ->]; [| discriminate].
        eexists _, _, _. split; reflexivity.
    + destruct (@handle_one_outcome (event_bucket event) (event_target event)
                  (mkResult false [] stamp None None) (set_world s1 w2) Hd2)
        as (rd' & s' & tr & puts & E & Htr & Hspan & _ & Hc).
      rewrite E. exists (mkResponse 200 (ResultBody rd')), s', tr, puts.
      split; [reflexivity |].
      split; [rewrite Htr; cbn [trace set_world]; now rewrite Ht |].
      split; [exact Hspan |].
      destruct Hc as [(Hp & Hrd & _) | (found & k & Hp & _ & _ & Hrd)].
      * split; [now left |]. intros rd Hb Hs. cbn [body] in Hb.
        inversion Hb; subst. discriminate.
      * subst puts. split; [right; eexists _, _, _; reflexivity |].
        intros rd Hb Hs. cbn [body] in Hb. inversion Hb; subst rd.
        destruct Hrd as [-> | ->]; [| discriminate].
        eexists _, _, _. split; reflexivity.
  - rewrite (@handler_constructor_fails event s e s1 Ei).
    eexists _, _, [], []. split; [reflexivity |].
    pose proof (crawler_init_fresh s) as [_ Ht]. rewrite Ei in Ht.
    cbn [snd] in Ht. split; [cbn [trace add_log]; now rewrite Ht, app_nil_r |].
    split; [now left |]. split; [now left |].
    intros rd Hb. discriminate.
Qed.

(** X4. The response envelope.  The handler answers 500, with the text of
    the exception as error, exactly when the constructor of the crawler
    raised; otherwise it answers 200 with the time stamp taken right after
    construction, where file_name is present exactly when success is true,
    the data field is null in bulk mode on every path, and in single mode
    success implies that data holds the stored record. *)
Theorem handler_envelope event (s : St) :
  exists resp s',
    handler event s = (Ok resp, s')
    /\ ((exists e s1,
            crawler_init s = (Raise e, s1)
            /\ resp = mkResponse 500 (ErrorBody (exn_str e) MSG_CRASH))
        \/ (exists s1 rd,
               crawler_init s = (Ok tt, s1)
               /\ resp = mkResponse 200 (ResultBody rd)
               /\ timestamp rd = fst (now FmtStamp (world s1))
               /\ (success rd = true <-> file_name rd <> None)
               /\ (event_get_all event = true -> data rd = None)
               /\ (event_get_all event = false -> success rd = true ->
                   data rd <> None))).
Proof.
  destruct (crawler_init s) as [[[] | e] s1] eqn:Ei.
  - destruct (@crawler_init_ok s s1 Ei) as [Hd Ht].
    destruct (now FmtStamp (world s1)) as [stamp w2] eqn:En.
    rewrite (@handler_run event s s1 stamp w2 Ei En).
    assert (Hd2 : self_driver (set_world s1 w2) = None) by exact Hd.
    destruct (event_get_all event).
    + destruct (@handle_all_outcome (event_bucket event)
                  (mkResult false [] stamp None None) (set_world s1 w2) Hd2)
        as (rd' & s' & tr & puts & E & _ & _ & Hts & Hdata & Hc).
      rewrite E. eexists _, _. split; [reflexivity |]. right.
      exists s1, rd'. split; [reflexivity |]. split; [reflexivity |].
      split; [rewrite En; exact Hts |]. split; [| split; [intros _; exact Hdata |]].
      * destruct Hc as [(_ & -> & _) | (r & rs & k & _ & _ & _ & [-> | ->])];
          cbn; split; congruence.
      * discriminate.
    + destruct (@handle_one_outcome (event_bucket event) (event_target event)
                  (mkResult false [] stamp None None) (set_world s1 w2) Hd2)
        as (rd' & s' & tr & puts & E & _ & _ & Hts & Hc).
      rewrite E. eexists _, _. split; [reflexivity |]. right.
      exists s1, rd'. split; [reflexivity |]. split; [reflexivity |].
      split; [rewrite En; exact Hts |]. split; [| split; [discriminate |]].
      * destruct Hc as [(_ & -> & _) | (found & k & _ & _ & _ & [-> | ->])];
          cbn; split; congruence.
      * intros _.
        destruct Hc as [(_ & -> & _) | (found & k & _ & _ & _ & [-> | ->])];
          cbn; congruence.
  - rewrite (@handler_constructor_fails event s e s1 Ei).
    eexists _, _. split; [reflexivity |]. left. now exists e, s1.
Qed.

(** ** The cascade of the search, branch by branch *)

Lemma find_exact_first target data item :
  find_exact target data = Some item ->
  exists before after,
    data = before ++ item :: after
    /\ session item = target
    /\ (forall x, In x before -> session x <> target).
Proof.
  induction data as [| d data IH]; [discriminate |].
  unfold find_exact. simpl.
  destruct (str_eqb (session d) target) eqn:E.
  - intros H. inversion H; subst. exists [], data.
    split; [reflexivity |]. split; [now apply str_eqb_eq |]. intros x [].
  - intros H. destruct (IH H) as (before & after & -> & Hs & Hb).
    exists (d :: before), after. split; [reflexivity |].
    split; [exact Hs |]. intros x [<- | Hx]; [| now apply Hb].
    intros Heq. apply str_eqb_eq in Heq. congruence.
Qed.

(** X5. An exact match in the first extraction ends the search at once.
    The record returned is the first extracted record whose label equals
    the target; after the extraction the search only logs and releases the
    session: the retry pass is not run. *)
Theorem exact_match_first_pass target (s : St) data s1 item :
  search_first s = (Ok data, s1) ->
  find_exact target data = Some item ->
  find_specific_session target s
  = (Ok (Some item), snd (release_driver (add_log s1 (LExact target))))
  /\ exists before after,
      data = before ++ item :: after
      /\ session item = target
      /\ (forall x, In x before -> session x <> target).
Proof.
  intros E1 Ex. split; [| now apply find_exact_first].
  apply find_run. unfold try_except, search_body, bind. rewrite E1.
  destruct data as [| d ds]; [discriminate |]. now rewrite Ex.
Qed.

(** X6. The retried exact match.  When the first extraction is non-empty
    without an exact match and the extraction after the retry pass holds
    one, the search returns the first re-extracted record whose label
    equals the target, and logs the retried-exact line. *)
Theorem exact_match_after_retry target (s : St) data1 s1 data2 s2 item :
  search_first s = (Ok data1, s1) ->
  data1 <> [] ->
  find_exact target data1 = None ->
  search_retry target s1 = (Ok data2, s2) ->
  find_exact target data2 = Some item ->
  find_specific_session target s
  = (Ok (Some item), snd (release_driver (add_log s2 (LRetryExact target))))
  /\ exists before after,
      data2 = before ++ item :: after
      /\ session item = target
      /\ (forall x, In x before -> session x <> target).
Proof.
  intros E1 Hne Ex1 E2 Ex2. split; [| now apply find_exact_first].
  apply find_run. unfold try_except, search_body, bind. rewrite E1.
  destruct data1 as [| d ds]; [congruence |]. rewrite Ex1, E2.
  unfold choose. destruct data2 as [| x xs]; [discriminate |].
  now rewrite Ex2.
Qed.

Lemma number_loop_nothing data : forall acc (s : St),
  candidates data = [] -> number_loop data acc s = (Ok acc, s).
Proof.
  induction data as [| item rest IH]; intros acc s Hc; [reflexivity |].
  unfold candidates in Hc. simpl in Hc. fold (candidates rest) in Hc.
  simpl. destruct (numbered item) as [[n it] |]; [discriminate |].
  now apply IH.
Qed.

(** X7. First available.  When the first extraction is non-empty without
    an exact match and the re-extracted data has no exact match and no
    record whose label contains 회 with a digit run that [int] parses, the
    search returns the first re-extracted record and logs the
    first-item line. *)
Theorem first_available target (s : St) data1 s1 first rest s2 :
  search_first s = (Ok data1, s1) ->
  data1 <> [] ->
  find_exact target data1 = None ->
  search_retry target s1 = (Ok (first :: rest), s2) ->
  find_exact target (first :: rest) = None ->
  candidates (first :: rest) = [] ->
  find_specific_session target s
  = (Ok (Some first),
     snd (release_driver (add_log s2 (LFirst (session first))))).
Proof.
  intros E1 Hne Ex1 E2 Ex2 Hc.
  apply find_run. unfold try_except, search_body, bind. rewrite E1.
  destruct data1 as [| d ds]; [congruence |]. rewrite Ex1, E2.
  unfold choose. rewrite Ex2. unfold bind.
  now rewrite (@number_loop_nothing (first :: rest) [] s2 Hc).
Qed.

(** ** Every record handed out was extracted and is well formed *)

Lemma yields_weaken {A} (m : M A) (P Q : A -> Prop) :
  yields m P -> (forall a, P a -> Q a) -> yields m Q.
Proof. intros Hm H s a s' E. apply H. eapply Hm; eauto. Qed.

Lemma yields_try_finally {A} (m : M A) c Q :
  yields m Q -> yields (try_finally m c) Q.
Proof.
  intros Hm s a s' E. unfold try_finally in E.
  destruct (m s) as [r s1] eqn:Em.
  destruct (c s1) as [[[] | e] s2]; [| discriminate].
  inversion E; subst. eapply Hm; eauto.
Qed.

Lemma navigate_and_extract_valid :
  yields navigate_and_extract (Forall valid_record).
Proof.
  unfold navigate_and_extract.
  eapply yields_bind; [apply yields_any | intros b _].
  eapply yields_bind; [apply yields_any | intros _ _].
  apply extract_valid.
Qed.

Lemma candidates_in data n r : In (n, r) (candidates data) -> In r data.
Proof.
  unfold candidates. intros H. apply in_flat_map in H.
  destruct H as (item & Hitem & Hx).
  destruct (numbered item) as [[m it] |] eqn:En; [| contradiction].
  destruct Hx as [Hx | []]. inversion Hx; subst.
  unfold numbered in En. destruct (str_in HOE (session item)); [| discriminate].
  destruct (findall_digits (session item)); [discriminate |].
  destruct (py_int p); [| discriminate]. now inversion En; subst.
Qed.

Lemma choose_in target data :
  yields (choose target data : M (option Record_))
         (fun o => forall r, o = Some r -> In r data).
Proof.
  intros s o s' E r Hr. subst o. destruct data as [| first rest].
  - discriminate.
  - unfold choose in E.
    destruct (find_exact target (first :: rest)) as [item |] eqn:Ex.
    + inversion E; subst. now apply find_exact_found in Ex.
    + unfold bind at 1 in E.
      destruct (number_loop_collects (first :: rest) [] s) as [s1 E1].
      rewrite E1 in E. cbn [app] in E.
      destruct (sort_by_key (candidates (first :: rest)))
        as [| [n lowest] l] eqn:Es.
      * inversion E; subst. now left.
      * inversion E; subst. apply candidates_in with (n := n).
        apply sort_by_key_in. rewrite Es. now left.
Qed.

Lemma search_body_valid target :
  yields (search_body target) (fun o => forall r, o = Some r -> valid_record r).
Proof.
  unfold search_body.
  eapply yields_bind with (P := Forall valid_record).
  - unfold search_first.
    eapply yields_bind; [apply yields_any | intros _ _].
    eapply yields_bind; [apply yields_any | intros _ _].
    eapply yields_bind; [apply yields_any | intros _ _].
    apply navigate_and_extract_valid.
  - intros data Hv. destruct data as [| d ds].
    + eapply yields_bind; [apply yields_any | intros _ _].
      apply yields_ret. discriminate.
    + destruct (find_exact target (d :: ds)) as [item |] eqn:Ex.
      * eapply yields_bind; [apply yields_any | intros _ _].
        apply yields_ret. intros r Hr. inversion Hr; subst.
        apply find_exact_found in Ex. rewrite Forall_forall in Hv.
        now apply Hv.
      * eapply yields_bind with (P := Forall valid_record).
        -- unfold search_retry.
           eapply yields_bind; [apply yields_any | intros _ _].
           eapply yields_bind; [apply yields_any | intros found_button _].
           eapply yields_bind; [apply yields_any | intros _ _].
           apply extract_valid.
        -- intros data2 Hv2. eapply yields_weaken; [apply choose_in |].
           intros o Ho r Hr. rewrite Forall_forall in Hv2. apply Hv2.
           now apply Ho.
Qed.

Lemma find_valid target :
  yields (find_specific_session target)
         (fun o => forall r, o = Some r -> valid_record r).
Proof.
  apply yields_try_finally. apply yields_try_except.
  - apply search_body_valid.
  - intros e. eapply yields_bind; [apply yields_any | intros _ _].
    apply yields_ret. discriminate.
Qed.

Lemma get_all_valid : yields get_all_exchange_rates (Forall valid_record).
Proof.
  apply yields_try_finally. apply yields_try_except.
  - eapply yields_bind; [apply yields_any | intros _ _].
    eapply yields_bind; [apply yields_any | intros _ _].
    eapply yields_bind; [apply yields_any | intros _ _].
    eapply yields_bind; [apply navigate_and_extract_valid | intros data Hv].
    destruct data.
    + eapply yields_bind; [apply yields_any | intros _ _].
      now apply yields_ret.
    + now apply yields_ret.
  - intros e. eapply yields_bind; [apply yields_any | intros _ _].
    apply yields_ret. constructor.
Qed.

(** X8. Whatever strategy fired, the record that [find_specific_session]
    returns has a non-empty label and a non-empty rate containing a digit,
    and so has every record of the list that [get_all_exchange_rates]
    returns: the invariant of extracted records carries over to what the
    crawler hands to its caller. *)
Theorem returned_records_valid (s : St) :
  (forall target r s',
      find_specific_session target s = (Ok (Some r), s') -> valid_record r)
  /\ (forall all s',
         get_all_exchange_rates s = (Ok all, s') -> Forall valid_record all).
Proof.
  split.
  - intros target r s' E. eapply find_valid; eauto.
  - intros all s' H. eapply get_all_valid; eauto.
Qed.

(** ** Session setup, the constructor and the store *)

(** X9. The two attempts of [setup_driver].  The first attempt starts
    Chrome with the explicit driver path when the crawler has one; if it
    succeeds Chrome is started once.  If it raises, the second attempt
    starts Chrome by auto-detection, without the driver path; its success
    is the success of [setup_driver], and when it raises too, the exception
    that propagates is the second one, with no session held and none
    recorded. *)
Theorem setup_driver_fallback (s : St) :
  let binary := path_truthy (chrome_path s) in
  (forall d w,
      chrome (path_truthy (driver_path s)) binary (world s) = (Ok d, w) ->
      fst (setup_driver s) = Ok tt
      /\ self_driver (snd (setup_driver s)) = Some d
      /\ world (snd (setup_driver s)) = w
      /\ trace (snd (setup_driver s)) = trace s ++ [EvSession d])
  /\ (forall e w,
         chrome (path_truthy (driver_path s)) binary (world s) = (Raise e, w) ->
         (forall d w',
             chrome None binary w = (Ok d, w') ->
             fst (setup_driver s) = Ok tt
             /\ self_driver (snd (setup_driver s)) = Some d
             /\ world (snd (setup_driver s)) = w'
             /\ trace (snd (setup_driver s)) = trace s ++ [EvSession d])
         /\ (forall e2 w',
                chrome None binary w = (Raise e2, w') ->
                fst (setup_driver s) = Raise e2
                /\ self_driver (snd (setup_driver s)) = self_driver s
                /\ world (snd (setup_driver s)) = w'
                /\ trace (snd (setup_driver s)) = trace s)).
Proof.
  intros binary. subst binary. split.
  - intros d w H.
    unfold setup_driver, try_except, bind, new_chrome, log.
    destruct (path_truthy (driver_path s)) as [p |];
      unfold bind, new_chrome, log; rewrite H; cbn; repeat split.
  - intros e w H. split.
    + intros d w' H2.
      unfold setup_driver, try_except, bind, new_chrome, log.
      destruct (path_truthy (driver_path s)) as [p |];
        unfold bind, new_chrome, log; rewrite H; cbn; rewrite H2; cbn;
        repeat split.
    + intros e2 w' H2.
      unfold setup_driver, try_except, bind, new_chrome, log, raise.
      destruct (path_truthy (driver_path s)) as [p |];
        unfold bind, new_chrome, log; rewrite H; cbn; rewrite H2; cbn;
        repeat split.
Qed.

(** X10. The constructor.  It raises exactly when [check_environment]
    raises.  Otherwise the new crawler holds no session and keeps the
    browser path that was found; a driver path that was found is replaced
    by /tmp/chromedriver when copying it there works, and is kept as found
    when the copy raises: a failed copy is logged, never fatal. *)
Theorem constructor_outcomes (s : St) :
  (forall e w,
      check_environment (world s) = (Raise e, w) ->
      fst (crawler_init s) = Raise e)
  /\ (forall cp dp w,
         check_environment (world s) = (Ok (cp, dp), w) ->
         exists s1,
           crawler_init s = (Ok tt, s1)
           /\ self_driver s1 = None
           /\ chrome_path s1 = cp
           /\ driver_path s1
              = match path_truthy dp with
                | None => dp
                | Some p =>
                    match copy_driver p w with
                    | (Ok _, _) => Some TMP_DRIVER_PATH
                    | (Raise _, _) => dp
                    end
                end).
Proof.
  split.
  - intros e w H. unfold crawler_init, bind, assign, call. cbn.
    now rewrite H.
  - intros cp dp w H. unfold crawler_init, bind, assign, call. cbn.
    rewrite H. cbn. destruct (path_truthy dp) as [p |]; cbn.
    + unfold try_except, bind, call, log, assign. cbn.
      destruct (copy_driver p w) as [[[] | e] w']; cbn;
        eexists; repeat split.
    + eexists; repeat split.
Qed.

(** X11. [save_to_s3] never raises.  For the empty list it answers false
    and does not call the store.  For a non-empty list it makes one write
    of the CSV text as text/csv, for a record one write of the record as
    application/json; it answers true exactly when that write returned,
    and false when it raised. *)
Theorem save_to_s3_outcomes data_ bucket key (s : St) :
  exists b s',
    save_to_s3 data_ bucket key s = (Ok b, s')
    /\ match data_ with
       | PList [] => b = false /\ trace s' = trace s /\ world s' = world s
       | PList (r :: rs) =>
           trace s'
           = trace s ++ [EvPut bucket key (CsvBody (csv_content (r :: rs)))
                               TextCsv]
           /\ (b = true <->
               exists w,
                 put_object bucket key (CsvBody (csv_content (r :: rs)))
                            TextCsv (world s) = (Ok tt, w))
       | PDict r =>
           trace s' = trace s ++ [EvPut bucket key (JsonBody r) ApplicationJson]
           /\ (b = true <->
               exists w,
                 put_object bucket key (JsonBody r) ApplicationJson (world s)
                 = (Ok tt, w))
       end.
Proof.
  destruct data_ as [[| r rs] | r].
  - eexists _, _. split; [reflexivity |]. cbn. repeat split.
  - rewrite save_list_run.
    destruct (put_object bucket key (CsvBody (csv_content (r :: rs))) TextCsv
                         (world s)) as [[[] | e] w] eqn:E;
      eexists _, _; (split; [reflexivity |]); (split; [reflexivity |]).
    + split; [intros _; now exists w | reflexivity].
    + split; [discriminate | intros [w' H]; discriminate].
  - rewrite save_dict_run.
    destruct (put_object bucket key (JsonBody r) ApplicationJson (world s))
      as [[[] | e] w] eqn:E;
      eexists _, _; (split; [reflexivity |]); (split; [reflexivity |]).
    + split; [intros _; now exists w | reflexivity].
    + split; [discriminate | intros [w' H]; discriminate].
Qed.

Lemma driver_get_raises (s : St) d e w :
  self_driver s = Some d ->
  drv_get d base_url (world s) = (Raise e, w) ->
  driver_get base_url s
  = (Raise e, set_world (add_event s (EvGet d base_url)) w).
Proof.
  intros Hd Hg. unfold driver_get, bind, the_driver, emit, call.
  rewrite Hd. cbn. now rewrite Hg.
Qed.

(** X12. A page that cannot be loaded.  When the session was created and
    [driver.get] raises, the search answers None and the bulk collection
    answers the empty list, without raising; in both the session is
    released, its release being the last event. *)
Theorem page_load_failure (s s1 : St) d e w :
  setup_driver s = (Ok tt, s1) ->
  self_driver s1 = Some d ->
  drv_get d base_url (world s1) = (Raise e, w) ->
  (forall target,
      fst (find_specific_session target s) = Ok None
      /\ trace (snd (find_specific_session target s))
         = trace s1 ++ [EvGet d base_url; EvQuit d])
  /\ fst (get_all_exchange_rates s) = Ok []
  /\ trace (snd (get_all_exchange_rates s))
     = trace s1 ++ [EvGet d base_url; EvQuit d].
Proof.
  intros Hs Hd Hg. pose proof (@driver_get_raises s1 d e w Hd Hg) as Hget.
  split; [intros target | ].
  - rewrite (@find_run target s (Ok None)
               (add_log (set_world (add_event s1 (EvGet d base_url)) w)
                        (LSearchError e))).
    + cbn [fst]. split; [reflexivity |].
      rewrite (@release_some _ d); [| exact Hd].
      cbn [snd trace add_log set_world add_event].
      now rewrite <- app_assoc.
    + unfold try_except, search_body, bind at 1, search_first, bind at 1.
      rewrite Hs. unfold bind at 1. now rewrite Hget.
  - unfold get_all_exchange_rates.
    rewrite (@finally_release _ _ s (Ok [])
               (add_log (set_world (add_event s1 (EvGet d base_url)) w)
                        (LCollectError e))).
    + cbn [fst]. split; [reflexivity |].
      rewrite (@release_some _ d); [| exact Hd].
      cbn [snd trace add_log set_world add_event].
      now rewrite <- app_assoc.
    + unfold try_except, bind at 1. rewrite Hs. unfold bind at 1.
      now rewrite Hget.
Qed.

(** ** The reference to a released session *)

Lemma release_keeps (s : St) :
  self_driver (snd (release_driver s)) = self_driver s.
Proof.
  unfold release_driver. destruct (self_driver s) as [d |] eqn:E; cbn; congruence.
Qed.

Lemma bind_assoc_seq {A B D} (m : M A) (k : M B) (g : B -> M D) s :
  bind (bind m (fun _ => k)) g s = bind m (fun _ => bind k g) s.
Proof. apply bind_assoc_at. Qed.

Lemma field_after_setup {A} (m rest : M A) h (s : St) :
  (forall s0, m s0 = bind setup_driver (fun _ => rest) s0) ->
  within is_browse_event rest ->
  (forall e, within no_event (h e)) ->
  self_driver (snd (try_finally (try_except m h) release_driver s))
  = self_driver (snd (setup_driver s)).
Proof.
  intros Hm Hr Hh. unfold try_finally.
  destruct (try_except m h s) as [r s1] eqn:E.
  pose proof (release_returns s1) as Hq. pose proof (release_keeps s1) as Hk.
  destruct (release_driver s1) as [[[] | e] s2]; cbn in *; [| discriminate].
  rewrite Hk. unfold try_except in E. rewrite Hm in E. unfold bind in E.
  destruct (setup_driver s) as [[[] | e] s0]; cbn [snd].
  - pose proof (Hr s0) as (Hd & _). destruct (rest s0) as [[a | e] s3];
      cbn [snd] in Hd.
    + inversion E; subst. exact Hd.
    + pose proof (Hh e s3) as (Hd' & _). rewrite E in Hd'. cbn [snd] in Hd'.
      congruence.
  - pose proof (Hh e s0) as (Hd' & _). rewrite E in Hd'. exact Hd'.
Qed.

Lemma find_after_failed_setup target (s : St) d e s1 :
  self_driver s = Some d ->
  setup_driver s = (Raise e, s1) ->
  trace (snd (find_specific_session target s)) = trace s ++ [EvQuit d].
Proof.
  intros Hd Hs. destruct (setup_driver_raises s Hs) as [Hd1 Ht1].
  rewrite (@find_run target s (Ok None) (add_log s1 (LSearchError e))).
  - rewrite (@release_some _ d); [| cbn; congruence].
    cbn [snd trace add_log set_world add_event]. now rewrite Ht1.
  - unfold try_except, search_body, bind at 1, search_first, bind at 1.
    now rewrite Hs.
Qed.

(** X13. The field [self.driver] is never cleared.  After either method
    the crawler still refers to the session that [setup_driver] left in the
    field, released or not.  So when a crawler that still refers to a
    session is used again and [setup_driver] raises, the [finally] block
    releases that earlier session once more. *)
Theorem session_reference_is_kept target (s : St) :
  self_driver (snd (find_specific_session target s))
  = self_driver (snd (setup_driver s))
  /\ self_driver (snd (get_all_exchange_rates s))
     = self_driver (snd (setup_driver s))
  /\ (forall d e s1,
         self_driver s = Some d ->
         setup_driver s = (Raise e, s1) ->
         trace (snd (find_specific_session target s)) = trace s ++ [EvQuit d]).
Proof.
  split; [| split].
  - unfold find_specific_session. eapply field_after_setup.
    + intros s0. unfold search_body, search_first. apply bind_assoc_seq.
    + frame.
    + intros e. frame.
  - unfold get_all_exchange_rates. eapply field_after_setup.
    + intros s0. reflexivity.
    + frame.
    + intros e. frame.
  - intros d e s1. apply find_after_failed_setup.
Qed.

(** ** Rows *)

Lemma row_loop_app before : forall idx rest data (s : St),
  row_loop idx (before ++ rest) data s
  = bind (row_loop idx before data)
         (fun d => row_loop (idx + List.length before) rest d) s.
Proof.
  induction before as [| row before IH]; intros idx rest data s.
  - cbn [app List.length row_loop]. unfold bind, ret. now rewrite Nat.add_0_r.
  - cbn [app List.length row_loop]. rewrite !run_bind.
    destruct (try_except_of ROW_ERRORS (extract_row row)
                (fun e => log (LRowError idx e) ;; ret None) s)
      as [[r | e] s1]; [| reflexivity].
    rewrite IH. rewrite run_bind. now rewrite Nat.add_succ_r.
Qed.

Lemma row_loop_raises idx row rest data (s : St) e s1 :
  extract_row row s = (Raise e, s1) ->
  caught_by ROW_ERRORS e = false ->
  row_loop idx (row :: rest) data s = (Raise e, s1).
Proof.
  intros H Hc. cbn [row_loop]. unfold bind at 1, try_except_of, try_except.
  rewrite H, Hc. reflexivity.
Qed.

(** X14. A row error outside the two row classes.  When rows were selected
    and the row loop has gathered records, a row whose processing raises an
    exception that is neither NoSuchElementException nor
    StaleElementReferenceException ends the extraction: the records
    gathered so far are dropped and the result is the empty list. *)
Theorem foreign_row_error_empties (s : St) t s0 before row after s1
        gathered s2 e s3 :
  drv_call (fun d => wait_present d TagTable 10) s = (Ok t, s0) ->
  select_rows SELECTORS [] s0 = (Ok (before ++ row :: after), s1) ->
  row_loop 0 before []
           (add_log s1 (LRowsTotal (List.length (before ++ row :: after))))
  = (Ok gathered, s2) ->
  extract_row row s2 = (Raise e, s3) ->
  caught_by ROW_ERRORS e = false ->
  extract_exchange_data s = (Ok [], add_log s3 (LExtractError e)).
Proof.
  intros Hw Hsel Hloop Hrow Hc.
  unfold extract_exchange_data, try_except. unfold bind at 1. rewrite Hw.
  unfold bind at 1. rewrite Hsel.
  assert (Hrows : (match before ++ row :: after with
                   | [] =>
                       rs <- drv_call (fun d => find_elements d TagTr) ;;
                       log (LRowsByTag (List.length rs)) ;; ret rs
                   | _ :: _ => ret (before ++ row :: after)
                   end : M (list Elem)) s1
                  = (Ok (before ++ row :: after), s1)).
  { destruct before; reflexivity. }
  unfold bind at 1. rewrite Hrows. unfold bind at 1, log.
  rewrite row_loop_app. unfold bind at 1. rewrite Hloop.
  rewrite (@row_loop_raises _ row after gathered s2 e s3 Hrow Hc).
  reflexivity.
Qed.

Lemma rate_loop_first cells i rest (s : St) c t w :
  nth_error cells i = Some c ->
  elem_text c (world s) = (Ok t, w) ->
  rate_loop cells (i :: rest) s
  = if any_isdigit (strip t) then (Ok (strip t), set_world s w)
    else rate_loop cells rest (set_world s w).
Proof.
  intros Hn Ht. cbn [rate_loop].
  unfold bind at 1, try_except_of, try_except, bind at 1, cell_at.
  rewrite Hn. unfold ret at 1. unfold bind at 1, call. rewrite Ht.
  destruct (any_isdigit (strip t)); reflexivity.
Qed.

(** X15. The rate column.  In a row of three cells or more the rate is the
    stripped text of the third cell when it holds a digit; the second cell
    is read only when the third holds none, and gives the rate when it
    holds a digit; when neither does, the row gives no record. *)
Theorem rate_column_priority row (s : St) c0 c1 c2 more w0 t0 w1 t2 w2 :
  elem_find_elements row TagTd (world s) = (Ok (c0 :: c1 :: c2 :: more), w0) ->
  elem_text c0 w0 = (Ok t0, w1) ->
  elem_text c2 w1 = (Ok t2, w2) ->
  (any_isdigit (strip t2) = true ->
   extract_row row s = build_record (strip t0) (strip t2) (set_world s w2))
  /\ (any_isdigit (strip t2) = false ->
      forall t1 w3,
        elem_text c1 w2 = (Ok t1, w3) ->
        (any_isdigit (strip t1) = true ->
         extract_row row s
         = build_record (strip t0) (strip t1) (set_world s w3))
        /\ (any_isdigit (strip t1) = false ->
            extract_row row s = (Ok None, set_world s w3))).
Proof.
  intros Hc H0 H2.
  assert (E : extract_row row s
              = bind (rate_loop (c0 :: c1 :: c2 :: more) [2; 1])
                     (fun rate_ => build_record (strip t0) rate_)
                     (set_world s w1)).
  { unfold extract_row, bind at 1, call. rewrite Hc.
    cbn [List.length Nat.ltb Nat.leb]. unfold bind at 1, ret at 1.
    cbn [List.length Nat.ltb Nat.leb]. unfold bind at 1, cell_at.
    cbn [nth_error]. unfold ret at 1. unfold bind at 1, call.
    cbn [world set_world]. rewrite H0. reflexivity. }
  rewrite E. split.
  - intros Hd. unfold bind.
    rewrite (@rate_loop_first (c0 :: c1 :: c2 :: more) 2 [1]
               (set_world s w1) c2 t2 w2 eq_refl H2).
    now rewrite Hd.
  - intros Hd t1 w3 H1. unfold bind.
    rewrite (@rate_loop_first (c0 :: c1 :: c2 :: more) 2 [1]
               (set_world s w1) c2 t2 w2 eq_refl H2).
    rewrite Hd.
    rewrite (@rate_loop_first (c0 :: c1 :: c2 :: more) 1 []
               (set_world (set_world s w1) w2) c1 t1 w3 eq_refl H1).
    split; intros Hd1; rewrite Hd1; [reflexivity |].
    cbn [rate_loop]. unfold ret at 1. unfold build_record.
    now rewrite andb_false_r.
Qed.

(** ** Navigation: what a reported success means *)
















(** ** The button found by its text *)

Lemma find_last_button_none links : forall (s : St) ts w,
  read_texts links (world s) = (Ok ts, w) ->
  forallb (fun t => negb (is_last_label t)) ts = true ->
  find_last_button links s = (Ok None, set_world s w).
Proof.
  induction links as [| link rest IH]; intros s ts w Hr Hn.
  - cbn in Hr. inversion Hr; subst. cbn. unfold ret.
    now rewrite set_world_same.
  - cbn [read_texts] in Hr. cbn [find_last_button].
    unfold bind at 1, call.
    destruct (elem_text link (world s)) as [[t | e] w1]; [| discriminate].
    destruct (read_texts rest w1) as [[ts' | e] w2] eqn:Er; [| discriminate].
    inversion Hr; subst. cbn [forallb] in Hn.
    apply andb_true_iff in Hn. destruct Hn as [Ht Hn].
    unfold is_last_label in Ht. apply negb_true_iff in Ht. rewrite Ht.
    rewrite (IH (set_world s w1) ts' w Er Hn). reflexivity.
Qed.

(** X17. The button found by its text.  Among the pagination links
    [find_last_button] returns the first one whose stripped text is one of
    the five last-page labels, and reads no link after it; when the text of
    every link was read and none is such a label it returns None. *)
Theorem find_last_button_first before b after (s : St) ts w1 t w2 :
  read_texts before (world s) = (Ok ts, w1) ->
  forallb (fun t => negb (is_last_label t)) ts = true ->
  (elem_text b w1 = (Ok t, w2) ->
   is_last_label t = true ->
   find_last_button (before ++ b :: after) s = (Ok (Some b), set_world s w2))
  /\ find_last_button before s = (Ok None, set_world s w1).
Proof.
  intros Hr Hn. split; [| now apply find_last_button_none with (ts := ts)].
  revert s ts w1 Hr Hn.
  induction before as [| link rest IH]; intros s ts w1 Hr Hn Ht Hl.
  - cbn in Hr. inversion Hr; subst. cbn [app find_last_button].
    unfold bind at 1, call. rewrite Ht. unfold is_last_label in Hl.
    now rewrite Hl.
  - cbn [read_texts] in Hr. cbn [app find_last_button].
    unfold bind at 1, call.
    destruct (elem_text link (world s)) as [[t' | e] w'] eqn:El; [| discriminate].
    destruct (read_texts rest w') as [[ts' | e] w''] eqn:Er; [| discriminate].
    inversion Hr; subst. cbn [forallb] in Hn.
    apply andb_true_iff in Hn. destruct Hn as [Ht' Hn].
    unfold is_last_label in Ht'. apply negb_true_iff in Ht'. rewrite Ht'.
    rewrite (IH (set_world s w') ts' w1 Er Hn Ht Hl). reflexivity.
Qed.

(** ** The CSV text can be read back *)

Lemma split_at_sep (c : N) a : forall a' x x',
  ~ In c a -> ~ In c a' ->
  a ++ c :: x = a' ++ c :: x' -> a = a' /\ x = x'.
Proof.
  induction a as [| h a IH]; intros [| h' a'] x x' Ha Ha' E; cbn in E.
  - inversion E. now split.
  - inversion E; subst. exfalso. apply Ha'. now left.
  - inversion E; subst. exfalso. apply Ha. now left.
  - inversion E; subst.
    destruct (IH a' x x') as [-> ->]; auto.
    + intros H. apply Ha. now right.
    + intros H. apply Ha'. now right.
Qed.

Lemma plain_field_spec s :
  plain_field s = true -> ~ In 44%N s /\ ~ In 10%N s.
Proof.
  unfold plain_field. rewrite forallb_forall. intros H.
  split; intros Hin; apply H in Hin; discriminate.
Qed.

Lemma COMMA_is : COMMA = [44%N].
Proof. reflexivity. Qed.

Lemma csv_row_shape r :
  csv_row r = session r ++ 44%N :: rate r ++ 44%N :: collected r.
Proof. unfold csv_row. rewrite COMMA_is. reflexivity. Qed.

Lemma csv_row_injective r1 r2 :
  plain_record r1 = true -> plain_record r2 = true ->
  csv_row r1 = csv_row r2 -> r1 = r2.
Proof.
  unfold plain_record. rewrite !andb_true_iff.
  intros [[Hs1 Hr1] _] [[Hs2 Hr2] _]. rewrite !csv_row_shape. intros E.
  apply plain_field_spec in Hs1, Hr1, Hs2, Hr2.
  apply split_at_sep in E; [| tauto | tauto]. destruct E as [Es E].
  apply split_at_sep in E; [| tauto | tauto]. destruct E as [Er Ec].
  destruct r1, r2; cbn in *; congruence.
Qed.

Lemma csv_row_one_line r : plain_record r = true -> ~ In 10%N (csv_row r).
Proof.
  unfold plain_record. rewrite !andb_true_iff. intros [[Hs Hr] Hc].
  apply plain_field_spec in Hs, Hr, Hc. rewrite csv_row_shape.
  rewrite in_app_iff. cbn [In]. rewrite in_app_iff. cbn [In].
  intros [H | [H | [H | [H | H]]]]; try tauto; discriminate.
Qed.

Lemma csv_row_not_empty r : csv_row r <> [].
Proof.
  rewrite csv_row_shape. intros H. apply app_eq_nil in H.
  destruct H as [_ H]. discriminate.
Qed.

Lemma join_lines_injective rows1 : forall rows2,
  Forall (fun r => r <> [] /\ ~ In 10%N r) rows1 ->
  Forall (fun r => r <> [] /\ ~ In 10%N r) rows2 ->
  join NL rows1 = join NL rows2 -> rows1 = rows2.
Proof.
  unfold NL.
  induction rows1 as [| a l IH]; intros [| a' l'] H1 H2 E.
  - reflexivity.
  - exfalso. inversion H2 as [| ? ? [Hne _] _]; subst.
    destruct l' as [| b' l'']; cbn in E; [congruence |].
    symmetry in E. apply app_eq_nil in E. tauto.
  - exfalso. inversion H1 as [| ? ? [Hne _] _]; subst.
    destruct l as [| b l'']; cbn in E; [congruence |].
    apply app_eq_nil in E. tauto.
  - inversion H1 as [| ? ? [Hne Hnl] Hl]; subst.
    inversion H2 as [| ? ? [Hne' Hnl'] Hl']; subst.
    destruct l as [| b l1]; destruct l' as [| b' l1'].
    + cbn in E. congruence.
    + exfalso. cbn [join] in E. apply Hnl. rewrite E.
      rewrite in_app_iff. right. now left.
    + exfalso. cbn [join] in E. apply Hnl'. rewrite <- E.
      rewrite in_app_iff. right. now left.
    + change (join [10%N] (a :: b :: l1))
        with (a ++ 10%N :: join [10%N] (b :: l1)) in E.
      change (join [10%N] (a' :: b' :: l1'))
        with (a' ++ 10%N :: join [10%N] (b' :: l1')) in E.
      apply split_at_sep in E; [| assumption | assumption].
      destruct E as [-> E]. f_equal. now apply IH.
Qed.

Lemma map_csv_row_injective l1 : forall l2,
  forallb plain_record l1 = true -> forallb plain_record l2 = true ->
  List.map csv_row l1 = List.map csv_row l2 -> l1 = l2.
Proof.
  induction l1 as [| r1 l1 IH]; intros [| r2 l2] H1 H2 E;
    try discriminate; [reflexivity |].
  cbn in H1, H2. apply andb_true_iff in H1, H2.
  destruct H1 as [P1 H1], H2 as [P2 H2]. cbn [List.map] in E.
  inversion E as [[Er El]]. f_equal.
  - now apply csv_row_injective.
  - now apply IH.
Qed.

Lemma csv_rows_lines l :
  forallb plain_record l = true ->
  Forall (fun r => r <> [] /\ ~ In 10%N r) (List.map csv_row l).
Proof.
  intros H. apply Forall_forall. intros x Hx. apply in_map_iff in Hx.
  destruct Hx as (r & <- & Hr). rewrite forallb_forall in H.
  split; [apply csv_row_not_empty | apply csv_row_one_line; now apply H].
Qed.

Lemma csv_lines_injective (header : pystr) l1 l2 :
  forallb plain_record l1 = true ->
  forallb plain_record l2 = true ->
  header ++ join NL (List.map csv_row l1) = header ++ join NL (List.map csv_row l2) ->
  l1 = l2.
Proof.
  intros H1 H2 E. apply app_inv_head in E.
  apply map_csv_row_injective; [exact H1 | exact H2 |].
  apply join_lines_injective;
    [apply csv_rows_lines; exact H1 | apply csv_rows_lines; exact H2 | exact E].
Qed.

Lemma csv_content_eq l :
  csv_content l = CSV_HEADER ++ join NL (List.map csv_row l).
Proof. unfold csv_content. reflexivity. Qed.

(** X18. The CSV text determines the records.  On lists of records whose
    three fields hold neither a comma nor a line feed, [csv_content] is
    injective: two lists with the same CSV text are the same list, so the
    export loses nothing on such data. *)
Theorem csv_content_injective l1 l2 :
  forallb plain_record l1 = true ->
  forallb plain_record l2 = true ->
  csv_content l1 = csv_content l2 ->
  l1 = l2.
Proof.
  intros H1 H2 E. rewrite !csv_content_eq in E.
  exact (@csv_lines_injective CSV_HEADER l1 l2 H1 H2 E).
Qed.

(** ** What the handler stores and reports *)


(** ** Provenance and order of the records *)

Lemma row_loop_extends rows : forall idx data (s : St) out s',
  row_loop idx rows data s = (Ok out, s') ->
  exists added,
    out = data ++ added /\ List.length added <= List.length rows.
Proof.
  induction rows as [| row rest IH]; intros idx data s out s' E.
  - cbn in E. inversion E; subst. exists []. split; [now rewrite app_nil_r |].
    apply Nat.le_refl.
  - cbn [row_loop] in E. unfold bind at 1 in E.
    destruct (try_except_of ROW_ERRORS (extract_row row)
                (fun e => log (LRowError idx e) ;; ret None) s)
      as [[r | e] s1]; [| discriminate].
    apply IH in E. destruct E as (added & -> & Hlen). destruct r as [item |].
    + exists (item :: added). split; [now rewrite <- app_assoc |].
      cbn [List.length]. now apply le_n_S.
    + exists added. split; [reflexivity |]. cbn [List.length].
      now apply Nat.le_le_succ_r.
Qed.

(** X22. The row loop only appends.  When the row loop returns, its
    result is the list it started from followed by the records of the rows
    in row order, at most one record per row: a record already gathered is
    never dropped, changed or moved by a later row, and processing the rows
    [before ++ after] is processing [before] and then [after]. *)
Theorem row_loop_appends idx (s : St) :
  (forall rows data out s',
      row_loop idx rows data s = (Ok out, s') ->
      exists added,
        out = data ++ added /\ List.length added <= List.length rows)
  /\ (forall before after data,
         row_loop idx (before ++ after) data s
         = bind (row_loop idx before data)
                (fun d => row_loop (idx + List.length before) after d) s).
Proof.
  split.
  - intros rows data out s' E. eapply row_loop_extends; eauto.
  - intros before after data. apply row_loop_app.
Qed.

(** X23. A returned record was extracted.  The record that
    [find_specific_session] returns is the exact match of the first
    extraction, or else a record of the extraction made after the retry
    pass: the search never returns a record of the first extraction once
    the retry pass has run, and never builds one. *)
Theorem returned_record_was_extracted target (s : St) r s' data1 s1 :
  find_specific_session target s = (Ok (Some r), s') ->
  search_first s = (Ok data1, s1) ->
  find_exact target data1 = Some r
  \/ (find_exact target data1 = None
      /\ exists data2 s2,
          search_retry target s1 = (Ok data2, s2) /\ In r data2).
Proof.
  intros E H1.
  destruct (try_except (search_body target)
                       (fun e => log (LSearchError e) ;; ret None) s)
    as [r0 sx] eqn:Eb.
  rewrite (@find_run target s r0 sx Eb) in E. inversion E; subst r0.
  clear E. unfold try_except, search_body in Eb. unfold bind at 1 in Eb.
  rewrite H1 in Eb. destruct data1 as [| d ds]; [discriminate |].
  destruct (find_exact target (d :: ds)) as [item |] eqn:Ex.
  - left. cbn in Eb. now inversion Eb.
  - right. split; [reflexivity |].
    destruct (search_retry_returns target s1) as (data2 & s2 & E2).
    exists data2, s2. split; [exact E2 |].
    unfold bind at 1 in Eb. rewrite E2 in Eb.
    destruct (choose target data2 s2) as [[o | e] s3] eqn:Ec.
    + inversion Eb; subst o.
      exact (@choose_in target data2 s2 (Some r) s3 Ec r eq_refl).
    + discriminate.
Qed.

End Proofs.

(** * The probe of the environment *)

Section EnvironmentProofs.
Context {W : Type} {P : Environment.Probe W}.
Import Environment.

Lemma probe_paths_skips before : forall rest (w w1 : W),
  all_missing before w = (true, w1) ->
  probe_paths (before ++ rest) w = probe_paths rest w1.
Proof.
  induction before as [| path before IH]; intros rest w w1 H.
  - cbn in H. now inversion H.
  - cbn [all_missing] in H. cbn [app probe_paths].
    destruct (path_exists path w) as [[|] w0]; [discriminate |].
    now apply IH.
Qed.

(** X19. The first path that exists.  Of the candidate paths the probe
    takes the first one that exists and asks about no later one; a failure
    of the version subprocess is absorbed, a failure of [os.stat] on the
    path found propagates; when no path exists the answer is None, which is
    not an error. *)
Theorem probe_takes_first_existing before path after (w w1 w2 : W) :
  all_missing before w = (true, w1) ->
  (path_exists path w1 = (true, w2) ->
   (forall mode w3,
       stat_mode path w2 = (Ok mode, w3) ->
       probe_paths (before ++ path :: after) w
       = (Ok (Some path), snd (run_version path w3)))
   /\ (forall e w3,
          stat_mode path w2 = (Raise e, w3) ->
          probe_paths (before ++ path :: after) w = (Raise e, w3)))
  /\ probe_paths before w = (Ok None, w1).
Proof.
  intros H. split.
  - intros He. rewrite (@probe_paths_skips before (path :: after) w w1 H).
    cbn [probe_paths]. rewrite He. split.
    + intros mode w3 Hs. now rewrite Hs.
    + intros e w3 Hs. now rewrite Hs.
  - rewrite <- (app_nil_r before) at 1.
    now rewrite (@probe_paths_skips before [] w w1 H).
Qed.

Lemma probe_paths_total paths : forall w : W,
  (forall path (w0 : W), exists mode w1, stat_mode path w0 = (Ok mode, w1)) ->
  exists found w',
    probe_paths paths w = (Ok found, w')
    /\ (forall path, found = Some path -> In path paths).
Proof.
  induction paths as [| path rest IH]; intros w Hs.
  - exists None, w. split; [reflexivity | discriminate].
  - cbn [probe_paths]. destruct (path_exists path w) as [[|] w1].
    + destruct (Hs path w1) as (mode & w2 & E). rewrite E.
      eexists _, _. split; [reflexivity |].
      intros p Hp. inversion Hp; subst. now left.
    + destruct (IH w1 Hs) as (found & w' & E & Hin).
      exists found, w'. split; [exact E |].
      intros p Hp. right. now apply Hin.
Qed.

(** X20. What the probe answers.  When [os.stat] does not raise,
    [check_environment] returns: a failure to list /opt and a failure of a
    version subprocess never escape it.  Each path it answers is one of the
    candidates of its list, and a browser or a driver that is not found is
    answered as None, not raised. *)
Theorem check_environment_answers (w : W) :
  (forall path (w0 : W), exists mode w1, stat_mode path w0 = (Ok mode, w1)) ->
  exists chrome_path driver_path w',
    Environment.check_environment w = (Ok (chrome_path, driver_path), w')
    /\ (forall path, chrome_path = Some path -> In path CHROME_PATHS)
    /\ (forall path, driver_path = Some path -> In path CHROMEDRIVER_PATHS).
Proof.
  intros Hs. unfold Environment.check_environment.
  destruct (@probe_paths_total CHROME_PATHS
              (snd (listdir (utf8 "/opt") w)) Hs) as (cp & w1 & E1 & H1).
  rewrite E1.
  destruct (@probe_paths_total CHROMEDRIVER_PATHS w1 Hs) as (dp & w2 & E2 & H2).
  rewrite E2. eexists _, _, _. split; [reflexivity |]. split; assumption.
Qed.

End EnvironmentProofs.


(** * Runs on the scripted collaborator *)

Import Fake.

(** C1, counterexample.  The first extraction finds the 5회 row, the retry
    pass clicks the control a[3], the table is empty afterwards, and the
    search answers None although one stage extracted a record. *)
Lemma not_found_despite_a_record :
  fst (search_first (start w_vanishing)) = Ok [rec_of "5회" "1300.5"]
  /\ fst (search_retry (utf8 "7회") (snd (search_first (start w_vanishing))))
     = Ok []
  /\ fst (find_specific_session (utf8 "7회") (start w_vanishing)) = Ok None.
Proof. repeat split; vm_compute; reflexivity. Qed.

(** C2, counterexample.  The label "2" contains the digit run 2, below the
    5 of "5회", yet the search returns the 5회 record: a label without the
    character 회 is no candidate. *)
Lemma bare_number_is_not_chosen :
  fst (search_first (start w_bare_number))
  = Ok [rec_of "2" "1299.0"; rec_of "5회" "1300.5"]
  /\ option_map py_int (hd_error (findall_digits (utf8 "2"))) = Some (Some 2%Z)
  /\ option_map py_int (hd_error (findall_digits (utf8 "5회"))) = Some (Some 5%Z)
  /\ fst (find_specific_session (utf8 "7회") (start w_bare_number))
     = Ok (Some (rec_of "5회" "1300.5")).
Proof. repeat split; vm_compute; reflexivity. Qed.

(** The rounds 5, 2 and 9 with target 7회: the 2회 record is chosen. *)
Lemma numeric_fallback_minimum_witness :
  candidates [rec_of "5회" "1300.5"; rec_of "2회" "1301.0"; rec_of "9회" "1302"]
  = [(5%Z, rec_of "5회" "1300.5")] ++ (2%Z, rec_of "2회" "1301.0")
      :: [(9%Z, rec_of "9회" "1302")]
  /\ exists s3,
      search_body (utf8 "7회") (start w_three)
      = (Ok (Some (rec_of "2회" "1301.0")),
         add_log s3 (LLowest (utf8 "2회") 2))
      /\ find_specific_session (utf8 "7회") (start w_three)
         = (Ok (Some (rec_of "2회" "1301.0")),
            snd (release_driver (add_log s3 (LLowest (utf8 "2회") 2))))
      /\ In (rec_of "2회" "1301.0")
            [rec_of "5회" "1300.5"; rec_of "2회" "1301.0"; rec_of "9회" "1302"]
      /\ numbered (rec_of "2회" "1301.0") = Some (2%Z, rec_of "2회" "1301.0").
Proof.
  split; [vm_compute; reflexivity |].
  refine (@numeric_fallback_minimum _ _ _ runtime collab
            (utf8 "7회") (start w_three)
            [rec_of "5회" "1300.5"; rec_of "2회" "1301.0"; rec_of "9회" "1302"]
            (snd (search_first (start w_three)))
            [rec_of "5회" "1300.5"; rec_of "2회" "1301.0"; rec_of "9회" "1302"]
            (snd (search_retry (utf8 "7회") (snd (search_first (start w_three)))))
            [(5%Z, rec_of "5회" "1300.5")] 2%Z (rec_of "2회" "1301.0")
            [(9%Z, rec_of "9회" "1302")] _ _ _ _ _ _ _ _).
  - vm_compute; reflexivity.
  - discriminate.
  - vm_compute; reflexivity.
  - vm_compute; reflexivity.
  - vm_compute; reflexivity.
  - vm_compute; reflexivity.
  - intros x [Hx | []]. subst x. simpl. lia.
  - intros x [Hx | []]. subst x. simpl. lia.
Defined.

(** C3, counterexample.  Chrome cannot be started, [setup_driver] raises,
    and the handler answers 200, not 500. *)
Lemma setup_failure_answers_200 :
  fst (setup_driver (start w_no_browser)) = Raise unreachable
  /\ fst (handler (ask "1회") (start w_no_browser))
     = Ok (mkResponse 200
             (ResultBody (mkResult false (msg_not_found (utf8 "1회"))
                                   (utf8 "2024-05-01 09:00:00") None None)))
  /\ fst (handler ask_all (start w_no_browser))
     = Ok (mkResponse 200
             (ResultBody (mkResult false MSG_NO_DATA
                                   (utf8 "2024-05-01 09:00:00") None None))).
Proof. repeat split; vm_compute; reflexivity. Qed.

(** The absorbed failure on the world without a browser. *)
Lemma setup_failure_is_absorbed_witness :
  exists s',
    handler (ask "1회") (start w_no_browser)
    = (Ok (mkResponse 200
             (ResultBody (mkResult false (msg_not_found (utf8 "1회"))
                                   (utf8 "2024-05-01 09:00:00") None None))),
       s')
    /\ trace s' = [].
Proof.
  refine (@setup_failure_is_absorbed _ _ _ runtime collab
            (ask "1회") (start w_no_browser)
            (snd (crawler_init (start w_no_browser)))
            (utf8 "2024-05-01 09:00:00") w_no_browser unreachable
            (snd (setup_driver
                    (add_log (set_world (snd (crawler_init (start w_no_browser)))
                                        w_no_browser)
                             (LSearchStart (utf8 "1회"))))) _ _ _);
    vm_compute; reflexivity.
Defined.

(** Of five rows, the two well-formed ones give the two valid records. *)
Lemma extracted_records_valid_witness :
  extract_exchange_data (ready w_rows)
  = (Ok [rec_of "1회" "1300.5"; rec_of "3회" "1,302.0"],
     snd (extract_exchange_data (ready w_rows)))
  /\ Forall valid_record [rec_of "1회" "1300.5"; rec_of "3회" "1,302.0"].
Proof.
  assert (E : extract_exchange_data (ready w_rows)
              = (Ok [rec_of "1회" "1300.5"; rec_of "3회" "1,302.0"],
                 snd (extract_exchange_data (ready w_rows))))
    by (vm_compute; reflexivity).
  split; [exact E |].
  exact (proj1 (@extracted_records_valid _ _ _ runtime collab _ _ _ E)).
Defined.

(** The stale second row is logged and the loop goes on with the third. *)
Lemma extract_total_row_local_witness :
  extract_row StaleRow (ready w_rows) = (Raise stale, ready w_rows)
  /\ caught_by ROW_ERRORS stale = true
  /\ row_loop 1 [StaleRow; row2 "3회" "1,302.0"] [rec_of "1회" "1300.5"]
              (ready w_rows)
     = row_loop 2 [row2 "3회" "1,302.0"] [rec_of "1회" "1300.5"]
                (add_log (ready w_rows) (LRowError 1 stale)).
Proof.
  assert (E : extract_row StaleRow (ready w_rows) = (Raise stale, ready w_rows))
    by (vm_compute; reflexivity).
  assert (K : caught_by ROW_ERRORS stale = true) by reflexivity.
  split; [exact E |]. split; [exact K |].
  exact (proj1 (proj2 (proj2
           (@extract_total_row_local _ _ _ runtime collab (ready w_rows))))
           1 StaleRow [row2 "3회" "1,302.0"] [rec_of "1회" "1300.5"]
           stale (ready w_rows) E K).
Defined.

(** C7, counterexample.  The bulk write is refused with the text
    AccessDenied after one record was collected: the response carries the
    fixed message and no data. *)
Lemma bulk_failure_hides_data :
  fst (get_all_exchange_rates
         (snd (log LCollectAllStart (start w_store_down))))
  = Ok [rec_of "1회" "1300.5"]
  /\ fst (handler ask_all (start w_store_down))
     = Ok (mkResponse 200
             (ResultBody (mkResult false MSG_SAVE_FAILED
                                   (utf8 "2024-05-01 09:00:00") None None)))
  /\ In (LSaveError denied) (logs (snd (handler ask_all (start w_store_down))))
  /\ MSG_SAVE_FAILED <> exn_str denied.
Proof.
  split; [vm_compute; reflexivity |].
  split; [vm_compute; reflexivity |].
  split.
  - vm_compute. repeat (first [left; reflexivity | right]).
  - vm_compute. discriminate.
Qed.

(** Single mode with the store down: the found record stays in data. *)
Lemma storage_failure_response_witness :
  fst (handler (ask "1회") (start w_store_down))
  = Ok (mkResponse 200
          (ResultBody (mkResult false MSG_SAVE_FAILED
                                (utf8 "2024-05-01 09:00:00")
                                (Some (rec_of "1회" "1300.5")) None)))
  /\ In (LSaveError denied)
        (logs (snd (handler (ask "1회") (start w_store_down)))).
Proof.
  refine (proj1 (@storage_failure_response _ _ _ runtime collab
                   (ask "1회") (start w_store_down)
                   (snd (crawler_init (start w_store_down)))
                   (utf8 "2024-05-01 09:00:00") w_store_down _ _)
                (rec_of "1회" "1300.5")
                (snd (find_specific_session (utf8 "1회")
                        (add_log (set_world
                                    (snd (crawler_init (start w_store_down)))
                                    w_store_down)
                                 (LSearchStart (utf8 "1회")))))
                (utf8 "20240501_090000") w_store_down denied w_store_down
                _ _ _ _);
    vm_compute; reflexivity.
Defined.

(** Anchors 1, 7 and an arrow: the jump goes to page 17. *)
Lemma numeric_estimate_jump_witness :
  let jump := ScriptSetHref (page_href 17) in
  In 7%Z (numeric_labels [utf8 "1"; utf8 "7"; utf8 ">"])
  /\ (forall n, In n (numeric_labels [utf8 "1"; utf8 "7"; utf8 ">"]) ->
                (n <= 7)%Z)
  /\ exists b s',
      nav_attempt3 (ready w_three) = (Ok b, s')
      /\ trace s' = [EvScript tt jump]
      /\ (b = true <-> exists w3, execute_script tt jump w_three = (Ok tt, w3)).
Proof.
  refine (proj1 (proj2 (@numeric_estimate_jump _ _ _ runtime collab
                          (ready w_three)))
                tt (List.map Anchor [utf8 "1"; utf8 "7"; utf8 ">"]) w_three
                [utf8 "1"; utf8 "7"; utf8 ">"] w_three _ _ _ _);
    vm_compute; reflexivity.
Defined.

(** The header and one line, without a trailing newline. *)
Lemma bulk_export_serialization_witness :
  [rec_of "1회" "1300.5"] <> []
  /\ csv_content [rec_of "1회" "1300.5"]
     = utf8 "고시회차,현재가 환율,수집일시" ++ [10%N]
            ++ utf8 "1회,1300.5,2024-05-01 09:00:00".
Proof.
  assert (H : [rec_of "1회" "1300.5"] <> []) by discriminate.
  split; [exact H |].
  exact (proj1 (bulk_export_serialization (C := collab) H)).
Defined.

(** Target 7회, found "2 회" by the numeric fallback: the key carries 2_회. *)
Lemma single_key_from_found_label_witness :
  fst (find_specific_session (utf8 "7회")
         (snd (log (LSearchStart (utf8 "7회")) (start w_spaced))))
  = Ok (Some (rec_of "2 회" "1301.0"))
  /\ In (EvPut (utf8 "exchange-rate-crawler-bucket")
               (utf8 "exchange_rate_2_회_20240501_090000.json")
               (JsonBody (rec_of "2 회" "1301.0")) ApplicationJson)
        (trace (snd (handler (ask "7회") (start w_spaced)))).
Proof.
  split; [vm_compute; reflexivity |].
  assert (H : trace (snd (handler (ask "7회") (start w_spaced)))
              = trace (snd (find_specific_session (utf8 "7회")
                              (add_log (set_world
                                          (snd (crawler_init (start w_spaced)))
                                          w_spaced)
                                       (LSearchStart (utf8 "7회")))))
                  ++ [EvPut (event_bucket (ask "7회"))
                            (single_file_name (session (rec_of "2 회" "1301.0"))
                                              (utf8 "20240501_090000"))
                            (JsonBody (rec_of "2 회" "1301.0")) ApplicationJson]).
  { refine (proj1 (@single_key_from_found_label _ _ _ runtime collab
                     (ask "7회") (start w_spaced)
                     (snd (crawler_init (start w_spaced)))
                     (utf8 "2024-05-01 09:00:00") w_spaced
                     (rec_of "2 회" "1301.0")
                     (snd (find_specific_session (utf8 "7회")
                             (add_log (set_world
                                         (snd (crawler_init (start w_spaced)))
                                         w_spaced)
                                      (LSearchStart (utf8 "7회")))))
                     (utf8 "20240501_090000") w_spaced _ _ _ _ _));
      vm_compute; reflexivity. }
  rewrite H. apply in_or_app. right. left. vm_compute. reflexivity.
Defined.

(** * Further runs *)

#[local] Existing Instance Flaky.collab.
#[local] Existing Instance Environment.listed.

(** The third of the rows of [w_rows] that give a record is found at once. *)
Lemma exact_match_first_pass_witness :
  find_specific_session (utf8 "3회") (start w_rows)
  = (Ok (Some (rec_of "3회" "1,302.0")),
     snd (release_driver
            (add_log (snd (search_first (start w_rows)))
                     (LExact (utf8 "3회")))))
  /\ exists before after,
      [rec_of "1회" "1300.5"; rec_of "3회" "1,302.0"]
      = before ++ rec_of "3회" "1,302.0" :: after
      /\ session (rec_of "3회" "1,302.0") = utf8 "3회"
      /\ (forall x, In x before -> session x <> utf8 "3회").
Proof.
  refine (@exact_match_first_pass _ _ _ runtime collab
            (utf8 "3회") (start w_rows)
            [rec_of "1회" "1300.5"; rec_of "3회" "1,302.0"]
            (snd (search_first (start w_rows)))
            (rec_of "3회" "1,302.0") _ _);
    vm_compute; reflexivity.
Defined.

(** The retry pass clicks a[3] and the 7회 row appears. *)
Lemma exact_match_after_retry_witness :
  find_specific_session (utf8 "7회") (start Scenes.w_next)
  = (Ok (Some (rec_of "7회" "1299.9")),
     snd (release_driver
            (add_log (snd (search_retry (utf8 "7회")
                             (snd (search_first (start Scenes.w_next)))))
                     (LRetryExact (utf8 "7회")))))
  /\ exists before after,
      [rec_of "7회" "1299.9"] = before ++ rec_of "7회" "1299.9" :: after
      /\ session (rec_of "7회" "1299.9") = utf8 "7회"
      /\ (forall x, In x before -> session x <> utf8 "7회").
Proof.
  refine (@exact_match_after_retry _ _ _ runtime collab
            (utf8 "7회") (start Scenes.w_next)
            [rec_of "5회" "1300.5"]
            (snd (search_first (start Scenes.w_next)))
            [rec_of "7회" "1299.9"]
            (snd (search_retry (utf8 "7회")
                    (snd (search_first (start Scenes.w_next)))))
            (rec_of "7회" "1299.9") _ _ _ _ _);
    try discriminate; vm_compute; reflexivity.
Defined.

(** After the retry pass no label is the target or carries a number: the
    first row is returned. *)
Lemma first_available_witness :
  find_specific_session (utf8 "7회") (start Scenes.w_unnumbered)
  = (Ok (Some (rec_of "latest" "1299.9")),
     snd (release_driver
            (add_log (snd (search_retry (utf8 "7회")
                             (snd (search_first (start Scenes.w_unnumbered)))))
                     (LFirst (session (rec_of "latest" "1299.9")))))).
Proof.
  refine (@first_available _ _ _ runtime collab
            (utf8 "7회") (start Scenes.w_unnumbered)
            [rec_of "5회" "1300.5"]
            (snd (search_first (start Scenes.w_unnumbered)))
            (rec_of "latest" "1299.9") [rec_of "older" "1298.0"]
            (snd (search_retry (utf8 "7회")
                    (snd (search_first (start Scenes.w_unnumbered)))))
            _ _ _ _ _ _);
    try discriminate; vm_compute; reflexivity.
Defined.

(** The substitute for 7회 and the three collected records are valid. *)
Lemma returned_records_valid_witness :
  valid_record (rec_of "2회" "1301.0")
  /\ Forall valid_record
            [rec_of "5회" "1300.5"; rec_of "2회" "1301.0"; rec_of "9회" "1302"].
Proof.
  split.
  - refine (proj1 (@returned_records_valid _ _ _ runtime collab
                     (start w_three))
                  (utf8 "7회") (rec_of "2회" "1301.0")
                  (snd (find_specific_session (utf8 "7회") (start w_three))) _);
      vm_compute; reflexivity.
  - refine (proj2 (@returned_records_valid _ _ _ runtime collab
                     (start w_three))
                  [rec_of "5회" "1300.5"; rec_of "2회" "1301.0";
                   rec_of "9회" "1302"]
                  (snd (get_all_exchange_rates (start w_three))) _);
      vm_compute; reflexivity.
Defined.

(** Chrome fails with the explicit driver and starts by auto-detection. *)
Lemma setup_driver_fallback_witness :
  fst (setup_driver Scenes.s_explicit) = Ok tt
  /\ self_driver (snd (setup_driver Scenes.s_explicit)) = Some tt
  /\ trace (snd (setup_driver Scenes.s_explicit)) = [EvSession tt].
Proof.
  assert (H1 : chrome (path_truthy (driver_path Scenes.s_explicit))
                      (path_truthy (chrome_path Scenes.s_explicit))
                      Scenes.w_bad_service
               = (Raise Flaky.no_service, Scenes.w_bad_service))
    by (vm_compute; reflexivity).
  assert (H2 : chrome None (path_truthy (chrome_path Scenes.s_explicit))
                      Scenes.w_bad_service
               = (Ok tt, Scenes.w_bad_service))
    by (vm_compute; reflexivity).
  destruct (proj1 (proj2 (@setup_driver_fallback _ _ _ Flaky.collab
                            Scenes.s_explicit)
                         Flaky.no_service Scenes.w_bad_service H1)
                  tt Scenes.w_bad_service H2) as (A & B & _ & D).
  exact (conj A (conj B D)).
Defined.

(** The copy of the driver fails: the constructor returns and keeps the
    path that was found. *)
Lemma constructor_outcomes_witness :
  exists s1,
    crawler_init (Flaky.start Scenes.w_copy_fails) = (Ok tt, s1)
    /\ self_driver s1 = None
    /\ chrome_path s1 = Some (utf8 "/opt/chrome/chrome")
    /\ driver_path s1 = Some (utf8 "/opt/chromedriver").
Proof.
  assert (H : check_environment Scenes.w_copy_fails
              = (Ok (Some (utf8 "/opt/chrome/chrome"),
                     Some (utf8 "/opt/chromedriver")), Scenes.w_copy_fails))
    by (vm_compute; reflexivity).
  destruct (proj2 (@constructor_outcomes _ _ _ Flaky.collab
                     (Flaky.start Scenes.w_copy_fails))
                  _ _ _ H) as (s1 & E & A & B & D).
  exists s1. split; [exact E |]. split; [exact A |]. split; [exact B |].
  rewrite D. vm_compute. reflexivity.
Defined.

(** The page load fails: nothing is found, the session is released. *)
Lemma page_load_failure_witness :
  (forall target,
      fst (find_specific_session target (Flaky.start Scenes.w_no_page))
      = Ok None
      /\ trace (snd (find_specific_session target
                       (Flaky.start Scenes.w_no_page)))
         = trace (snd (setup_driver (Flaky.start Scenes.w_no_page)))
             ++ [EvGet tt base_url; EvQuit tt])
  /\ fst (get_all_exchange_rates (Flaky.start Scenes.w_no_page)) = Ok []
  /\ trace (snd (get_all_exchange_rates (Flaky.start Scenes.w_no_page)))
     = trace (snd (setup_driver (Flaky.start Scenes.w_no_page)))
         ++ [EvGet tt base_url; EvQuit tt].
Proof.
  refine (@page_load_failure _ _ _ runtime Flaky.collab
            (Flaky.start Scenes.w_no_page)
            (snd (setup_driver (Flaky.start Scenes.w_no_page)))
            tt Flaky.no_page Scenes.w_no_page _ _ _);
    vm_compute; reflexivity.
Defined.

(** A crawler that still refers to a session, on a machine where Chrome
    does not start: the earlier session is released again. *)
Lemma session_reference_is_kept_witness :
  trace (snd (find_specific_session (utf8 "1회") (ready w_no_browser)))
  = trace (ready w_no_browser) ++ [EvQuit tt].
Proof.
  refine (proj2 (proj2 (@session_reference_is_kept _ _ _ runtime collab
                          (utf8 "1회") (ready w_no_browser)))
                tt unreachable (snd (setup_driver (ready w_no_browser))) _ _);
    vm_compute; reflexivity.
Defined.

(** The first row gave a record, the second row's window is gone: the
    extraction answers the empty list. *)
Lemma foreign_row_error_empties_witness :
  fst (row_loop 0 [Flaky.Sound (row2 "1회" "1300.5")] []
                (Flaky.ready Scenes.w_broken))
  = Ok [rec_of "1회" "1300.5"]
  /\ fst (extract_exchange_data (Flaky.ready Scenes.w_broken)) = Ok [].
Proof.
  split; [vm_compute; reflexivity |].
  pose (s0 := snd (drv_call (fun d => wait_present d TagTable 10)
                            (Flaky.ready Scenes.w_broken))).
  pose (s1 := snd (select_rows SELECTORS [] s0)).
  pose (s2 := snd (row_loop 0 [Flaky.Sound (row2 "1회" "1300.5")] []
                            (add_log s1 (LRowsTotal 3)))).
  pose (s3 := snd (extract_row Flaky.Broken s2)).
  refine (f_equal fst
            (@foreign_row_error_empties _ _ _ runtime Flaky.collab
               (Flaky.ready Scenes.w_broken) (Flaky.Sound Table) s0
               [Flaky.Sound (row2 "1회" "1300.5")] Flaky.Broken
               [Flaky.Sound (row2 "2회" "1301.0")] s1
               [rec_of "1회" "1300.5"] s2 Flaky.no_window s3 _ _ _ _ _));
    vm_compute; reflexivity.
Defined.

(** The third cell holds a dash: the rate is read from the second. *)
Lemma rate_column_priority_witness :
  extract_row Scenes.row3 (ready Scenes.w_blank)
  = build_record (strip (utf8 "1회")) (strip (utf8 "1300.5"))
                 (set_world (ready Scenes.w_blank) Scenes.w_blank).
Proof.
  refine (proj1 (proj2 (@rate_column_priority _ _ _ runtime collab
                          Scenes.row3 (ready Scenes.w_blank)
                          (Cell (utf8 "1회")) (Cell (utf8 "1300.5"))
                          (Cell (utf8 "-")) [] Scenes.w_blank
                          (utf8 "1회") Scenes.w_blank
                          (utf8 "-") Scenes.w_blank _ _ _)
                       _ (utf8 "1300.5") Scenes.w_blank _) _);
    vm_compute; reflexivity.
Defined.


(** Links 1, 2, >> and Last: the link >> is found, Last is not read. *)
Lemma find_last_button_first_witness :
  find_last_button
    ([Anchor (utf8 "1"); Anchor (utf8 "2")]
       ++ Anchor (utf8 " >> ") :: [Anchor (utf8 "Last")])
    (ready Scenes.w_blank)
  = (Ok (Some (Anchor (utf8 " >> "))),
     set_world (ready Scenes.w_blank) Scenes.w_blank)
  /\ find_last_button [Anchor (utf8 "1"); Anchor (utf8 "2")]
                      (ready Scenes.w_blank)
     = (Ok None, set_world (ready Scenes.w_blank) Scenes.w_blank).
Proof.
  assert (H1 : read_texts [Anchor (utf8 "1"); Anchor (utf8 "2")]
                          Scenes.w_blank
               = (Ok [utf8 "1"; utf8 "2"], Scenes.w_blank))
    by (vm_compute; reflexivity).
  assert (H2 : forallb (fun t => negb (is_last_label t)) [utf8 "1"; utf8 "2"]
               = true)
    by (vm_compute; reflexivity).
  assert (H3 : elem_text (Anchor (utf8 " >> ")) Scenes.w_blank
               = (Ok (utf8 " >> "), Scenes.w_blank))
    by (vm_compute; reflexivity).
  assert (H4 : is_last_label (utf8 " >> ") = true)
    by (vm_compute; reflexivity).
  pose proof (@find_last_button_first _ _ _ runtime collab
                [Anchor (utf8 "1"); Anchor (utf8 "2")]
                (Anchor (utf8 " >> ")) [Anchor (utf8 "Last")]
                (ready Scenes.w_blank) [utf8 "1"; utf8 "2"] Scenes.w_blank
                (utf8 " >> ") Scenes.w_blank H1 H2) as T.
  exact (conj (proj1 T H3 H4) (proj2 T)).
Defined.

(** Two different records give two different CSV texts. *)
Lemma csv_content_injective_witness :
  forallb plain_record [rec_of "1회" "1300.5"; rec_of "2회" "1301.0"] = true
  /\ csv_content [rec_of "1회" "1300.5"] <> csv_content [rec_of "2회" "1301.0"].
Proof.
  split; [vm_compute; reflexivity |].
  intros E.
  assert (H1 : forallb plain_record [rec_of "1회" "1300.5"] = true)
    by (vm_compute; reflexivity).
  assert (H2 : forallb plain_record [rec_of "2회" "1301.0"] = true)
    by (vm_compute; reflexivity).
  pose proof (@csv_content_injective _ _ H1 H2 E) as H.
  vm_compute in H. discriminate H.
Defined.

(** Of the browser paths only /opt/headless-chromium exists: it is the one
    taken, after three paths that are missing. *)
Lemma probe_takes_first_existing_witness :
  Environment.probe_paths Environment.CHROME_PATHS Scenes.files
  = (Ok (Some (utf8 "/opt/headless-chromium")), Scenes.files)
  /\ Environment.probe_paths
       [utf8 "/opt/chrome/chrome"; utf8 "/opt/chrome/headless-chromium";
        utf8 "/opt/chrome-linux/chrome"] Scenes.files
     = (Ok None, Scenes.files).
Proof.
  assert (H1 : Environment.all_missing
                 [utf8 "/opt/chrome/chrome";
                  utf8 "/opt/chrome/headless-chromium";
                  utf8 "/opt/chrome-linux/chrome"] Scenes.files
               = (true, Scenes.files))
    by (vm_compute; reflexivity).
  assert (H2 : Environment.path_exists (utf8 "/opt/headless-chromium")
                                       Scenes.files
               = (true, Scenes.files))
    by (vm_compute; reflexivity).
  assert (H3 : Environment.stat_mode (utf8 "/opt/headless-chromium")
                                     Scenes.files
               = (Ok 33261%N, Scenes.files))
    by reflexivity.
  pose proof (@probe_takes_first_existing _ Environment.listed
                [utf8 "/opt/chrome/chrome";
                 utf8 "/opt/chrome/headless-chromium";
                 utf8 "/opt/chrome-linux/chrome"]
                (utf8 "/opt/headless-chromium")
                [utf8 "/var/task/headless-chromium"]
                Scenes.files Scenes.files Scenes.files H1) as T.
  exact (conj (proj1 (proj1 T H2) _ _ H3) (proj2 T)).
Defined.

(** Listing /opt fails and the version calls fail: the probe still answers
    the browser and the driver it found. *)
Lemma check_environment_answers_witness :
  Environment.check_environment Scenes.files
  = (Ok (Some (utf8 "/opt/headless-chromium"),
         Some (utf8 "/opt/chrome/chromedriver")), Scenes.files)
  /\ exists chrome_path driver_path w',
      Environment.check_environment Scenes.files
      = (Ok (chrome_path, driver_path), w')
      /\ (forall path, chrome_path = Some path ->
                       In path Environment.CHROME_PATHS)
      /\ (forall path, driver_path = Some path ->
                       In path Environment.CHROMEDRIVER_PATHS).
Proof.
  split; [vm_compute; reflexivity |].
  apply (@check_environment_answers _ Environment.listed Scenes.files).
  intros path w0. exists 33261%N, w0. reflexivity.
Defined.


(** Five rows, two records, in row order. *)
Lemma row_loop_appends_witness :
  row_loop 0 (table w_rows) [] (ready w_rows)
  = (Ok [rec_of "1회" "1300.5"; rec_of "3회" "1,302.0"],
     snd (row_loop 0 (table w_rows) [] (ready w_rows)))
  /\ exists added,
      [rec_of "1회" "1300.5"; rec_of "3회" "1,302.0"] = [] ++ added
      /\ List.length added <= List.length (table w_rows).
Proof.
  assert (E : row_loop 0 (table w_rows) [] (ready w_rows)
              = (Ok [rec_of "1회" "1300.5"; rec_of "3회" "1,302.0"],
                 snd (row_loop 0 (table w_rows) [] (ready w_rows))))
    by (vm_compute; reflexivity).
  split; [exact E |].
  exact (proj1 (@row_loop_appends _ _ _ runtime collab 0 (ready w_rows))
               _ _ _ _ E).
Defined.

(** The substitute for 7회 comes from the extraction after the retry pass. *)
Lemma returned_record_was_extracted_witness :
  find_exact (utf8 "7회")
             [rec_of "5회" "1300.5"; rec_of "2회" "1301.0"; rec_of "9회" "1302"]
  = Some (rec_of "2회" "1301.0")
  \/ (find_exact (utf8 "7회")
                 [rec_of "5회" "1300.5"; rec_of "2회" "1301.0";
                  rec_of "9회" "1302"] = None
      /\ exists data2 s2,
          search_retry (utf8 "7회") (snd (search_first (start w_three)))
          = (Ok data2, s2)
          /\ In (rec_of "2회" "1301.0") data2).
Proof.
  refine (@returned_record_was_extracted _ _ _ runtime collab
            (utf8 "7회") (start w_three) (rec_of "2회" "1301.0")
            (snd (find_specific_session (utf8 "7회") (start w_three)))
            [rec_of "5회" "1300.5"; rec_of "2회" "1301.0"; rec_of "9회" "1302"]
            (snd (search_first (start w_three))) _ _);
    vm_compute; reflexivity.
Defined.
